(** * Orzion AI gateway: rate limiter, credential pool, quota gate, retry dispatcher

  A shallow embedding of the gateway pipeline of the repository:
  - [lib/apiKeyRotation.js]  (module [KeyRotation]),
  - [lib/rateLimit.js]       (module [RateLimit]),
  - [lib/supabase.js]        (module [Supabase]),
  - [api/v1/chat/[model].js] (modules [Chat] and [Handler]),
  - [lib/middleware.js]      (module [Middleware]),
  - [lib/errorHandler.js]    (module [ErrorHandler]);
  module [PrototypeChain] adds the names the configuration object inherits,
  module [Scenario] holds concrete configurations and failures, and the
  modules named [...Facts] hold what is proved.

  Conventions.  JavaScript numbers that hold counts, limits and clock
  readings are integers here ([Z], or [nat] for array indices and the
  failure counter); a JavaScript string is a [string], one character per
  UTF-16 code unit; module-level mutable objects are explicit states that
  every operation receives and returns; a thrown [Error] is the left
  injection of a sum carrying the error's fields.  [Logger] calls write to
  the console only and are left out. *)

From Stdlib Require Import Ascii String ZArith QArith Qround Lia.
From stdpp Require Import base option list gmap strings pretty.

Local Open Scope Z_scope.

(** ** lib/apiKeyRotation.js

    The pool is the map of the own entries of [API_KEY_CONFIG]; a lookup
    that gives [None] is a lookup that finds [undefined]. That is every
    lookup but those of the names the object inherits from
    [Object.prototype], which module [PrototypeChain] adds. *)

Module KeyRotation.

(** One entry of [API_KEY_CONFIG]. *)
Record KeyConfig : Type := mkKeyConfig {
  modelId : string;
  keys : list string;
  currentIndex : nat;
  failureCount : nat
}.

(** The environment: [process.env.NAME] is [None] when the variable is
    unset. *)
Definition Env : Type := string → option string.

(** [[process.env.A, process.env.B, process.env.C].filter(key => key)]:
    unset variables and empty strings are falsy and dropped. *)
Definition configuredKeys (env : Env) (names : list string) : list string :=
  omap (λ name, match env name with
                | Some value => if decide (value = "") then None else Some value
                | None => None
                end) names.

Definition entry (env : Env) (mid : string) (names : list string) : KeyConfig :=
  {| modelId := mid; keys := configuredKeys env names;
     currentIndex := 0; failureCount := 0 |}.

(** The module-level constant, as it is when the module has been loaded. *)
Definition API_KEY_CONFIG (env : Env) : gmap string KeyConfig :=
  <["orzion-pro" := entry env "qwen/qwen-2.5-72b-instruct:free"
      ["ORZION_PRO_API_KEY_1"; "ORZION_PRO_API_KEY_2"; "ORZION_PRO_API_KEY_3"]]>
  (<["orzion-turbo" := entry env "meta-llama/llama-3.2-3b-instruct:free"
      ["ORZION_TURBO_API_KEY_1"; "ORZION_TURBO_API_KEY_2"; "ORZION_TURBO_API_KEY_3"]]>
  (<["orzion-mini" := entry env "meta-llama/llama-3.2-3b-instruct:free"
      ["ORZION_MINI_API_KEY_1"; "ORZION_MINI_API_KEY_2"; "ORZION_MINI_API_KEY_3"]]>
   ∅)).

Record ApiKeyInfo : Type := mkApiKeyInfo {
  key : option string;
  keyIndex : nat;
  totalKeys : nat;
  infoModelId : string
}.

(** [getCurrentApiKey]: [inl msg] is the thrown [Error(msg)];
    [config.keys[config.currentIndex]] is [undefined] ([None]) out of
    range. The guard [!config || !config.keys || config.keys.length === 0]
    is the same in [rotateApiKey] and [allKeysFailed]: no entry for the
    model, or an entry with an empty list ([keys] is always an array). *)
Definition getCurrentApiKey (cfg : gmap string KeyConfig) (model : string)
  : string + ApiKeyInfo :=
  match cfg !! model with
  | None => inl ("No hay claves API configuradas para el modelo: " +:+ model)
  | Some config =>
      if Nat.eqb (length (keys config)) 0
      then inl ("No hay claves API configuradas para el modelo: " +:+ model)
      else inr {| key := keys config !! currentIndex config;
                  keyIndex := currentIndex config;
                  totalKeys := length (keys config);
                  infoModelId := modelId config |}
  end.

(** [rotateApiKey(model, reason)]; the reason is only logged. *)
Definition rotateApiKey (cfg : gmap string KeyConfig) (model : string)
    (reason : string) : gmap string KeyConfig :=
  match cfg !! model with
  | None => cfg
  | Some config =>
      if Nat.eqb (length (keys config)) 0 then cfg
      else <[model := {| modelId := modelId config;
                         keys := keys config;
                         currentIndex :=
                           (currentIndex config + 1) `mod` length (keys config);
                         failureCount := S (failureCount config) |}]> cfg
  end.

(** [resetFailureCount(model)] *)
Definition resetFailureCount (cfg : gmap string KeyConfig) (model : string)
  : gmap string KeyConfig :=
  match cfg !! model with
  | None => cfg
  | Some config =>
      <[model := {| modelId := modelId config;
                    keys := keys config;
                    currentIndex := currentIndex config;
                    failureCount := 0 |}]> cfg
  end.

(** [allKeysFailed(model)] *)
Definition allKeysFailed (cfg : gmap string KeyConfig) (model : string) : bool :=
  match cfg !! model with
  | None => true
  | Some config =>
      if Nat.eqb (length (keys config)) 0 then true
      else Nat.leb (length (keys config)) (failureCount config)
  end.

Record RotationStats : Type := mkRotationStats {
  statsModel : string;
  statsTotalKeys : nat;
  currentKeyIndex : nat;
  statsFailureCount : nat;
  statsAllKeysFailed : bool
}.

(** [getRotationStats(model)]; [None] is [null]. *)
Definition getRotationStats (cfg : gmap string KeyConfig) (model : string)
  : option RotationStats :=
  match cfg !! model with
  | None => None
  | Some config =>
      Some {| statsModel := model;
              statsTotalKeys := length (keys config);
              currentKeyIndex := currentIndex config;
              statsFailureCount := failureCount config;
              statsAllKeysFailed := allKeysFailed cfg model |}
  end.

(** [getAllRotationStats()]: one entry per own key of [API_KEY_CONFIG]. *)
Definition getAllRotationStats (cfg : gmap string KeyConfig)
  : gmap string (option RotationStats) :=
  map_imap (λ model _, Some (getRotationStats cfg model)) cfg.

(** The exported operations of the module, as requests against the shared
    pool state, and what each returns. *)
Inductive PoolOp : Type :=
| OpGetCurrentApiKey (model : string)
| OpRotateApiKey (model reason : string)
| OpResetFailureCount (model : string)
| OpAllKeysFailed (model : string)
| OpGetRotationStats (model : string)
| OpGetAllRotationStats.

Inductive PoolReply : Type :=
| RKey (r : string + ApiKeyInfo)
| RUnit
| RBool (b : bool)
| RStats (s : option RotationStats)
| RAllStats (s : gmap string (option RotationStats)).

Definition runOp (op : PoolOp) (cfg : gmap string KeyConfig)
  : gmap string KeyConfig * PoolReply :=
  match op with
  | OpGetCurrentApiKey model => (cfg, RKey (getCurrentApiKey cfg model))
  | OpRotateApiKey model reason => (rotateApiKey cfg model reason, RUnit)
  | OpResetFailureCount model => (resetFailureCount cfg model, RUnit)
  | OpAllKeysFailed model => (cfg, RBool (allKeysFailed cfg model))
  | OpGetRotationStats model => (cfg, RStats (getRotationStats cfg model))
  | OpGetAllRotationStats => (cfg, RAllStats (getAllRotationStats cfg))
  end.

Definition runOps (ops : list PoolOp) (cfg : gmap string KeyConfig)
  : gmap string KeyConfig :=
  foldl (λ c op, fst (runOp op c)) cfg ops.

Definition isMutator (op : PoolOp) : bool :=
  match op with
  | OpRotateApiKey _ _ | OpResetFailureCount _ => true
  | _ => false
  end.

(** [n] consecutive calls of [rotateApiKey(model, reason)]. *)
Definition rotateTimes (n : nat) (model reason : string)
    (cfg : gmap string KeyConfig) : gmap string KeyConfig :=
  Nat.iter n (λ c, rotateApiKey c model reason) cfg.

(** The pool invariant of the data model. *)
Definition indexInRange (cfg : gmap string KeyConfig) : Prop :=
  ∀ model config, cfg !! model = Some config →
    keys config ≠ [] → (currentIndex config < length (keys config))%nat.

(** The credentials configured for a model; none for an unknown model. *)
Definition credentials (cfg : gmap string KeyConfig) (model : string) : list string :=
  default [] (keys <$> cfg !! model).

(** The operation writes to the entry of the model. *)
Definition mutates (op : PoolOp) (model : string) : bool :=
  match op with
  | OpRotateApiKey m _ | OpResetFailureCount m => bool_decide (m = model)
  | _ => false
  end.

End KeyRotation.

(** ** lib/apiKeyRotation.js: the names [API_KEY_CONFIG] inherits

    [API_KEY_CONFIG] is an object literal, so [API_KEY_CONFIG[model]] looks
    [model] up along the prototype chain: besides the three own entries it
    finds the properties of [Object.prototype]. Module [KeyRotation] gives
    every function on the own entries and on the names the lookup does not
    find ([undefined]); this module adds what the functions do on the
    inherited names, and is the module's behaviour on every string. *)

Module PrototypeChain.

(** The value of a number-valued property that may be missing or may have
    lost its number. *)
Inductive JsNumber : Type :=
| Undefined
| NaN
| Number (n : nat).

(** The pool with what the functions can write outside the own entries:
    the properties [currentIndex] and [failureCount] of the function
    [Object] ([Undefined] while [Object] has no such own property), and
    whether [Object.prototype.failureCount = 0] has been assigned. A
    property [failureCount] written on a method of [Object.prototype] is not
    kept: no function reads it. *)
Record Pool : Type := mkPool {
  entries : gmap string KeyRotation.KeyConfig;
  objectIndex : JsNumber;
  objectFailures : JsNumber;
  polluted : bool
}.

(** The methods of [Object.prototype]. *)
Definition prototypeMethods : list string :=
  ["__defineGetter__"; "__defineSetter__"; "hasOwnProperty"; "__lookupGetter__";
   "__lookupSetter__"; "isPrototypeOf"; "propertyIsEnumerable"; "toString";
   "valueOf"; "toLocaleString"].

(** What [API_KEY_CONFIG[model]] finds. *)
Inductive Found : Type :=
| FoundEntry (config : KeyRotation.KeyConfig)
| FoundObject      (* [constructor]: the function [Object] *)
| FoundPrototype   (* [__proto__]: the object [Object.prototype] *)
| FoundMethod      (* a method of [Object.prototype] *)
| FoundZero        (* [failureCount], once [Object.prototype] has it: 0 *)
| FoundNothing.

Definition find (p : Pool) (model : string) : Found :=
  match entries p !! model with
  | Some config => FoundEntry config
  | None =>
      if bool_decide (model = "constructor") then FoundObject
      else if bool_decide (model = "__proto__") then FoundPrototype
      else if bool_decide (model ∈ prototypeMethods) then FoundMethod
      else if polluted p && bool_decide (model = "failureCount") then FoundZero
      else FoundNothing
  end.

(** [Object.failureCount]: the own property, or the one inherited from
    [Object.prototype]. *)
Definition failureCountOfObject (p : Pool) : JsNumber :=
  match objectFailures p with
  | Undefined => if polluted p then Number 0 else Undefined
  | v => v
  end.

(** [(x + 1) % length] *)
Definition nextIndex (x : JsNumber) (length : nat) : JsNumber :=
  match x with
  | Number k => Number ((k + 1) `mod` length)
  | _ => NaN
  end.

(** [x++] *)
Definition increment (x : JsNumber) : JsNumber :=
  match x with
  | Number n => Number (S n)
  | _ => NaN
  end.

(** [x >= length] *)
Definition atLeast (x : JsNumber) (length : nat) : bool :=
  match x with
  | Number n => Nat.leb length n
  | _ => false
  end.

(** What [getCurrentApiKey] returns or throws. For [Object] the guard
    [!config || !config.keys || config.keys.length === 0] passes:
    [Object.keys] is a function, of length 1. The record returned has
    [key] and [modelId] undefined and [totalKeys] 1. *)
Inductive KeyResult : Type :=
| Thrown (msg : string)
| Key (info : KeyRotation.ApiKeyInfo)
| ObjectKey (keyIndex : JsNumber).

(** [getCurrentApiKey(model)]. [Object.prototype] and its methods have no
    [keys], and 0 is falsy: the guard throws for them as for a name that is
    not found. *)
Definition getCurrentApiKey (p : Pool) (model : string) : KeyResult :=
  match find p model with
  | FoundObject => ObjectKey (objectIndex p)
  | _ =>
      match KeyRotation.getCurrentApiKey (entries p) model with
      | inl msg => Thrown msg
      | inr info => Key info
      end
  end.

(** [rotateApiKey(model, reason)]: past the guard, [Object] gets the two
    properties. *)
Definition rotateApiKey (p : Pool) (model reason : string) : Pool :=
  match find p model with
  | FoundObject =>
      mkPool (entries p) (nextIndex (objectIndex p) 1)
             (increment (failureCountOfObject p)) (polluted p)
  | _ =>
      mkPool (KeyRotation.rotateApiKey (entries p) model reason)
             (objectIndex p) (objectFailures p) (polluted p)
  end.

(** [resetFailureCount(model)]: its guard is [if (config)], which every
    object and function passes. *)
Definition resetFailureCount (p : Pool) (model : string) : Pool :=
  match find p model with
  | FoundObject => mkPool (entries p) (objectIndex p) (Number 0) (polluted p)
  | FoundPrototype => mkPool (entries p) (objectIndex p) (objectFailures p) true
  | FoundMethod => p
  | _ =>
      mkPool (KeyRotation.resetFailureCount (entries p) model)
             (objectIndex p) (objectFailures p) (polluted p)
  end.

(** [allKeysFailed(model)] *)
Definition allKeysFailed (p : Pool) (model : string) : bool :=
  match find p model with
  | FoundObject => atLeast (failureCountOfObject p) 1
  | _ => KeyRotation.allKeysFailed (entries p) model
  end.

(** What [getRotationStats] returns or throws: its guard is [!config], and
    [config.keys.length] throws a [TypeError] where [keys] is undefined. *)
Inductive StatsResult : Type :=
| StatsThrown (msg : string)
| StatsNull
| Stats (stats : KeyRotation.RotationStats)
| ObjectStats (currentKeyIndex failureCount : JsNumber) (allFailed : bool).

(** [getRotationStats(model)] *)
Definition getRotationStats (p : Pool) (model : string) : StatsResult :=
  match find p model with
  | FoundObject =>
      ObjectStats (objectIndex p) (failureCountOfObject p) (allKeysFailed p model)
  | FoundPrototype | FoundMethod =>
      StatsThrown "Cannot read properties of undefined (reading 'length')"
  | _ =>
      match KeyRotation.getRotationStats (entries p) model with
      | Some stats => Stats stats
      | None => StatsNull
      end
  end.

(** [getAllRotationStats()]: [for ... in] lists the own keys and then the
    enumerable keys of the chain, which are none until
    [Object.prototype.failureCount] is assigned; [getRotationStats] finds 0
    under that key and returns [null]. *)
Definition getAllRotationStats (p : Pool)
  : gmap string (option KeyRotation.RotationStats) :=
  let stats := KeyRotation.getAllRotationStats (entries p) in
  if polluted p && bool_decide (entries p !! "failureCount" = None)
  then <["failureCount" := None]> stats
  else stats.

(** The module as it is when it has been loaded. *)
Definition initial (env : KeyRotation.Env) : Pool :=
  mkPool (KeyRotation.API_KEY_CONFIG env) Undefined Undefined false.

(** The pool after an operation, and after a list of them. *)
Definition applyOp (op : KeyRotation.PoolOp) (p : Pool) : Pool :=
  match op with
  | KeyRotation.OpRotateApiKey model reason => rotateApiKey p model reason
  | KeyRotation.OpResetFailureCount model => resetFailureCount p model
  | _ => p
  end.

Definition runOps (ops : list KeyRotation.PoolOp) (p : Pool) : Pool :=
  foldl (λ q op, applyOp op q) p ops.

End PrototypeChain.

(** ** lib/rateLimit.js *)

Module RateLimit.

(** A row of the table [rate_limits]: the columns the module reads and
    writes ([key] is the map key). *)
Record Row : Type := mkRow {
  row_count : Z;
  reset_time : Z
}.

(** The statements the module sends through [pgClient.query]. *)
Inductive Query : Type :=
| Begin
| DeleteExpired (now : Z)
| SelectCount (dbKey : string)
| Insert (dbKey : string) (cnt resetTime : Z)
| UpdateCount (cnt : Z) (dbKey : string)
| Commit
| Rollback.

(** The client object together with the store behind it: the table as
    the session sees it, the table as it was at [BEGIN] while a
    transaction is open, the storage faults still to come (the n-th
    statement sent from now on throws [Error(msg)] when the n-th entry is
    [Some msg]; past the end of the list nothing fails), and the
    statements sent so far, oldest first. A fault stands for whatever makes
    the store refuse a statement: a connection that was never made or was
    lost, a timeout, a value the schema does not take. *)
Record PgClient : Type := mkPgClient {
  table : gmap string Row;
  snapshot : option (gmap string Row);
  faults : list (option string);
  log : list Query
}.

(** What a statement does to the store when the store is healthy:
    the [count] column of the selected rows, the new table, the new
    snapshot. The values are taken as they come: what the columns of the
    table do not take is [refusal], below, and reaches a call as a fault. *)
Definition execute (q : Query) (tbl : gmap string Row)
    (snap : option (gmap string Row))
  : string + (list Z * gmap string Row * option (gmap string Row)) :=
  match q with
  | Begin =>
      inr ([], tbl, Some (default tbl snap))
  | DeleteExpired now =>
      inr ([], filter (λ kv, now ≤ reset_time kv.2) tbl, snap)
  | SelectCount dbKey =>
      inr (match tbl !! dbKey with Some r => [row_count r] | None => [] end,
           tbl, snap)
  | Insert dbKey cnt resetTime =>
      match tbl !! dbKey with
      | Some _ => inl "duplicate key value violates unique constraint"
      | None => inr ([], <[dbKey := mkRow cnt resetTime]> tbl, snap)
      end
  | UpdateCount cnt dbKey =>
      inr ([], alter (λ r, mkRow cnt (reset_time r)) dbKey tbl, snap)
  | Commit =>
      inr ([], tbl, None)
  | Rollback =>
      inr ([], default tbl snap, None)
  end.

(** Computations against the client that may throw. *)
Definition Pg (A : Type) : Type := PgClient → (string + A) * PgClient.

Definition ret {A} (a : A) : Pg A := λ pg, (inr a, pg).
Definition throw {A} (msg : string) : Pg A := λ pg, (inl msg, pg).
Definition bind {A B} (m : Pg A) (k : A → Pg B) : Pg B :=
  λ pg, match m pg with
        | (inl msg, pg') => (inl msg, pg')
        | (inr a, pg') => k a pg'
        end.
Definition tryCatch {A} (m : Pg A) (handler : string → Pg A) : Pg A :=
  λ pg, match m pg with
        | (inl msg, pg') => handler msg pg'
        | (inr a, pg') => (inr a, pg')
        end.

Notation "x <~ m ;; k" := (bind m (λ x, k))
  (at level 100, m at level 99, right associativity).

(** [await pgClient.query(...)] *)
Definition query (q : Query) : Pg (list Z) := λ pg,
  let sent := mkPgClient (table pg) (snapshot pg) (tail (faults pg)) (log pg ++ [q]) in
  match faults pg with
  | Some msg :: _ => (inl msg, sent)
  | _ =>
      match execute q (table pg) (snapshot pg) with
      | inl msg => (inl msg, sent)
      | inr (rows, tbl, snap) =>
          (inr rows, mkPgClient tbl snap (tail (faults pg)) (log pg ++ [q]))
      end
  end.

Record RateLimitResult : Type := mkRateLimitResult {
  allowed : bool;
  count : Z;
  remaining : Z;
  resetTime : option Z;
  limit : option Z;
  error : option string
}.

(** [`ratelimit:${key}:${window}`] *)
Definition dbKeyOf (key : string) (window : Z) : string :=
  "ratelimit:" +:+ key +:+ ":" +:+ pretty window.

(** The body of the outer [try] of [checkRateLimit]; [now] is the reading
    of [Date.now()], [Math.floor(now / windowMs)] is the floor division of
    [Z] (the window size is not 0). *)
Definition transaction (key : string) (lim windowMs increment now : Z)
  : Pg RateLimitResult :=
  let window := now `div` windowMs in
  let dbKey := dbKeyOf key window in
  let resetTime := (window + 1) * windowMs in
  _ <~ query Begin ;;
  tryCatch
    (_ <~ query (DeleteExpired now) ;;
     selectResult <~ query (SelectCount dbKey) ;;
     currentCount <~
       match selectResult with
       | [] =>
           _ <~ query (Insert dbKey increment resetTime) ;;
           ret increment
       | c :: _ =>
           let currentCount := c + increment in
           _ <~ query (UpdateCount currentCount dbKey) ;;
           ret currentCount
       end ;;
     _ <~ query Commit ;;
     ret {| allowed := currentCount <=? lim;
            count := currentCount;
            remaining := Z.max 0 (lim - currentCount);
            resetTime := Some resetTime;
            limit := Some lim;
            error := None |})
    (λ msg, _ <~ query Rollback ;; throw msg).

(** [checkRateLimit(key, limit, windowMs, increment)] against the module
    variable [pgClient]; the clock is read once. [pgClient] is [null]
    ([None]) only when [DATABASE_URL] is not set: [initializeDatabase]
    assigns the client before it connects, so a store that cannot be
    reached leaves a client all of whose statements fail. *)
Definition checkRateLimit (pgClient : option PgClient) (now : Z)
    (key : string) (lim windowMs increment : Z)
  : RateLimitResult * option PgClient :=
  match pgClient with
  | None =>
      ({| allowed := true; count := 0; remaining := lim;
          resetTime := Some (now + windowMs); limit := None; error := None |},
       None)
  | Some pg =>
      if decide (lim = -1) then
        ({| allowed := true; count := 0; remaining := -1;
            resetTime := None; limit := None; error := None |},
         Some pg)
      else
        match transaction key lim windowMs increment now pg with
        | (inr result, pg') => (result, Some pg')
        | (inl msg, pg') =>
            ({| allowed := true; count := 0; remaining := lim;
                resetTime := Some (now + windowMs); limit := None;
                error := Some msg |},
             Some pg')
        end
  end.

(** Calls of [checkRateLimit] on one key, each awaited before the next
    one is made, each with its clock reading and its increment. *)
Fixpoint checkSequence (pgClient : option PgClient) (key : string)
    (lim windowMs : Z) (calls : list (Z * Z))
  : list RateLimitResult * option PgClient :=
  match calls with
  | [] => ([], pgClient)
  | (now, increment) :: rest =>
      let '(r, pg1) := checkRateLimit pgClient now key lim windowMs increment in
      let '(rs, pg2) := checkSequence pg1 key lim windowMs rest in
      (r :: rs, pg2)
  end.

Record Limits : Type := mkLimits {
  requestsPerSecond : Z;
  dailyRequests : Z;
  tokensPerMinute : Z
}.

(** The three dimensions [checkUserRateLimits] knows. *)
Inductive Dimension : Type :=
| RequestsPerSecond
| DailyRequests
| TokensPerMinute.

Global Instance Dimension_eq_dec : EqDecision Dimension.
Proof. solve_decision. Defined.

Definition dimensionKey (userId : string) (d : Dimension) : string :=
  match d with
  | RequestsPerSecond => "user:" +:+ userId +:+ ":requests_per_second"
  | DailyRequests => "user:" +:+ userId +:+ ":daily_requests"
  | TokensPerMinute => "user:" +:+ userId +:+ ":tokens_per_minute"
  end.

(** A pending call [checkRateLimit(key, limit, windowMs, increment)]. *)
Record Check : Type := mkCheck {
  dimension : Dimension;
  checkLimit : Z;
  checkWindowMs : Z;
  checkIncrement : Z
}.

(** A number used as a condition: 0 is falsy. *)
Definition truthy (n : Z) : bool := negb (n =? 0).

(** The [checks] array of [checkUserRateLimits], in push order. *)
Definition plannedChecks (limits : Limits) (tokenIncrement : Z) : list Check :=
  (if truthy (requestsPerSecond limits) && negb (requestsPerSecond limits =? -1)
   then [mkCheck RequestsPerSecond (requestsPerSecond limits) 1000 1] else [])
  ++
  (if truthy (dailyRequests limits) && negb (dailyRequests limits =? -1)
   then [mkCheck DailyRequests (dailyRequests limits) (24 * 60 * 60 * 1000) 1] else [])
  ++
  (if truthy (tokensPerMinute limits) && negb (tokensPerMinute limits =? -1)
      && (0 <? tokenIncrement)
   then [mkCheck TokensPerMinute (tokensPerMinute limits) (60 * 1000) tokenIncrement]
   else []).

(** The pushed calls share the one client, each on a key of its own. In
    the source they are started one after the other and awaited together,
    so their statements interleave on the connection; here each call runs
    to its end before the next one starts, in push order, which is the
    order of the results of [Promise.all]. When no statement fails the
    results and the table left are those of the source; when one fails,
    the [ROLLBACK] of the source can also undo what the other calls wrote,
    which this order does not show. *)
Fixpoint runChecks (pgClient : option PgClient) (now : Z) (userId : string)
    (checks : list Check) : list RateLimitResult * option PgClient :=
  match checks with
  | [] => ([], pgClient)
  | c :: rest =>
      let '(r, pg1) := checkRateLimit pgClient now (dimensionKey userId (dimension c))
                         (checkLimit c) (checkWindowMs c) (checkIncrement c) in
      let '(rs, pg2) := runChecks pg1 now userId rest in
      (r :: rs, pg2)
  end.

Record UserRateLimitResult : Type := mkUserRateLimitResult {
  userAllowed : bool;
  reason : option string;
  details : option RateLimitResult;
  checks : option (list RateLimitResult);
  userError : option string;
  userLimits : Limits
}.

(** The [try]/[catch] around [await Promise.all(checks)]: [inr results]
    when every promise resolved, [inl msg] when one rejected. *)
Definition settle (limits : Limits) (outcome : string + list RateLimitResult)
  : UserRateLimitResult :=
  match outcome with
  | inr results =>
      match List.find (λ result, negb (allowed result)) results with
      | Some result =>
          {| userAllowed := false; reason := Some "rate_limit_exceeded";
             details := Some result; checks := None; userError := None;
             userLimits := limits |}
      | None =>
          {| userAllowed := true; reason := None; details := None;
             checks := Some results; userError := None; userLimits := limits |}
      end
  | inl msg =>
      {| userAllowed := true; reason := None; details := None; checks := None;
         userError := Some msg; userLimits := limits |}
  end.

(** [checkUserRateLimits(userId, apiKeyId, limits, tokenIncrement)];
    [checkRateLimit] catches what it throws, so every promise resolves. *)
Definition checkUserRateLimits (pgClient : option PgClient) (now : Z)
    (userId apiKeyId : string) (limits : Limits) (tokenIncrement : Z)
  : UserRateLimitResult * option PgClient :=
  let '(results, pg') :=
    runChecks pgClient now userId (plannedChecks limits tokenIncrement) in
  (settle limits (inr results), pg').

(** No storage fault is scheduled. *)
Definition noFaults (pg : PgClient) : Prop := Forall (λ f, f = None) (faults pg).

(** The count stored under a key; 0 when there is no row. *)
Definition storedCount (pg : PgClient) (dbKey : string) : Z :=
  default 0 (row_count <$> table pg !! dbKey).

(** The sum of a list of increments. *)
Definition total (l : list Z) : Z := foldr Z.add 0 l.

(** The state of one window's counter between two checks. *)
Definition windowOk (pg : PgClient) (dbKey : string) (resetAt : Z) : Prop :=
  noFaults pg ∧ ∀ r, table pg !! dbKey = Some r → reset_time r = resetAt.

(** One of the five statements of a call is scheduled to fail. *)
Definition faulty (pg : PgClient) : Prop :=
  ∃ (i : nat) (msg : string), (i < 5)%nat ∧ faults pg !! i = Some (Some msg).

(** [cleanupExpiredCounters(olderThan)]: [result.rowCount] is the number
    of rows the statement deleted. *)
Definition cleanupExpiredCounters (pgClient : option PgClient) (olderThan : Z)
  : Z * option PgClient :=
  match pgClient with
  | None => (0, None)
  | Some pg =>
      match query (DeleteExpired olderThan) pg with
      | (inr _, pg') =>
          (Z.of_nat (size (filter (λ kv, reset_time kv.2 < olderThan) (table pg))),
           Some pg')
      | (inl _, pg') => (0, Some pg')
      end
  end.

Record RateStats : Type := mkRateStats {
  currentRequestsPerSecond : Z;
  currentDailyRequests : Z;
  currentTokensPerMinute : Z;
  timestamp : Z
}.

(** [results[i].rows[0]?.count || 0] *)
Definition firstCount (rows : list Z) : Z :=
  match rows with
  | c :: _ => if truthy c then c else 0
  | [] => 0
  end.

(** [getUserRateStats(userId)]: the three statements are all sent before
    the first is awaited; [None] is [null]. *)
Definition getUserRateStats (pgClient : option PgClient) (now : Z) (userId : string)
  : option RateStats * option PgClient :=
  match pgClient with
  | None => (None, None)
  | Some pg =>
      let '(perSecond, pg1) :=
        query (SelectCount ("ratelimit:user:" +:+ userId +:+ ":requests_per_second:"
                            +:+ pretty (now `div` 1000))) pg in
      let '(daily, pg2) :=
        query (SelectCount ("ratelimit:user:" +:+ userId +:+ ":daily_requests:"
                            +:+ pretty (now `div` (24 * 60 * 60 * 1000)))) pg1 in
      let '(perMinute, pg3) :=
        query (SelectCount ("ratelimit:user:" +:+ userId +:+ ":tokens_per_minute:"
                            +:+ pretty (now `div` (60 * 1000)))) pg2 in
      match perSecond, daily, perMinute with
      | inr rows0, inr rows1, inr rows2 =>
          (Some {| currentRequestsPerSecond := firstCount rows0;
                   currentDailyRequests := firstCount rows1;
                   currentTokensPerMinute := firstCount rows2;
                   timestamp := now |},
           Some pg3)
      | _, _, _ => (None, Some pg3)
      end
  end.

(** [isRedisAvailable: () => pgClient !== null] *)
Definition isRedisAvailable (pgClient : option PgClient) : bool :=
  bool_decide (pgClient ≠ None).

(** The window size [checkUserRateLimits] gives each dimension. *)
Definition dimensionWindowMs (d : Dimension) : Z :=
  match d with
  | RequestsPerSecond => 1000
  | DailyRequests => 24 * 60 * 60 * 1000
  | TokensPerMinute => 60 * 1000
  end.

(** The field of the statistics that belongs to a dimension. *)
Definition statOf (d : Dimension) (stats : RateStats) : Z :=
  match d with
  | RequestsPerSecond => currentRequestsPerSecond stats
  | DailyRequests => currentDailyRequests stats
  | TokensPerMinute => currentTokensPerMinute stats
  end.

(** The five statements of a call that meets no fault. *)
Definition statementsOf (key : string) (windowMs increment now stored : Z)
    (found : bool) : list Query :=
  let window := now `div` windowMs in
  [Begin; DeleteExpired now; SelectCount (dbKeyOf key window);
   if found then UpdateCount (stored + increment) (dbKeyOf key window)
   else Insert (dbKeyOf key window) increment ((window + 1) * windowMs);
   Commit].

(** *** The columns of the table

    [initializeDatabase] creates the table with [key VARCHAR(255)],
    [count INTEGER] and [reset_time BIGINT]: the store refuses a write whose
    values do not fit, and [checkRateLimit] catches the refusal as any
    other storage error. *)

Definition fitsInteger (n : Z) : bool :=
  (-2147483648 <=? n) && (n <=? 2147483647).

Definition fitsBigint (n : Z) : bool :=
  (-9223372036854775808 <=? n) && (n <=? 9223372036854775807).

(** The double quote. *)
Definition quote : string := String (ascii_of_nat 34) EmptyString.

Definition outOfRange (n : Z) (type : string) : string :=
  "value " +:+ quote +:+ pretty n +:+ quote +:+ " is out of range for type " +:+ type.

(** The error of the statement when a value does not fit its column:
    numbers are refused when the parameters are read, a key that is too
    long when the row is written. *)
Definition refusal (q : Query) : option string :=
  match q with
  | Insert dbKey cnt resetTime =>
      if negb (fitsInteger cnt) then Some (outOfRange cnt "integer")
      else if negb (fitsBigint resetTime) then Some (outOfRange resetTime "bigint")
      else if Nat.ltb 255 (String.length dbKey)
      then Some "value too long for type character varying(255)"
      else None
  | UpdateCount cnt _ =>
      if negb (fitsInteger cnt) then Some (outOfRange cnt "integer") else None
  | _ => None
  end.

(** The refusals a call of [checkRateLimit] meets on the table [tbl], one
    entry per statement of the call: the write of the count is the fourth
    statement, after [BEGIN], the deletion and the selection, and is
    followed by [COMMIT] or, when it is refused, by [ROLLBACK]. *)
Definition refusals (tbl : gmap string Row) (key : string)
    (windowMs increment now : Z) : list (option string) :=
  let row := filter (λ kv : string * Row, now ≤ reset_time kv.2) tbl
               !! dbKeyOf key (now `div` windowMs) in
  refusal <$> statementsOf key windowMs increment now
                (default 0 (row_count <$> row)) (bool_decide (is_Some row)).

(** [checkSequence] on a store that refuses what its columns do not take
    and nothing else: each call meets the refusals of its own statements. *)
Fixpoint checkSequenceTyped (pg : PgClient) (key : string) (lim windowMs : Z)
    (calls : list (Z * Z)) : list RateLimitResult * PgClient :=
  match calls with
  | [] => ([], pg)
  | (now, increment) :: rest =>
      let typed :=
        mkPgClient (table pg) (snapshot pg)
          (refusals (table pg) key windowMs increment now) (log pg) in
      match checkRateLimit (Some typed) now key lim windowMs increment with
      | (r, Some pg1) =>
          let '(rs, pg2) := checkSequenceTyped pg1 key lim windowMs rest in
          (r :: rs, pg2)
      | (r, None) => ([r], pg)
      end
  end.

(** The store between the calls of [checkUserRateLimits]: no fault to
    come, and every counter of the user's current windows carries the reset
    time of its window. *)
Definition userWindowsOk (pg : PgClient) (now : Z) (userId : string) : Prop :=
  noFaults pg
  ∧ ∀ d row,
      table pg !! dbKeyOf (dimensionKey userId d) (now `div` dimensionWindowMs d) = Some row →
      reset_time row = (now `div` dimensionWindowMs d + 1) * dimensionWindowMs d.

End RateLimit.

(** ** lib/supabase.js *)

Module Supabase.

Record Usage : Type := mkUsage {
  requestsToday : Z;
  tokensToday : Z
}.

(** The object [validateApiKey] returns for a key that was found. *)
Record Validation : Type := mkValidation {
  isValid : bool;
  userId : string;
  apiKeyId : string;
  plan : string;
  limits : RateLimit.Limits;
  usage : Usage
}.

Record RateLimitsResult : Type := mkRateLimitsResult {
  allowed : bool;
  reason : option string;
  message : option string;
  details : option RateLimit.RateLimitResult;
  rateLimitInfo : option RateLimit.UserRateLimitResult
}.

(** [`${rateLimitResult.details?.limit}`] *)
Definition showLimit (d : option RateLimit.RateLimitResult) : string :=
  match d with
  | Some r => match RateLimit.limit r with
              | Some l => pretty l
              | None => "undefined"
              end
  | None => "undefined"
  end.

(** [rateLimitResult.details?.resetTime ? 'window' : 'second'] *)
Definition showWindow (d : option RateLimit.RateLimitResult) : string :=
  match d with
  | Some r => match RateLimit.resetTime r with
              | Some t => if RateLimit.truthy t then "window" else "second"
              | None => "second"
              end
  | None => "second"
  end.

(** [checkRateLimits(validation, estimatedTokens)] *)
Definition checkRateLimits (pgClient : option RateLimit.PgClient) (now : Z)
    (validation : Validation) (estimatedTokens : Z)
  : RateLimitsResult * option RateLimit.PgClient :=
  let lims := limits validation in
  let rateLimits :=
    RateLimit.mkLimits (RateLimit.requestsPerSecond lims)
                       (RateLimit.dailyRequests lims)
                       (RateLimit.tokensPerMinute lims) in
  let '(rateLimitResult, pg') :=
    RateLimit.checkUserRateLimits pgClient now (userId validation)
      (apiKeyId validation) rateLimits estimatedTokens in
  if negb (RateLimit.userAllowed rateLimitResult) then
    ({| allowed := false;
        reason := RateLimit.reason rateLimitResult;
        message := Some ("Rate limit exceeded: "
                         +:+ showLimit (RateLimit.details rateLimitResult)
                         +:+ " requests per "
                         +:+ showWindow (RateLimit.details rateLimitResult));
        details := RateLimit.details rateLimitResult;
        rateLimitInfo := None |}, pg')
  else if negb (RateLimit.dailyRequests lims =? -1)
          && (RateLimit.dailyRequests lims <=? requestsToday (usage validation)) then
    ({| allowed := false;
        reason := Some "daily_requests_exceeded_db";
        message := Some ("Daily request limit of "
                         +:+ pretty (RateLimit.dailyRequests lims)
                         +:+ " exceeded (database check)");
        details := None;
        rateLimitInfo := None |}, pg')
  else
    ({| allowed := true; reason := None; message := None; details := None;
        rateLimitInfo := Some rateLimitResult |}, pg').

(** [Math.ceil(text.length / 4)]: the quotient is the rational number. *)
Definition estimateTokens (text : string) : Z :=
  Qceiling (Z.of_nat (String.length text) # 4).

End Supabase.

(** ** api/v1/chat/[model].js *)

Module Chat.

(** *** Strings *)

(** [toLowerCase] on one code unit: the capital letters of ASCII and of
    Latin-1 (192 to 222, without the multiplication sign 215). *)
Definition lowerChar (c : ascii) : ascii :=
  let n := nat_of_ascii c in
  if (Nat.leb 65 n && Nat.leb n 90)
     || (Nat.leb 192 n && Nat.leb n 222 && negb (Nat.eqb n 215))
  then ascii_of_nat (n + 32) else c.

Fixpoint toLowerCase (s : string) : string :=
  match s with
  | EmptyString => EmptyString
  | String c rest => String (lowerChar c) (toLowerCase rest)
  end.

Fixpoint startsWith (s needle : string) {struct needle} : bool :=
  match needle, s with
  | EmptyString, _ => true
  | String _ _, EmptyString => false
  | String a needle', String b s' => Ascii.eqb a b && startsWith s' needle'
  end.

(** [s.includes(needle)] *)
Fixpoint includes (s needle : string) : bool :=
  startsWith s needle
  || match s with
     | EmptyString => false
     | String _ rest => includes rest needle
     end.

(** *** Constants *)

(** The three template literals of [SYSTEM_PROMPTS]; their text is not
    needed, only their presence and their length. *)
Record Prompts : Type := mkPrompts {
  promptPro : string;
  promptTurbo : string;
  promptMini : string
}.

Definition SYSTEM_PROMPTS (p : Prompts) : gmap string string :=
  <["orzion-pro" := promptPro p]>
  (<["orzion-turbo" := promptTurbo p]>
  (<["orzion-mini" := promptMini p]> ∅)).

Definition VALID_MODELS : list string :=
  ["orzion-pro"; "orzion-turbo"; "orzion-mini"].
Definition MAX_RETRIES : nat := 3.
Definition RETRY_DELAY_MS : Z := 1000.
Definition API_TIMEOUT_MS : Z := 60000.

(** *** The request *)

Record Message : Type := mkMessage {
  role : string;
  content : string
}.

Record ChatBody : Type := mkChatBody {
  messages : list Message;
  temperature : Q;
  max_tokens : Q;
  stream : bool
}.

(** The loop over [messages]: the code of the first message refused. *)
Fixpoint checkMessages (msgs : list Message) : option string :=
  match msgs with
  | [] => None
  | msg :: rest =>
      if bool_decide (role msg = "") || bool_decide (content msg = "")
      then Some "INVALID_MESSAGE_FORMAT"
      else if negb (bool_decide (role msg ∈ ["system"; "user"; "assistant"]))
      then Some "INVALID_MESSAGE_ROLE"
      else checkMessages rest
  end.

(** The checks of the handler on the model and the body, for a body whose
    fields have the types of [ChatBody]: [None] when all pass, or the code
    of the [BadRequest] thrown. *)
Definition validateRequest (model : option string) (body : ChatBody)
  : option string :=
  match model with
  | None => Some "MISSING_MODEL"
  | Some m =>
      if bool_decide (m = "") then Some "MISSING_MODEL"
      else if negb (bool_decide (m ∈ VALID_MODELS)) then Some "INVALID_MODEL"
      else if Nat.eqb (length (messages body)) 0 then Some "EMPTY_MESSAGES_ARRAY"
      else match checkMessages (messages body) with
           | Some code => Some code
           | None =>
               if negb (Qle_bool 0 (temperature body))
                  || negb (Qle_bool (temperature body) 2)
               then Some "INVALID_TEMPERATURE"
               else if negb (Qle_bool 1 (max_tokens body))
                       || negb (Qle_bool (max_tokens body) (8192 # 1))
               then Some "INVALID_MAX_TOKENS"
               else if stream body then Some "STREAMING_NOT_SUPPORTED"
               else None
           end
  end.

(** [messages.map(m => m.content).join(' ')] *)
Definition messageText (msgs : list Message) : string :=
  String.concat " " (map content msgs).

(** [SYSTEM_PROMPTS[model]] inside a string concatenation. *)
Definition promptOf (p : Prompts) (model : string) : string :=
  default "undefined" (SYSTEM_PROMPTS p !! model).

(** [inputTokens = estimateTokens(messageText + SYSTEM_PROMPTS[model])] *)
Definition inputTokens (p : Prompts) (model : string) (msgs : list Message) : Z :=
  Supabase.estimateTokens (messageText msgs +:+ promptOf p model).

(** *** The upstream call *)

(** [error.response]: the status and [data.error.message] when present. *)
Record ErrorResponse : Type := mkErrorResponse {
  status : Z;
  dataErrorMessage : option string
}.

(** What the [catch] block reads of the caught error. *)
Record ApiError : Type := mkApiError {
  response : option ErrorResponse;
  errMessage : string;
  code : option string
}.

(** What is read of a body with a first choice: [message.content], a
    string or [null] ([None]), and [usage.completion_tokens] when the body
    has it. *)
Record Completion : Type := mkCompletion {
  completionContent : option string;
  completion_tokens : option Z
}.

(** What [axios.post] settles to: a body with or without a first choice
    (a first choice may lack its [message]), or a rejection. *)
Inductive AxiosOutcome : Type :=
| Resolved (choice : Completion)
| ResolvedNoChoice
| ResolvedNoMessage
| Rejected (e : ApiError).

(** The upstream: what the n-th call of a request (from 0) settles to,
    given the credential it was sent with. *)
Definition Upstream : Type := nat → KeyRotation.ApiKeyInfo → AxiosOutcome.

Definition plainError (msg : string) : ApiError :=
  {| response := None; errMessage := msg; code := None |}.

(** [error.response?.data?.error?.message || error.message] *)
Definition errorMessageOf (e : ApiError) : string :=
  match response e with
  | Some r => match dataErrorMessage r with
              | Some m => if bool_decide (m = "") then errMessage e else m
              | None => errMessage e
              end
  | None => errMessage e
  end.

(** [error.response?.status || 0] *)
Definition statusCodeOf (e : ApiError) : Z :=
  match response e with
  | Some r => status r
  | None => 0
  end.

Definition codeIs (e : ApiError) (c : string) : bool :=
  bool_decide (code e = Some c).

Definition isTimeout (e : ApiError) : bool :=
  codeIs e "ECONNABORTED" || codeIs e "ETIMEDOUT".

Definition isNetworkError (e : ApiError) : bool :=
  codeIs e "ENOTFOUND" || codeIs e "ECONNREFUSED" || codeIs e "ECONNRESET".

Definition shouldRotate (e : ApiError) : bool :=
  let errorMessage := errorMessageOf e in
  let statusCode := statusCodeOf e in
  (statusCode =? 429)
  || (statusCode =? 401)
  || (statusCode =? 403)
  || (500 <=? statusCode)
  || isTimeout e
  || isNetworkError e
  || includes (toLowerCase errorMessage) "rate"
  || includes (toLowerCase errorMessage) "limit"
  || includes (toLowerCase errorMessage) "quota".

Definition rotationReason (e : ApiError) : string :=
  let statusCode := statusCodeOf e in
  if statusCode =? 429 then "rate_limit"
  else if statusCode =? 401 then "unauthorized"
  else if statusCode =? 403 then "forbidden"
  else if 500 <=? statusCode then "server_error"
  else if isTimeout e then "timeout"
  else if isNetworkError e then "network_error"
  else "unknown_error".

Record ErrorDetails : Type := mkErrorDetails {
  attempts : nat;
  lastStatusCode : option Z;
  lastErrorMessage : option string;
  errorCode : option string;
  allKeysFailed : bool
}.

Inductive ApiCallResult : Type :=
| Success (resultContent : option string) (usage : option Z) (apiKeyUsed : nat)
| Failure (error : string) (details : ErrorDetails) (statusCode : Z).

(** What a request leaves behind besides its result. *)
Inductive Event : Type :=
| Rotated (reason : string)
| Waited (ms : Z).

(** The [try] block of one iteration: [inl] is what is caught. *)
Definition attempt (upstream : Upstream) (cfg : gmap string KeyRotation.KeyConfig)
    (model : string) (retryCount : nat) : ApiError + ApiCallResult :=
  match KeyRotation.getCurrentApiKey cfg model with
  | inl msg => inl (plainError msg)
  | inr apiKeyInfo =>
      match upstream retryCount apiKeyInfo with
      | Resolved choice =>
          inr (Success (completionContent choice) (completion_tokens choice)
                       (KeyRotation.keyIndex apiKeyInfo + 1))
      | ResolvedNoChoice =>
          inl (plainError "Invalid response structure from OpenRouter API")
      | ResolvedNoMessage =>
          inl (plainError "Cannot read properties of undefined (reading 'content')")
      | Rejected e => inl e
      end
  end.

(** The code after the loop. *)
Definition failure (cfg : gmap string KeyRotation.KeyConfig) (model : string)
    (retryCount : nat) (lastError : option ApiError) : ApiCallResult :=
  Failure
    ("Failed to process request for " +:+ model +:+ " after "
     +:+ pretty retryCount +:+ " attempts")
    {| attempts := retryCount;
       lastStatusCode := e ← lastError; r ← response e; Some (status r);
       lastErrorMessage := errorMessageOf <$> lastError;
       errorCode := lastError ≫= code;
       allKeysFailed := KeyRotation.allKeysFailed cfg model |}
    (match lastError ≫= response with
     | Some r => if RateLimit.truthy (status r) then status r else 503
     | None => 503
     end).

(** The [while] loop, one iteration per unit of fuel; [None] when the
    fuel is used up before the loop is left. *)
Fixpoint retryLoop (fuel : nat) (upstream : Upstream) (model : string)
    (cfg : gmap string KeyRotation.KeyConfig) (retryCount : nat)
    (lastError : option ApiError) (trace : list Event)
  : option (ApiCallResult * gmap string KeyRotation.KeyConfig * list Event) :=
  match fuel with
  | O => None
  | S fuel' =>
      if Nat.ltb retryCount MAX_RETRIES then
        match attempt upstream cfg model retryCount with
        | inr result => Some (result, cfg, trace)
        | inl error =>
            let retryCount := S retryCount in
            if shouldRotate error && Nat.ltb retryCount MAX_RETRIES then
              retryLoop fuel' upstream model
                (KeyRotation.rotateApiKey cfg model (rotationReason error))
                retryCount (Some error)
                (trace ++ [Rotated (rotationReason error);
                           Waited (RETRY_DELAY_MS * Z.of_nat retryCount)])
            else Some (failure cfg model retryCount (Some error), cfg, trace)
        end
      else Some (failure cfg model retryCount lastError, cfg, trace)
  end.

(** [makeApiCallWithRetry(model, messages, temperature, max_tokens,
    requestId)]: the request sent is the same at every attempt but for the
    credential, so the upstream stands for the remaining arguments. *)
Definition makeApiCallWithRetry (upstream : Upstream) (model : string)
    (cfg : gmap string KeyRotation.KeyConfig)
  : option (ApiCallResult * gmap string KeyRotation.KeyConfig * list Event) :=
  retryLoop (S MAX_RETRIES) upstream model cfg 0 None [].



Definition rotations (trace : list Event) : list string :=
  omap (λ ev, match ev with Rotated reason => Some reason | Waited _ => None end) trace.

(** The waits of a request, in order. *)
Definition waits (trace : list Event) : list Z :=
  omap (λ ev, match ev with Waited ms => Some ms | Rotated _ => None end) trace.

End Chat.

(** ** lib/middleware.js *)

Module Middleware.

Definition ALLOWED_ORIGINS : list string :=
  ["http://localhost:5000"; "http://localhost:3000"; "https://orzion.pages.dev";
   "https://orzionai.pages.dev"; "https://orzion-api.vercel.app"].

(** [s.endsWith(suffix)]: a tail of [s] is [suffix]. *)
Fixpoint endsWith (s suffix : string) : bool :=
  bool_decide (s = suffix)
  || match s with
     | EmptyString => false
     | String _ rest => endsWith rest suffix
     end.

(** The response headers; [res.setHeader] replaces a header of the same
    name. *)
Definition allowOrigin (origin : string) (headers : gmap string string)
  : gmap string string :=
  <["Access-Control-Allow-Credentials" := "true"]>
    (<["Access-Control-Allow-Origin" := origin]> headers).

(** [setCorsHeaders(req, res)]: [origin] is [req.headers.origin],
    [isProduction] is [process.env.NODE_ENV === 'production']. *)
Definition setCorsHeaders (isProduction : bool) (origin : option string)
    (headers : gmap string string) : gmap string string :=
  let headers :=
    if isProduction then
      match origin with
      | Some o =>
          if negb (bool_decide (o = ""))
             && (bool_decide (o ∈ ALLOWED_ORIGINS) || endsWith o ".vercel.app"
                 || endsWith o ".pages.dev")
          then allowOrigin o headers
          else headers
      | None => headers
      end
    else
      match origin with
      | Some o =>
          if negb (bool_decide (o = ""))
             && (bool_decide (o ∈ ALLOWED_ORIGINS) || endsWith o ".vercel.app")
          then allowOrigin o headers
          else <["Access-Control-Allow-Origin" := "*"]> headers
      | None => <["Access-Control-Allow-Origin" := "*"]> headers
      end in
  <["Access-Control-Allow-Headers" := "Content-Type, Authorization"]>
    (<["Access-Control-Allow-Methods" := "GET, POST, PATCH, DELETE, OPTIONS"]> headers).

(** What [corsMiddleware] does after the headers. *)
Inductive CorsOutcome : Type :=
| EndedWith (status : Z)
| Next.

(** [corsMiddleware(req, res, next)] *)
Definition corsMiddleware (isProduction : bool) (method : string)
    (origin : option string) (headers : gmap string string)
  : gmap string string * CorsOutcome :=
  let headers :=
    if isProduction then
      match origin with
      | Some o =>
          if negb (bool_decide (o = ""))
             && (bool_decide (o ∈ ALLOWED_ORIGINS) || endsWith o ".vercel.app"
                 || endsWith o ".pages.dev")
          then allowOrigin o headers
          else headers
      | None => headers
      end
    else
      match origin with
      | Some o =>
          if negb (bool_decide (o = ""))
             && (bool_decide (o ∈ ALLOWED_ORIGINS) || endsWith o ".vercel.app")
          then allowOrigin o headers
          else <["Access-Control-Allow-Origin" := "*"]> headers
      | None => <["Access-Control-Allow-Origin" := "*"]> headers
      end in
  let headers :=
    <["Access-Control-Allow-Headers" := "Content-Type, Authorization"]>
      (<["Access-Control-Allow-Methods" := "GET, POST, PATCH, DELETE, OPTIONS"]> headers) in
  if bool_decide (method = "OPTIONS") then (headers, EndedWith 200) else (headers, Next).

(** The origins the specification of the two functions names: a listed
    origin, or one under vercel.app, or in production one under pages.dev. *)
Definition originAccepted (isProduction : bool) (o : string) : Prop :=
  o ≠ ""
  ∧ (o ∈ ALLOWED_ORIGINS
     ∨ (∃ pre, o = pre +:+ ".vercel.app")
     ∨ (isProduction = true ∧ ∃ pre, o = pre +:+ ".pages.dev")).

End Middleware.

(** ** lib/errorHandler.js *)

Module ErrorHandler.

(** The [details] of an error. The object literals of the source (hints,
    lists of valid values) are one constructor; the details that carry
    results of the pipeline are kept. *)
Inductive Details : Type :=
| Literal
| LimitDetails (r : RateLimit.RateLimitResult)
| UpstreamDetails (d : Chat.ErrorDetails)
| DetailText (s : string).

(** [ApiError]; [isOperational] is true of every instance. *)
Record ApiError : Type := mkApiError {
  statusCode : Z;
  message : string;
  code : string;
  details : option Details
}.

(** The factories, with the arguments their callers give. *)
Definition BadRequest (message code : string) (details : option Details) : ApiError :=
  mkApiError 400 message code details.
Definition Unauthorized (message code : string) (details : option Details) : ApiError :=
  mkApiError 401 message code details.
Definition MethodNotAllowed (message code : string) (details : option Details)
  : ApiError :=
  mkApiError 405 message code details.
Definition TooManyRequests (message code : string) (details : option Details)
  : ApiError :=
  mkApiError 429 message code details.
Definition ServiceUnavailable (message code : string) (details : option Details)
  : ApiError :=
  mkApiError 503 message code details.

(** What a [catch] block can receive: an [ApiError], or any other error
    with its message. *)
Inductive Thrown : Type :=
| Operational (e : ApiError)
| Unexpected (message : string).

End ErrorHandler.

(** ** api/v1/chat/[model].js: the handler *)

Module Handler.
Import ErrorHandler.

(** What the handler reads of the request. [body] is [None] when
    [req.body] is [undefined]. *)
Record Request : Type := mkRequest {
  method : string;
  queryModel : option string;
  body : option Chat.ChatBody;
  authorization : option string;
  origin : option string
}.

(** What [supabase.rpc('validate_api_key', ...)] settles to: an error, an
    exception, or rows (none when [data] is [null] or empty); a row is
    given under the names [validateApiKey] gives its columns. *)
Inductive RpcOutcome : Type :=
| RpcError (message : string)
| RpcThrew
| RpcData (rows : list Supabase.Validation).

(** [validateApiKey(apiKey)]: [inl error] is [{ isValid: false, error }]. *)
Definition validateApiKey (rpc : string → RpcOutcome) (apiKey : string)
  : string + Supabase.Validation :=
  match rpc apiKey with
  | RpcError message => inl message
  | RpcThrew => inl "Database error"
  | RpcData [] => inl "API key not found"
  | RpcData (result :: _) => inr result
  end.

(** A call of [supabase.rpc('update_api_usage', ...)] by [updateApiUsage];
    the cost (a floating-point product) and the response time (a difference
    of clock readings) are not kept. *)
Record UsageCall : Type := mkUsageCall {
  usageApiKey : string;
  usageEndpoint : string;
  usageModel : string;
  tokensInput : Z;
  tokensOutput : Z;
  usageStatus : Z;
  usageError : option string
}.

(** What the handler shares with other requests: the rate limiter's client,
    the credential pool, and the usage calls made so far. *)
Record World : Type := mkWorld {
  pgClient : option RateLimit.PgClient;
  pool : gmap string KeyRotation.KeyConfig;
  usageCalls : list UsageCall
}.

(** [await updateApiUsage(...)]: the call is made, its result is not used. *)
Definition updateApiUsage (call : UsageCall) (w : World) : World :=
  mkWorld (pgClient w) (pool w) (usageCalls w ++ [call]).

Inductive ResponseBody : Type :=
| NoBody
| CompletionBody (model : string) (content : option string)
    (prompt_tokens completion_tokens total_tokens : Z)
| ErrorBody (message code : string) (details : option Details).

Record Response : Type := mkResponse {
  status : Z;
  headers : gmap string string;
  responseBody : ResponseBody
}.

(** The variables of the handler that its [catch] block reads. *)
Record Vars : Type := mkVars {
  userApiKey : option string;
  model : option string;
  inputTokens : Z
}.

(** A string used as a condition. *)
Definition nonEmpty (s : option string) : bool :=
  match s with
  | Some s => negb (bool_decide (s = ""))
  | None => false
  end.

(** White space of [trim] among the code units below 256. *)
Definition isSpace (c : ascii) : bool :=
  let n := nat_of_ascii c in
  (Nat.leb 9 n && Nat.leb n 13) || Nat.eqb n 32 || Nat.eqb n 160.

(** [s.trim().length === 0] *)
Fixpoint isBlank (s : string) : bool :=
  match s with
  | EmptyString => true
  | String c rest => isSpace c && isBlank rest
  end.

(** [s.substring(n)] *)
Fixpoint substringFrom (n : nat) (s : string) : string :=
  match n, s with
  | O, _ => s
  | S n', String _ rest => substringFrom n' rest
  | S _, EmptyString => EmptyString
  end.

(** The checks on the model parameter. *)
Definition modelError (queryModel : option string) : option ApiError :=
  match queryModel with
  | None => Some (BadRequest "Model parameter is required" "MISSING_MODEL" (Some Literal))
  | Some m =>
      if bool_decide (m = "")
      then Some (BadRequest "Model parameter is required" "MISSING_MODEL" (Some Literal))
      else if negb (bool_decide (m ∈ Chat.VALID_MODELS))
      then Some (BadRequest ("Invalid model: " +:+ m) "INVALID_MODEL" (Some Literal))
      else None
  end.

(** The loop over the messages, from index [i]. *)
Fixpoint messagesError (i : nat) (msgs : list Chat.Message) : option ApiError :=
  match msgs with
  | [] => None
  | msg :: rest =>
      if bool_decide (Chat.role msg = "") || bool_decide (Chat.content msg = "")
      then Some (BadRequest ("Message at index " +:+ pretty i
                             +:+ " must have 'role' and 'content' fields")
                            "INVALID_MESSAGE_FORMAT" (Some Literal))
      else if negb (bool_decide (Chat.role msg ∈ ["system"; "user"; "assistant"]))
      then Some (BadRequest ("Invalid role '" +:+ Chat.role msg
                             +:+ "' at message index " +:+ pretty i)
                            "INVALID_MESSAGE_ROLE" (Some Literal))
      else messagesError (S i) rest
  end.

(** The checks on the fields of the body, for a body whose fields have
    the types of [ChatBody]: [messages] is an array of objects with string
    fields, [temperature] and [max_tokens] are numbers. On such a body the
    checks [MISSING_MESSAGES] and [INVALID_MESSAGES_TYPE] and the [typeof]
    tests pass; they stand before the checks below and throw a
    [BadRequest] as these do. *)
Definition bodyError (b : Chat.ChatBody) : option ApiError :=
  if Nat.eqb (length (Chat.messages b)) 0
  then Some (BadRequest "Messages array cannot be empty" "EMPTY_MESSAGES_ARRAY" None)
  else match messagesError 0 (Chat.messages b) with
       | Some e => Some e
       | None =>
           if negb (Qle_bool 0 (Chat.temperature b))
              || negb (Qle_bool (Chat.temperature b) 2)
           then Some (BadRequest "Temperature must be a number between 0 and 2"
                                 "INVALID_TEMPERATURE" (Some Literal))
           else if negb (Qle_bool 1 (Chat.max_tokens b))
                   || negb (Qle_bool (Chat.max_tokens b) (8192 # 1))
           then Some (BadRequest "max_tokens must be a number between 1 and 8192"
                                 "INVALID_MAX_TOKENS" (Some Literal))
           else if Chat.stream b
           then Some (BadRequest "Streaming is not currently supported"
                                 "STREAMING_NOT_SUPPORTED" None)
           else None
       end.

(** [estimateTokens(response.content)] in the handler: [text.length] throws
    a [TypeError] ([inl]) when the content is [null] (for a message without
    any [content] the error names [undefined] instead). *)
Definition estimateContent (content : option string) : string + Z :=
  match content with
  | Some text => inr (Supabase.estimateTokens text)
  | None => inl "Cannot read properties of null (reading 'length')"
  end.

(** [response.usage?.completion_tokens || estimateTokens(response.content)] *)
Definition outputTokensOf (usage : option Z) (content : option string) : string + Z :=
  match usage with
  | Some n => if RateLimit.truthy n then inr n else estimateContent content
  | None => estimateContent content
  end.

(** [s || fallback] *)
Definition orElse (s fallback : string) : string :=
  if bool_decide (s = "") then fallback else s.

(** The [try] block: what it returns or throws, the variables at that
    point, and the world it leaves. The clock is read once ([now]). *)
Definition tryBlock (rpc : string → RpcOutcome) (upstream : Chat.Upstream)
    (prompts : Chat.Prompts) (now : Z) (req : Request) (w : World)
  : (Thrown + (Z * ResponseBody)) * Vars * World :=
  let v0 := mkVars None None 0 in
  if bool_decide (method req = "OPTIONS") then (inr (200, NoBody), v0, w)
  else if negb (bool_decide (method req = "POST")) then
    (inl (Operational (MethodNotAllowed "Only POST method is allowed for chat endpoints"
                         "METHOD_NOT_ALLOWED" None)), v0, w)
  else
    let v1 := mkVars None (queryModel req) 0 in
    match modelError (queryModel req), queryModel req with
    | Some e, _ => (inl (Operational e), v1, w)
    | None, None => (inl (Operational (BadRequest "Model parameter is required"
                                         "MISSING_MODEL" (Some Literal))), v1, w)
    | None, Some m =>
        match body req with
        | None =>
            (inl (Unexpected
                    "Cannot destructure property 'messages' of 'req.body' as it is undefined."),
             v1, w)
        | Some b =>
            match bodyError b with
            | Some e => (inl (Operational e), v1, w)
            | None =>
                if negb (nonEmpty (authorization req))
                   || negb (Chat.startsWith (default "" (authorization req)) "Bearer ")
                then
                  (inl (Operational
                          (Unauthorized "Authorization header with Bearer token is required"
                             "MISSING_AUTH_TOKEN" (Some Literal))), v1, w)
                else
                  let key := substringFrom 7 (default "" (authorization req)) in
                  let v2 := mkVars (Some key) (Some m) 0 in
                  if bool_decide (key = "") || isBlank key then
                    (inl (Operational (Unauthorized "API key cannot be empty"
                                         "EMPTY_API_KEY" None)), v2, w)
                  else
                    let tokens := Chat.inputTokens prompts m (Chat.messages b) in
                    let v3 := mkVars (Some key) (Some m) tokens in
                    match validateApiKey rpc key with
                    | inl error =>
                        (inl (Operational (Unauthorized (orElse error "Invalid API key")
                                             "INVALID_API_KEY" (Some Literal))), v3, w)
                    | inr validation =>
                        if negb (Supabase.isValid validation) then
                          (inl (Operational (Unauthorized "Invalid API key"
                                               "INVALID_API_KEY" (Some Literal))), v3, w)
                        else
                          let '(gate, pg') :=
                            Supabase.checkRateLimits (pgClient w) now validation tokens in
                          let w1 := mkWorld pg' (pool w) (usageCalls w) in
                          if negb (Supabase.allowed gate) then
                            (inl (Operational
                                    (TooManyRequests
                                       (orElse (default "" (Supabase.message gate))
                                               "Rate limit exceeded")
                                       "RATE_LIMIT_EXCEEDED"
                                       (LimitDetails <$> Supabase.details gate))), v3, w1)
                          else
                            match Chat.makeApiCallWithRetry upstream m (pool w1) with
                            | None =>
                                (inl (Unexpected "the retry loop did not return"), v3, w1)
                            | Some (Chat.Success content usage _, pool', _) =>
                                let w2 := mkWorld pg' (KeyRotation.resetFailureCount pool' m)
                                            (usageCalls w) in
                                match outputTokensOf usage content with
                                | inl typeError => (inl (Unexpected typeError), v3, w2)
                                | inr outputTokens =>
                                    let w3 :=
                                      updateApiUsage
                                        (mkUsageCall key ("/api/v1/chat/" +:+ m) m tokens
                                           outputTokens 200 None) w2 in
                                    (inr (200, CompletionBody m content tokens outputTokens
                                                 (tokens + outputTokens)), v3, w3)
                                end
                            | Some (Chat.Failure error details statusCode, pool', _) =>
                                let w2 := mkWorld pg' pool' (usageCalls w) in
                                let w3 :=
                                  updateApiUsage
                                    (mkUsageCall key ("/api/v1/chat/" +:+ m) m tokens 0
                                       (if RateLimit.truthy statusCode then statusCode
                                        else 500)
                                       (Some error)) w2 in
                                (inl (Operational
                                        (ServiceUnavailable
                                           (orElse error
                                              ("Service temporarily unavailable for model "
                                               +:+ m))
                                           "API_CALL_FAILED"
                                           (Some (UpstreamDetails details)))), v3, w3)
                            end
                    end
            end
        end
    end.

(** The usage call of the [catch] block, made when [userApiKey && model]. *)
Definition recordFailure (v : Vars) (statusCode : Z) (message : string) (w : World)
  : World :=
  if nonEmpty (userApiKey v) && nonEmpty (model v) then
    updateApiUsage
      (mkUsageCall (default "" (userApiKey v))
         ("/api/v1/chat/" +:+ default "" (model v)) (default "" (model v))
         (inputTokens v) 0 statusCode (Some message)) w
  else w.

(** The handler of the chat endpoint: [isProduction] is
    [process.env.NODE_ENV === 'production']; the response starts from no
    header. *)
Definition chatHandler (isProduction : bool) (rpc : string → RpcOutcome)
    (upstream : Chat.Upstream) (prompts : Chat.Prompts) (now : Z)
    (req : Request) (w : World) : Response * World :=
  let cors := Middleware.setCorsHeaders isProduction (origin req) ∅ in
  match tryBlock rpc upstream prompts now req w with
  | (inr (status, body), _, w') => (mkResponse status cors body, w')
  | (inl (Operational e), v, w') =>
      (mkResponse (statusCode e) cors (ErrorBody (message e) (code e) (details e)),
       recordFailure v (statusCode e) (message e) w')
  | (inl (Unexpected msg), v, w') =>
      (mkResponse 500 cors
         (ErrorBody "An unexpected error occurred" "INTERNAL_SERVER_ERROR"
            (if isProduction then None else Some (DetailText msg))),
       recordFailure v 500 msg w')
  end.

(** The code of an error body. *)
Definition errorCodeOf (r : Response) : option string :=
  match responseBody r with
  | ErrorBody _ code _ => Some code
  | _ => None
  end.

End Handler.

(** ** Concrete configurations, stores, accounts and upstream failures *)

Module Scenario.

(** Three credentials for orzion-pro, an empty variable for orzion-turbo,
    nothing for orzion-mini. *)
Definition env3 : KeyRotation.Env := λ name,
  if decide (name = "ORZION_PRO_API_KEY_1") then Some "sk-a"
  else if decide (name = "ORZION_PRO_API_KEY_2") then Some "sk-b"
  else if decide (name = "ORZION_PRO_API_KEY_3") then Some "sk-c"
  else if decide (name = "ORZION_TURBO_API_KEY_1") then Some ""
  else None.

Definition someKeys : gmap string KeyRotation.KeyConfig :=
  KeyRotation.API_KEY_CONFIG env3.

(** A connected client on an empty table, with the given faults to come. *)
Definition emptyStore (fl : list (option string)) : RateLimit.PgClient :=
  RateLimit.mkPgClient ∅ None fl [].

(** Four token-counting calls inside the minute that starts at 300000. *)
Definition burstCalls : list (Z * Z) :=
  [(300000, 4); (300500, 6); (359999, 1); (301000, 0)].

(** Three calls inside one minute whose counts pass the INTEGER range at
    the second call. *)
Definition overflowingCalls : list (Z * Z) :=
  [(300000, 2147483647); (300500, 1); (301000, 1)].

(** A call over the limit of 10 followed by a negative increment. *)
Definition refundCalls : list (Z * Z) := [(300000, 11); (300500, -5)].

(** A client whose third statement fails. *)
Definition flakyStore : RateLimit.PgClient :=
  emptyStore [None; None; Some "Connection terminated unexpectedly"].

(** A table with two counters of past windows and one of the window that
    ends at 420000. *)
Definition staleStore : RateLimit.PgClient :=
  RateLimit.mkPgClient
    (<["ratelimit:user:u1:tokens_per_minute:4" := RateLimit.mkRow 9 300000]>
     (<["ratelimit:user:u1:tokens_per_minute:5" := RateLimit.mkRow 11 360000]>
      (<["ratelimit:user:u1:tokens_per_minute:6" := RateLimit.mkRow 3 420000]> ∅)))
    None [] [].

Definition account (lims : RateLimit.Limits) (today : Z) : Supabase.Validation :=
  {| Supabase.isValid := true; Supabase.userId := "u1"; Supabase.apiKeyId := "k1";
     Supabase.plan := "free"; Supabase.limits := lims;
     Supabase.usage := Supabase.mkUsage today 0 |}.

Definition tooManyRequests : Chat.ApiError :=
  {| Chat.response := Some (Chat.mkErrorResponse 429 (Some "Provider returned error"));
     Chat.errMessage := "Request failed with status code 429";
     Chat.code := Some "ERR_BAD_REQUEST" |}.


Definition sampleBody : Chat.ChatBody :=
  {| Chat.messages := [Chat.mkMessage "system" "Be brief."; Chat.mkMessage "user" "hi"];
     Chat.temperature := 7 # 10; Chat.max_tokens := 2048 # 1; Chat.stream := false |}.

Definition samplePrompts : Chat.Prompts :=
  Chat.mkPrompts "You are **Orzion**." "You are **Orzion Turbo**."
                 "You are **Orzion Mini**.".

(** A POST for orzion-pro with a well-formed body and a bearer key. *)
Definition chatRequest : Handler.Request :=
  {| Handler.method := "POST"; Handler.queryModel := Some "orzion-pro";
     Handler.body := Some sampleBody;
     Handler.authorization := Some "Bearer orz_live_1";
     Handler.origin := Some "https://orzion.pages.dev" |}.

(** The key service: one key of an account with the given limits. *)
Definition oneKey (lims : RateLimit.Limits) : string → Handler.RpcOutcome := λ apiKey,
  if decide (apiKey = "orz_live_1") then Handler.RpcData [account lims 0]
  else Handler.RpcData [].

(** An upstream that answers every call, and one that refuses every call. *)
Definition answering : Chat.Upstream := λ _ _,
  Chat.Resolved (Chat.mkCompletion (Some "Hello.") (Some 2)).

Definition overloaded : Chat.Upstream := λ _ _, Chat.Rejected tooManyRequests.

(** A connected store without rows, the pool of [env3], no usage yet. *)
Definition freshWorld : Handler.World :=
  Handler.mkWorld (Some (emptyStore [])) someKeys [].

End Scenario.

(** * Properties *)

(** ** The credential pool *)

Module KeyRotationFacts.
Import KeyRotation Scenario.



Lemma length_eqb_0 {A} (l : list A) : Nat.eqb (length l) 0 = bool_decide (l = []).
Proof. destruct l; reflexivity. Qed.

Lemma rotate_lookup cfg model reason config :
  cfg !! model = Some config → keys config ≠ [] →
  rotateApiKey cfg model reason !! model =
    Some (mkKeyConfig (modelId config) (keys config)
            ((currentIndex config + 1) `mod` length (keys config))
            (S (failureCount config))).
Proof.
  intros Hcfg Hne. unfold rotateApiKey. rewrite Hcfg, length_eqb_0.
  rewrite bool_decide_eq_false_2 by assumption.
  apply lookup_insert_eq.
Qed.

Lemma rotate_lookup_ne cfg model reason model' :
  model ≠ model' → rotateApiKey cfg model reason !! model' = cfg !! model'.
Proof.
  intros Hne. unfold rotateApiKey.
  destruct (cfg !! model) as [config|]; [|reflexivity].
  destruct (Nat.eqb _ _); [reflexivity|]. by apply lookup_insert_ne.
Qed.

Lemma rotate_no_keys cfg model reason :
  credentials cfg model = [] → rotateApiKey cfg model reason = cfg.
Proof.
  unfold credentials, rotateApiKey.
  destruct (cfg !! model) as [config|]; simpl; [|reflexivity].
  intros ->. reflexivity.
Qed.

Lemma reset_lookup cfg model config :
  cfg !! model = Some config →
  resetFailureCount cfg model !! model =
    Some (mkKeyConfig (modelId config) (keys config) (currentIndex config) 0).
Proof.
  intros Hcfg. unfold resetFailureCount. rewrite Hcfg. apply lookup_insert_eq.
Qed.

Lemma reset_lookup_ne cfg model model' :
  model ≠ model' → resetFailureCount cfg model !! model' = cfg !! model'.
Proof.
  intros Hne. unfold resetFailureCount.
  destruct (cfg !! model) as [config|]; [|reflexivity]. by apply lookup_insert_ne.
Qed.

(** [k] rotations move the index [k] places round the list. *)
Lemma rotateTimes_lookup k cfg model reason config :
  cfg !! model = Some config → keys config ≠ [] →
  rotateTimes k model reason cfg !! model =
    Some (mkKeyConfig (modelId config) (keys config)
            (if k is O then currentIndex config
             else (currentIndex config + k) `mod` length (keys config))
            (failureCount config + k)).
Proof.
  intros Hcfg Hne. induction k as [|k IH].
  - simpl. rewrite Hcfg, Nat.add_0_r. by destruct config.
  - unfold rotateTimes in *. simpl.
    erewrite rotate_lookup by (exact IH || exact Hne). simpl.
    f_equal. f_equal; [|lia].
    assert (length (keys config) ≠ 0)%nat by (destruct (keys config); simpl; congruence).
    destruct k as [|k]; [f_equal; lia|].
    rewrite Nat.Div0.add_mod_idemp_l. f_equal. lia.
Qed.

Lemma allKeysFailed_spec cfg model config :
  cfg !! model = Some config → keys config ≠ [] →
  allKeysFailed cfg model = true ↔ (length (keys config) ≤ failureCount config)%nat.
Proof.
  intros Hcfg Hne. unfold allKeysFailed. rewrite Hcfg, length_eqb_0.
  rewrite bool_decide_eq_false_2 by assumption. apply Nat.leb_le.
Qed.

(** The two mutators keep the invariant. *)
Lemma rotate_indexInRange cfg model reason :
  indexInRange cfg → indexInRange (rotateApiKey cfg model reason).
Proof.
  intros Hinv model' config' Hlook Hne.
  destruct (decide (model = model')) as [<-|Hdiff].
  - destruct (cfg !! model) as [config|] eqn:Hcfg.
    + destruct (decide (keys config = [])) as [Hnil|Hkeys].
      * rewrite rotate_no_keys in Hlook by (unfold credentials; by rewrite Hcfg).
        eapply Hinv; eauto.
      * rewrite (rotate_lookup _ _ _ _ Hcfg Hkeys) in Hlook.
        injection Hlook as <-. simpl in *.
        apply Nat.mod_upper_bound. destruct (keys config); simpl; congruence.
    + rewrite rotate_no_keys in Hlook by (unfold credentials; by rewrite Hcfg).
      congruence.
  - rewrite rotate_lookup_ne in Hlook by assumption. eapply Hinv; eauto.
Qed.

Lemma reset_indexInRange cfg model :
  indexInRange cfg → indexInRange (resetFailureCount cfg model).
Proof.
  intros Hinv model' config' Hlook Hne.
  destruct (decide (model = model')) as [<-|Hdiff].
  - destruct (cfg !! model) as [config|] eqn:Hcfg.
    + rewrite (reset_lookup _ _ _ Hcfg) in Hlook. injection Hlook as <-.
      simpl in *. eapply Hinv; eauto.
    + unfold resetFailureCount in Hlook. rewrite Hcfg in Hlook. congruence.
  - rewrite reset_lookup_ne in Hlook by assumption. eapply Hinv; eauto.
Qed.

Lemma initial_indexInRange env : indexInRange (API_KEY_CONFIG env).
Proof.
  intros model config Hlook Hne. unfold API_KEY_CONFIG in Hlook.
  repeat (apply lookup_insert_Some in Hlook as [[_ <-]|[_ Hlook]];
          [unfold entry in *; cbn [keys currentIndex] in *;
           destruct (configuredKeys _ _); simpl; [congruence|lia]|]).
  by rewrite lookup_empty in Hlook.
Qed.

Lemma runOp_indexInRange op cfg :
  indexInRange cfg → indexInRange (fst (runOp op cfg)).
Proof.
  destruct op; simpl; auto using rotate_indexInRange, reset_indexInRange.
Qed.

Lemma runOps_indexInRange ops cfg :
  indexInRange cfg → indexInRange (runOps ops cfg).
Proof.
  revert cfg. induction ops as [|op ops IH]; intros cfg Hinv; [exact Hinv|].
  unfold runOps in *. simpl. apply IH. by apply runOp_indexInRange.
Qed.

(** C3. With [N ≥ 1] credentials, one [rotateApiKey] moves the index to
    the next one modulo [N] and adds one failure; from index 0, [N]
    rotations come back to index 0; [allKeysFailed] holds exactly when the
    failure count has reached [N]; [resetFailureCount] zeroes the failure
    count, keeps the index, and makes [allKeysFailed] false. *)
Theorem rotation_cycle (cfg : gmap string KeyConfig) (model reason : string)
    (config : KeyConfig) :
  cfg !! model = Some config →
  (1 ≤ length (keys config))%nat →
  let N := length (keys config) in
  (rotateApiKey cfg model reason !! model =
     Some (mkKeyConfig (modelId config) (keys config)
             ((currentIndex config + 1) `mod` N) (failureCount config + 1)))
  ∧ (currentIndex config = 0%nat →
     rotateTimes N model reason cfg !! model =
       Some (mkKeyConfig (modelId config) (keys config) 0 (failureCount config + N)))
  ∧ (allKeysFailed cfg model = true ↔ (N ≤ failureCount config)%nat)
  ∧ (resetFailureCount cfg model !! model =
       Some (mkKeyConfig (modelId config) (keys config) (currentIndex config) 0))
  ∧ allKeysFailed (resetFailureCount cfg model) model = false.
Proof.
  intros Hcfg HN N.
  assert (Hne : keys config ≠ []) by (destruct (keys config); simpl in *; [lia|congruence]).
  split; [|split; [|split; [|split]]].
  - rewrite (rotate_lookup _ _ _ _ Hcfg Hne). do 2 f_equal. lia.
  - intros H0. rewrite (rotateTimes_lookup _ _ _ _ _ Hcfg Hne). rewrite H0.
    subst N. destruct (length (keys config)) as [|n] eqn:Hlen; [lia|].
    do 2 f_equal. simpl (0 + S n)%nat. apply Nat.Div0.mod_same.
  - by apply allKeysFailed_spec.
  - by apply reset_lookup.
  - apply not_true_iff_false. intros Hall.
    eapply allKeysFailed_spec in Hall; [|by apply reset_lookup|exact Hne].
    simpl in Hall. lia.
Qed.

Lemma rotation_cycle_witness :
  rotateTimes 3 "orzion-pro" "rate_limit" someKeys !! "orzion-pro" =
    Some (mkKeyConfig "qwen/qwen-2.5-72b-instruct:free" ["sk-a"; "sk-b"; "sk-c"] 0 3)
  ∧ allKeysFailed (resetFailureCount someKeys "orzion-pro") "orzion-pro" = false.
Proof.
  pose proof (rotation_cycle someKeys "orzion-pro" "rate_limit"
    (mkKeyConfig "qwen/qwen-2.5-72b-instruct:free" ["sk-a"; "sk-b"; "sk-c"] 0 0)
    eq_refl (le_S _ _ (le_S _ _ (le_n 1)))) as H.
  simpl in H. destruct H as (_ & Hcycle & _ & _ & Hreset).
  split; [exact (Hcycle eq_refl) | exact Hreset].
Defined.

(** C7. From the configuration the module starts with, whatever
    operations of the module are called and in whatever order, every model
    with a non-empty credential list has its current index below the size
    of the list; and every operation other than [rotateApiKey] and
    [resetFailureCount] leaves the whole pool state as it was. *)
Theorem index_in_range_invariant :
  (∀ (env : Env) (ops : list PoolOp), indexInRange (runOps ops (API_KEY_CONFIG env)))
  ∧ (∀ (op : PoolOp) (cfg : gmap string KeyConfig),
       isMutator op = true ∨ fst (runOp op cfg) = cfg).
Proof.
  split.
  - intros env ops. apply runOps_indexInRange, initial_indexInRange.
  - intros [] cfg; simpl; auto.
Qed.

(** On the own entries and the names that are not found: without
    credentials, [rotateApiKey] returns the pool it was given and
    [allKeysFailed] answers true. *)
Lemma own_rotate_without_keys (cfg : gmap string KeyConfig) (model reason : string) :
  credentials cfg model = [] →
  rotateApiKey cfg model reason = cfg ∧ allKeysFailed cfg model = true.
Proof.
  intros Hnone. split; [by apply rotate_no_keys|].
  unfold credentials in Hnone. unfold allKeysFailed.
  destruct (cfg !! model) as [config|]; simpl in *; [|reflexivity].
  by rewrite Hnone.
Qed.

End KeyRotationFacts.

(** ** The rate limiter *)

Module RateLimitFacts.
Import RateLimit Scenario.




Local Arguments total : simpl never.
Local Arguments storedCount : simpl never.

Lemma total_cons (x : Z) (l : list Z) : total (x :: l) = x + total l.
Proof. reflexivity. Qed.

Lemma healthy_tail (fl : list (option string)) :
  Forall (λ f, f = None) fl → Forall (λ f, f = None) (tail fl).
Proof. destruct fl; simpl; [done|]. by inversion 1. Qed.

Ltac healthy :=
  unfold noFaults in *; simpl; repeat apply healthy_tail; assumption.

Lemma query_noFaults q pg :
  noFaults pg →
  query q pg =
    match execute q (table pg) (snapshot pg) with
    | inl msg => (inl msg, mkPgClient (table pg) (snapshot pg) (tail (faults pg)) (log pg ++ [q]))
    | inr (rows, tbl, snap) =>
        (inr rows, mkPgClient tbl snap (tail (faults pg)) (log pg ++ [q]))
    end.
Proof.
  unfold noFaults, query. destruct (faults pg) as [|[msg|] fl]; [done| |done].
  inversion 1; congruence.
Qed.


Lemma transaction_counts pg key lim windowMs increment now :
  0 < windowMs →
  windowOk pg (dbKeyOf key (now `div` windowMs)) ((now `div` windowMs + 1) * windowMs) →
  ∃ pg',
    transaction key lim windowMs increment now pg =
      (inr {| allowed := storedCount pg (dbKeyOf key (now `div` windowMs)) + increment <=? lim;
              count := storedCount pg (dbKeyOf key (now `div` windowMs)) + increment;
              remaining := Z.max 0 (lim - (storedCount pg (dbKeyOf key (now `div` windowMs)) + increment));
              resetTime := Some ((now `div` windowMs + 1) * windowMs);
              limit := Some lim;
              error := None |}, pg')
    ∧ windowOk pg' (dbKeyOf key (now `div` windowMs)) ((now `div` windowMs + 1) * windowMs)
    ∧ storedCount pg' (dbKeyOf key (now `div` windowMs)) =
        storedCount pg (dbKeyOf key (now `div` windowMs)) + increment.
Proof.
  intros Hpos [Hnf Hrow].
  set (w := now `div` windowMs) in *. set (dbKey := dbKeyOf key w) in *.
  assert (Hnow : now < (w + 1) * windowMs).
  { subst w. pose proof (Z.mod_pos_bound now windowMs Hpos).
    pose proof (Z.div_mod now windowMs). lia. }
  unfold transaction, bind, tryCatch. fold w. fold dbKey.
  rewrite (query_noFaults _ _ Hnf). simpl.
  rewrite query_noFaults by healthy. simpl.
  rewrite query_noFaults by healthy. simpl.
  destruct (table pg !! dbKey) as [r|] eqn:Hlook.
  - assert (Hkeep : filter (λ kv : string * Row, now ≤ reset_time kv.2) (table pg) !! dbKey
                    = Some r).
    { apply map_lookup_filter_Some. split; [done|]. simpl. rewrite (Hrow r eq_refl). lia. }
    rewrite Hkeep. cbv beta iota. rewrite query_noFaults by healthy. simpl.
    rewrite query_noFaults by healthy. simpl.
    eexists. split; [|split].
    + unfold ret, storedCount. rewrite Hlook. reflexivity.
    + split; [healthy|]. simpl. intros r'. rewrite lookup_alter_eq, Hkeep. simpl.
      intros [= <-]. simpl. auto.
    + unfold storedCount. simpl. rewrite lookup_alter_eq, Hkeep, Hlook. reflexivity.
  - assert (Hgone : filter (λ kv : string * Row, now ≤ reset_time kv.2) (table pg) !! dbKey
                    = None).
    { apply map_lookup_filter_None. left. done. }
    rewrite Hgone. cbv beta iota. rewrite query_noFaults by healthy. simpl. rewrite Hgone.
    simpl. rewrite query_noFaults by healthy. simpl.
    eexists. split; [|split].
    + unfold ret, storedCount. rewrite Hlook. reflexivity.
    + split; [healthy|]. simpl. intros r'. rewrite lookup_insert_eq.
      intros [= <-]. reflexivity.
    + unfold storedCount. simpl. rewrite lookup_insert_eq, Hlook. reflexivity.
Qed.

Lemma checkRateLimit_counts pg key lim windowMs increment now :
  lim ≠ -1 → 0 < windowMs →
  windowOk pg (dbKeyOf key (now `div` windowMs)) ((now `div` windowMs + 1) * windowMs) →
  ∃ r pg',
    checkRateLimit (Some pg) now key lim windowMs increment = (r, Some pg')
    ∧ count r = storedCount pg (dbKeyOf key (now `div` windowMs)) + increment
    ∧ allowed r = (count r <=? lim)
    ∧ remaining r = Z.max 0 (lim - count r)
    ∧ error r = None
    ∧ windowOk pg' (dbKeyOf key (now `div` windowMs)) ((now `div` windowMs + 1) * windowMs)
    ∧ storedCount pg' (dbKeyOf key (now `div` windowMs)) = count r.
Proof.
  intros Hlim Hpos Hok.
  destruct (transaction_counts pg key lim windowMs increment now Hpos Hok)
    as (pg' & Htx & Hok' & Hcount).
  unfold checkRateLimit. rewrite decide_False by assumption. rewrite Htx.
  eexists _, pg'. repeat split; try reflexivity; try apply Hok'. exact Hcount.
Qed.

Lemma checkSequence_counts key lim windowMs w calls :
  lim ≠ -1 → 0 < windowMs →
  Forall (λ call : Z * Z, call.1 `div` windowMs = w) calls →
  ∀ pg, windowOk pg (dbKeyOf key w) ((w + 1) * windowMs) →
  let results := (checkSequence (Some pg) key lim windowMs calls).1 in
  length results = length calls
  ∧ ∀ i r, results !! i = Some r →
      count r = storedCount pg (dbKeyOf key w) + total (take (S i) calls.*2)
      ∧ allowed r = (count r <=? lim)
      ∧ remaining r = Z.max 0 (lim - count r)
      ∧ error r = None.
Proof.
  intros Hlim Hpos. induction 1 as [|[now increment] calls Hw _ IH]; intros pg Hok.
  - simpl. split; [reflexivity|]. intros i r. by rewrite lookup_nil.
  - simpl in Hw. subst w. cbn [checkSequence].
    destruct (checkRateLimit_counts pg key lim windowMs increment now Hlim Hpos Hok)
      as (r0 & pg' & -> & Hc & Ha & Hr & He & Hok' & Hstored).
    specialize (IH pg' Hok').
    destruct (checkSequence (Some pg') key lim windowMs calls) as [rs pg2].
    simpl in *. destruct IH as [Hlen IH]. split; [by rewrite Hlen|].
    intros [|i] r Hr0; simpl in Hr0.
    + injection Hr0 as <-.
      change (take 1 ((now, increment) :: calls).*2) with (increment :: take 0 calls.*2).
      rewrite total_cons, take_0. change (total []) with 0.
      repeat split; auto; lia.
    + destruct (IH i r Hr0) as (Hci & Hrest). split; [|exact Hrest].
      rewrite Hci, Hstored, Hc.
      change (take (S (S i)) ((now, increment) :: calls).*2)
        with (increment :: take (S i) calls.*2).
      rewrite total_cons, Z.add_assoc. reflexivity.
Qed.

Lemma total_take_mono (l : list Z) (i j : nat) :
  Forall (λ x, 0 ≤ x) l → (i ≤ j)%nat → total (take i l) ≤ total (take j l).
Proof.
  intros Hl. revert i j. induction Hl as [|x l Hx _ IH]; intros i j Hij.
  - by rewrite !take_nil.
  - destruct i as [|i]; destruct j as [|j]; simpl;
      rewrite ?total_cons; change (total []) with 0; try lia.
    + assert (total (take 0 l) ≤ total (take j l)) by (apply IH; lia).
      rewrite take_0 in *. change (total []) with 0 in *. lia.
    + assert (total (take i l) ≤ total (take j l)) by (apply IH; lia). lia.
Qed.

(** A denial is never the result of a storage error. *)
Lemma denial_is_counted pgClient now key lim windowMs increment :
  let r := (checkRateLimit pgClient now key lim windowMs increment).1 in
  allowed r = false → error r = None ∧ lim < count r.
Proof.
  unfold checkRateLimit. destruct pgClient as [pg|]; simpl; [|done].
  destruct (decide (lim = -1)); simpl; [done|].
  destruct (transaction key lim windowMs increment now pg) as [[msg|r] pg'] eqn:Htx;
    simpl; [done|].
  unfold transaction, bind, tryCatch in Htx.
  repeat match type of Htx with
         | context [query ?q ?p] =>
             destruct (query q p) as [[?|?] ?]; simpl in Htx; try discriminate
         | context [match ?l with [] => _ | _ :: _ => _ end] =>
             destruct l; simpl in Htx
         end;
    injection Htx as <- <-; simpl; intros Hle; (split; [reflexivity|lia]).
Qed.


Lemma faulty_fails pg now key lim windowMs increment :
  lim ≠ -1 → faulty pg →
  let r := (checkRateLimit (Some pg) now key lim windowMs increment).1 in
  allowed r = true ∧ count r = 0 ∧ ∃ m, error r = Some m ∧ Some m ∈ faults pg.
Proof.
  intros Hlim (i & msg & Hi & Hfault).
  unfold checkRateLimit. rewrite decide_False by assumption.
  destruct pg as [tbl snap fl lg]. simpl in Hfault.
  unfold transaction, bind, tryCatch, query. simpl.
  repeat match goal with
         | |- context [match ?l with [] => _ | _ :: _ => _ end] =>
             is_var l; destruct l as [|[?|] ?]; simpl
         | |- context [match ?t !! ?k with Some _ => _ | None => _ end] =>
             destruct (t !! k) eqn:?; simpl
         end;
    try (split; [reflexivity|split; [reflexivity|
           eexists; split; [reflexivity|
             repeat first [apply list_elem_of_here | apply list_elem_of_further]]]]);
    exfalso; do 5 (destruct i as [|i]; [discriminate Hfault|]); simpl in Hfault; lia.
Qed.

Lemma runChecks_denials pgClient now userId cs :
  Forall (λ r, allowed r = false → error r = None)
         (runChecks pgClient now userId cs).1.
Proof.
  revert pgClient. induction cs as [|c cs IH]; intros pgClient; simpl; [constructor|].
  pose proof (denial_is_counted pgClient now (dimensionKey userId (dimension c))
                (checkLimit c) (checkWindowMs c) (checkIncrement c)) as Hden.
  destruct (checkRateLimit pgClient now _ _ _ _) as [r pg1]. specialize (IH pg1).
  destruct (runChecks pg1 now userId cs) as [rs pg2]. simpl in *.
  constructor; [|exact IH]. intros Hr. by destruct (Hden Hr).
Qed.


Lemma fitting_call_meets_no_refusal (tbl : gmap string Row) (key : string)
    (windowMs increment now : Z) :
  0 < windowMs →
  (∀ r, tbl !! dbKeyOf key (now `div` windowMs) = Some r →
        reset_time r = (now `div` windowMs + 1) * windowMs) →
  (String.length (dbKeyOf key (now `div` windowMs)) ≤ 255)%nat →
  fitsBigint ((now `div` windowMs + 1) * windowMs) = true →
  fitsInteger (default 0 (row_count <$> tbl !! dbKeyOf key (now `div` windowMs))
               + increment) = true →
  refusals tbl key windowMs increment now = [None; None; None; None; None].
Proof.
  intros Hpos Hrow Hkey Hreset Hcount. unfold refusals, statementsOf.
  set (w := now `div` windowMs) in *. set (dbKey := dbKeyOf key w) in *.
  assert (Hnow : now < (w + 1) * windowMs).
  { subst w. pose proof (Z.mod_pos_bound now windowMs Hpos).
    pose proof (Z.div_mod now windowMs). lia. }
  destruct (tbl !! dbKey) as [r|] eqn:Hlook.
  - assert (Hkeep : filter (λ kv : string * Row, now ≤ reset_time kv.2) tbl !! dbKey
                    = Some r).
    { apply map_lookup_filter_Some. split; [done|]. simpl. rewrite (Hrow r eq_refl). lia. }
    rewrite Hkeep. rewrite bool_decide_eq_true_2 by eauto.
    simpl in *. by rewrite Hcount.
  - assert (Hgone : filter (λ kv : string * Row, now ≤ reset_time kv.2) tbl !! dbKey
                    = None).
    { apply map_lookup_filter_None. by left. }
    rewrite Hgone. rewrite bool_decide_eq_false_2 by (by intros [? ?]).
    simpl in *. rewrite Z.add_0_l in Hcount. rewrite Hcount, Hreset. simpl.
    by rewrite (proj2 (Nat.ltb_ge _ _) Hkey).
Qed.

(** While the counts fit the column, the typed store counts as the
    healthy one. *)
Lemma checkSequenceTyped_counts key lim windowMs w calls :
  lim ≠ -1 → 0 < windowMs →
  Forall (λ call : Z * Z, call.1 `div` windowMs = w) calls →
  (String.length (dbKeyOf key w) ≤ 255)%nat →
  fitsBigint ((w + 1) * windowMs) = true →
  ∀ pg,
  (∀ r, table pg !! dbKeyOf key w = Some r → reset_time r = (w + 1) * windowMs) →
  (∀ i, (i < length calls)%nat →
        fitsInteger (storedCount pg (dbKeyOf key w) + total (take (S i) calls.*2)) = true) →
  let results := (checkSequenceTyped pg key lim windowMs calls).1 in
  length results = length calls
  ∧ ∀ i r, results !! i = Some r →
      count r = storedCount pg (dbKeyOf key w) + total (take (S i) calls.*2)
      ∧ allowed r = (count r <=? lim)
      ∧ remaining r = Z.max 0 (lim - count r)
      ∧ error r = None.
Proof.
  intros Hlim Hpos Hwin Hkey Hreset.
  induction Hwin as [|[now increment] calls Hw _ IH]; intros pg Hrow Hfit.
  - simpl. split; [reflexivity|]. intros i r. by rewrite lookup_nil.
  - simpl in Hw. subst w. cbn [checkSequenceTyped].
    set (typed := mkPgClient _ _ _ _).
    assert (Hfaults : faults typed = [None; None; None; None; None]).
    { apply fitting_call_meets_no_refusal; try assumption.
      specialize (Hfit 0%nat ltac:(simpl; lia)).
      change (take 1 ((now, increment) :: calls).*2) with [increment] in Hfit.
      rewrite total_cons in Hfit. change (total []) with 0 in Hfit.
      rewrite Z.add_0_r in Hfit. exact Hfit. }
    assert (Hok : windowOk typed (dbKeyOf key (now `div` windowMs))
                    ((now `div` windowMs + 1) * windowMs)).
    { split; [|exact Hrow]. unfold noFaults. rewrite Hfaults. repeat constructor. }
    destruct (checkRateLimit_counts typed key lim windowMs increment now Hlim Hpos Hok)
      as (r0 & pg' & -> & Hc & Ha & Hr & He & [_ Hrow'] & Hstored).
    assert (Hsame : storedCount typed (dbKeyOf key (now `div` windowMs))
                    = storedCount pg (dbKeyOf key (now `div` windowMs))) by reflexivity.
    specialize (IH pg' Hrow').
    destruct (checkSequenceTyped pg' key lim windowMs calls) as [rs pg2].
    simpl in IH. destruct IH as [Hlen IH].
    { intros i Hi. specialize (Hfit (S i) ltac:(simpl; lia)).
      change (take (S (S i)) ((now, increment) :: calls).*2)
        with (increment :: take (S i) calls.*2) in Hfit.
      rewrite total_cons in Hfit. rewrite Hstored, Hc, Hsame.
      by rewrite <- Z.add_assoc. }
    simpl. split; [by rewrite Hlen|].
    intros [|i] r Hr0; simpl in Hr0.
    + injection Hr0 as <-.
      change (take 1 ((now, increment) :: calls).*2) with (increment :: take 0 calls.*2).
      rewrite total_cons, take_0. change (total []) with 0.
      rewrite <- Hsame. repeat split; auto; lia.
    + destruct (IH i r Hr0) as (Hci & Hrest). split; [|exact Hrest].
      rewrite Hci, Hstored, Hc, Hsame.
      change (take (S (S i)) ((now, increment) :: calls).*2)
        with (increment :: take (S i) calls.*2).
      rewrite total_cons, Z.add_assoc. reflexivity.
Qed.

(** C1. With a limit other than -1, a store that refuses what its columns
    do not take and nothing else, a window that has no counter yet, and
    increments whose cumulative sums fit the INTEGER column (the key and
    the reset time fit theirs): when the increments are applied one call
    after the other with clock readings of one window, every call reports
    the cumulative sum as its count, is allowed exactly when that sum is at
    most the limit, and reports max(0, limit − count) as remaining; with
    increments that are not negative, once a cumulative sum is above the
    limit every later call of the window is denied. *)
Theorem sliding_window_limit (pg : PgClient) (key : string) (lim windowMs w : Z)
    (calls : list (Z * Z)) :
  lim ≠ -1 → 0 < windowMs →
  table pg !! dbKeyOf key w = None →
  Forall (λ call : Z * Z, call.1 `div` windowMs = w) calls →
  (String.length (dbKeyOf key w) ≤ 255)%nat →
  fitsBigint ((w + 1) * windowMs) = true →
  (∀ i, (i < length calls)%nat → fitsInteger (total (take (S i) calls.*2)) = true) →
  let results := (checkSequenceTyped pg key lim windowMs calls).1 in
  let cumulative (i : nat) := total (take (S i) calls.*2) in
  length results = length calls
  ∧ (∀ i r, results !! i = Some r →
       count r = cumulative i
       ∧ (allowed r = true ↔ cumulative i ≤ lim)
       ∧ remaining r = Z.max 0 (lim - count r))
  ∧ (Forall (λ call : Z * Z, 0 ≤ call.2) calls →
     ∀ i j rj, (i ≤ j)%nat → lim < cumulative i →
       results !! j = Some rj → allowed rj = false).
Proof.
  intros Hlim Hpos Hfresh Hwin Hkey Hreset Hfit results cumulative.
  assert (H0 : storedCount pg (dbKeyOf key w) = 0)
    by (unfold storedCount; by rewrite Hfresh).
  destruct (checkSequenceTyped_counts key lim windowMs w calls Hlim Hpos Hwin Hkey Hreset pg)
    as [Hlen Hres].
  { intros r. rewrite Hfresh. discriminate. }
  { intros i Hi. rewrite H0, Z.add_0_l. by apply Hfit. }
  rewrite H0 in Hres.
  split; [exact Hlen|split].
  - intros i r Hr. destruct (Hres i r Hr) as (Hc & Ha & Hrem & _).
    rewrite Z.add_0_l in Hc. fold (cumulative i) in Hc.
    split; [exact Hc|split; [|exact Hrem]].
    rewrite Ha, Hc. apply Z.leb_le.
  - intros Hnn i j rj Hij Hover Hrj.
    destruct (Hres j rj Hrj) as (Hc & Ha & _).
    rewrite Ha, Hc. apply Z.leb_gt.
    assert (total (take (S i) calls.*2) ≤ total (take (S j) calls.*2)).
    { apply total_take_mono; [|lia]. apply Forall_fmap. exact Hnn. }
    subst cumulative. simpl in Hover. lia.
Qed.

Lemma sliding_window_limit_witness :
  length (checkSequenceTyped (emptyStore []) "user:u1:tokens_per_minute"
            10 60000 burstCalls).1 = length burstCalls
  ∧ (∀ i r,
       (checkSequenceTyped (emptyStore []) "user:u1:tokens_per_minute"
          10 60000 burstCalls).1 !! i = Some r →
       count r = total (take (S i) burstCalls.*2)
       ∧ (allowed r = true ↔ total (take (S i) burstCalls.*2) ≤ 10)
       ∧ remaining r = Z.max 0 (10 - count r))
  ∧ (Forall (λ call : Z * Z, 0 ≤ call.2) burstCalls →
     ∀ i j rj, (i ≤ j)%nat → 10 < total (take (S i) burstCalls.*2) →
       (checkSequenceTyped (emptyStore []) "user:u1:tokens_per_minute"
          10 60000 burstCalls).1 !! j = Some rj →
       allowed rj = false).
Proof.
  apply (sliding_window_limit (emptyStore []) "user:u1:tokens_per_minute" 10 60000 5
           burstCalls).
  - lia.
  - lia.
  - reflexivity.
  - repeat constructor.
  - vm_compute. lia.
  - reflexivity.
  - intros [|[|[|[|i]]]] Hi; reflexivity.
Defined.

(** C1, where it fails. The first call takes the counter to the largest
    INTEGER; the second would take it past it: its cumulative count is above
    the limit, yet the store refuses the new count and the call fails open.
    And after a call that took the count above the limit, a negative
    increment brings it back under it: the later call is allowed. *)
Lemma sliding_window_limit_counterexample :
  (∃ r,
     (checkSequenceTyped (emptyStore []) "user:u1:tokens_per_minute" 10 60000
        overflowingCalls).1 !! 1%nat = Some r
     ∧ 10 < total (take 2 overflowingCalls.*2)
     ∧ allowed r = true
     ∧ count r = 0
     ∧ error r = Some (outOfRange 2147483648 "integer"))
  ∧ (∃ r,
       (checkSequenceTyped (emptyStore []) "user:u1:tokens_per_minute" 10 60000
          refundCalls).1 !! 1%nat = Some r
       ∧ 10 < total (take 1 refundCalls.*2)
       ∧ allowed r = true
       ∧ count r = 6).
Proof.
  split.
  - eexists. split; [vm_compute; reflexivity|].
    split; [vm_compute; reflexivity|]. by repeat split.
  - eexists. split; [vm_compute; reflexivity|].
    split; [vm_compute; reflexivity|]. by split.
Qed.

(** The burst on a concrete store: what each call reports, and the
    statements two calls of one window send. *)
Example burst_results :
  map (λ r, (allowed r, count r, remaining r))
      (checkSequence (Some (emptyStore [])) "user:u1:tokens_per_minute"
         10 60000 burstCalls).1
  = [(true, 4, 6); (true, 10, 0); (false, 11, 0); (false, 11, 0)].
Proof. vm_compute. reflexivity. Qed.

Example statements_sent :
  log <$> (checkSequence (Some (emptyStore [])) "k" 10 60000
             [(300000, 4); (300001, 1)]).2
  = Some [Begin; DeleteExpired 300000; SelectCount "ratelimit:k:5";
          Insert "ratelimit:k:5" 4 360000; Commit;
          Begin; DeleteExpired 300001; SelectCount "ratelimit:k:5";
          UpdateCount 5 "ratelimit:k:5"; Commit].
Proof. vm_compute. reflexivity. Qed.

(** A failed statement is rolled back and the call is allowed. *)
Example flaky_call :
  checkRateLimit (Some flakyStore) 1700000000000 "k" 100 86400000 1
  = ({| allowed := true; count := 0; remaining := 100;
        resetTime := Some 1700086400000; limit := None;
        error := Some "Connection terminated unexpectedly" |},
     Some (mkPgClient ∅ None []
             [Begin; DeleteExpired 1700000000000; SelectCount "ratelimit:k:19675";
              Rollback])).
Proof. vm_compute. reflexivity. Qed.

(** C5. Without a client the call is allowed; when one of the statements
    of the call is scheduled to fail, the call is allowed and its result
    carries the message of a failed statement; a denial never comes with
    an error, it always reports a count above the limit. A rejected
    [Promise.all] makes the aggregate allowed with the message, and an
    aggregate that denies does so on a check that did not fail. *)
Theorem fail_open :
  (∀ now key lim windowMs increment,
     allowed (checkRateLimit None now key lim windowMs increment).1 = true)
  ∧ (∀ pg now key lim windowMs increment,
       lim ≠ -1 → faulty pg →
       let r := (checkRateLimit (Some pg) now key lim windowMs increment).1 in
       allowed r = true ∧ ∃ m, error r = Some m ∧ Some m ∈ faults pg)
  ∧ (∀ pgClient now key lim windowMs increment,
       let r := (checkRateLimit pgClient now key lim windowMs increment).1 in
       allowed r = false → error r = None ∧ lim < count r)
  ∧ (∀ limits msg,
       userAllowed (settle limits (inl msg)) = true
       ∧ userError (settle limits (inl msg)) = Some msg)
  ∧ (∀ pgClient now userId apiKeyId limits tokenIncrement,
       let u := (checkUserRateLimits pgClient now userId apiKeyId limits
                   tokenIncrement).1 in
       userAllowed u = false →
       ∃ r, details u = Some r ∧ allowed r = false ∧ error r = None).
Proof.
  split; [reflexivity|]. split; [|split; [|split]].
  - intros pg now key lim windowMs increment Hlim Hfaulty.
    destruct (faulty_fails pg now key lim windowMs increment Hlim Hfaulty)
      as (Ha & _ & Hm). by split.
  - apply denial_is_counted.
  - intros limits msg. by split.
  - intros pgClient now userId apiKeyId limits t. unfold checkUserRateLimits.
    pose proof (runChecks_denials pgClient now userId (plannedChecks limits t)) as Hall.
    destruct (runChecks pgClient now userId (plannedChecks limits t)) as [results pg'].
    simpl in *.
    destruct (List.find _ results) as [r|] eqn:Hfind; simpl; [|discriminate].
    intros _. apply find_some in Hfind as [Hin Hneg].
    apply negb_true_iff in Hneg. exists r. repeat split; [exact Hneg|].
    rewrite Forall_forall in Hall. apply Hall; [|exact Hneg].
    by apply list_elem_of_In.
Qed.

Lemma fail_open_witness :
  allowed (checkRateLimit (Some flakyStore) 1700000000000 "user:u1:daily_requests"
             100 86400000 1).1 = true
  ∧ ∃ m, error (checkRateLimit (Some flakyStore) 1700000000000
                  "user:u1:daily_requests" 100 86400000 1).1 = Some m
         ∧ Some m ∈ faults flakyStore.
Proof.
  apply (proj1 (proj2 fail_open) flakyStore 1700000000000 "user:u1:daily_requests"
           100 86400000 1).
  - lia.
  - exists 2%nat, "Connection terminated unexpectedly". split; [lia|reflexivity].
Defined.

(** C6. With limit -1 the call is allowed with count 0 and remaining -1,
    and the client comes back as it was given: same table, same open
    transaction, same pending faults, and no statement added to the log. *)
Theorem unlimited_untouched (pgClient : option PgClient) (now : Z) (key : string)
    (windowMs increment : Z) :
  let r := (checkRateLimit pgClient now key (-1) windowMs increment).1 in
  allowed r = true ∧ count r = 0 ∧ remaining r = -1
  ∧ (checkRateLimit pgClient now key (-1) windowMs increment).2 = pgClient.
Proof.
  destruct pgClient as [pg|]; simpl; repeat split.
Qed.

End RateLimitFacts.

(** ** The quota gate *)

Module SupabaseFacts.
Import RateLimit Scenario.

Lemma limits_eta (l : Limits) :
  mkLimits (requestsPerSecond l) (dailyRequests l) (tokensPerMinute l) = l.
Proof. by destruct l. Qed.

(** The gate in terms of the limiter's verdict. *)
Lemma checkRateLimits_unfold pgClient now v est :
  let u := checkUserRateLimits pgClient now (Supabase.userId v) (Supabase.apiKeyId v)
             (Supabase.limits v) est in
  (Supabase.checkRateLimits pgClient now v est).2 = u.2
  ∧ (userAllowed u.1 = false →
     Supabase.allowed (Supabase.checkRateLimits pgClient now v est).1 = false
     ∧ Supabase.reason (Supabase.checkRateLimits pgClient now v est).1 = reason u.1
     ∧ Supabase.details (Supabase.checkRateLimits pgClient now v est).1 = details u.1)
  ∧ (userAllowed u.1 = true →
     dailyRequests (Supabase.limits v) ≠ -1 →
     dailyRequests (Supabase.limits v) ≤ Supabase.requestsToday (Supabase.usage v) →
     Supabase.allowed (Supabase.checkRateLimits pgClient now v est).1 = false
     ∧ Supabase.reason (Supabase.checkRateLimits pgClient now v est).1
       = Some "daily_requests_exceeded_db")
  ∧ (userAllowed u.1 = true →
     (dailyRequests (Supabase.limits v) = -1
      ∨ Supabase.requestsToday (Supabase.usage v) < dailyRequests (Supabase.limits v)) →
     Supabase.allowed (Supabase.checkRateLimits pgClient now v est).1 = true).
Proof.
  unfold Supabase.checkRateLimits. rewrite limits_eta.
  destruct (checkUserRateLimits _ _ _ _ _ _) as [u pg']. simpl.
  split; [|split; [|split]].
  - destruct (userAllowed u); simpl; [|reflexivity].
    by destruct (_ && _).
  - intros ->. simpl. auto.
  - intros -> Hne Hle. simpl.
    rewrite (proj2 (Z.eqb_neq _ _) Hne), (proj2 (Z.leb_le _ _) Hle). simpl. auto.
  - intros -> Hor. simpl.
    destruct Hor as [->|Hlt]; [reflexivity|].
    rewrite (proj2 (Z.leb_gt _ _) Hlt). by rewrite andb_false_r.
Qed.


(** C4. When the daily limit is not -1 and the recorded requests of the
    day have reached it, the gate denies; and when the rate limiter itself
    allowed the request, the reason given is daily_requests_exceeded_db. *)
Theorem daily_usage_backup (pgClient : option PgClient) (now : Z)
    (v : Supabase.Validation) (estimatedTokens : Z) :
  dailyRequests (Supabase.limits v) ≠ -1 →
  dailyRequests (Supabase.limits v) ≤ Supabase.requestsToday (Supabase.usage v) →
  let res := (Supabase.checkRateLimits pgClient now v estimatedTokens).1 in
  let u := (checkUserRateLimits pgClient now (Supabase.userId v) (Supabase.apiKeyId v)
              (Supabase.limits v) estimatedTokens).1 in
  Supabase.allowed res = false
  ∧ (userAllowed u = true → Supabase.reason res = Some "daily_requests_exceeded_db").
Proof.
  intros Hne Hle res u.
  destruct (checkRateLimits_unfold pgClient now v estimatedTokens)
    as (_ & Hdenied & Hbackup & _).
  fold u in Hdenied, Hbackup. fold res in Hdenied, Hbackup.
  destruct (userAllowed u) eqn:Hu.
  - destruct (Hbackup eq_refl Hne Hle). by split.
  - destruct (Hdenied eq_refl) as (Ha & _). split; [exact Ha|discriminate].
Qed.

Lemma daily_usage_backup_witness :
  Supabase.allowed
    (Supabase.checkRateLimits (Some (emptyStore [])) 1700000000000
       (account (mkLimits 10 100 (-1)) 100) 25).1 = false
  ∧ (userAllowed
       (checkUserRateLimits (Some (emptyStore [])) 1700000000000 "u1" "k1"
          (mkLimits 10 100 (-1)) 25).1 = true →
     Supabase.reason
       (Supabase.checkRateLimits (Some (emptyStore [])) 1700000000000
          (account (mkLimits 10 100 (-1)) 100) 25).1
     = Some "daily_requests_exceeded_db").
Proof.
  apply (daily_usage_backup (Some (emptyStore [])) 1700000000000
           (account (mkLimits 10 100 (-1)) 100) 25).
  - simpl. lia.
  - simpl. lia.
Defined.

Lemma plannedChecks_rps0 d tpm t :
  plannedChecks (mkLimits 0 d tpm) t = plannedChecks (mkLimits (-1) d tpm) t.
Proof. reflexivity. Qed.

Lemma plannedChecks_tpm0 rps d t :
  plannedChecks (mkLimits rps d 0) t = plannedChecks (mkLimits rps d (-1)) t.
Proof.
  unfold plannedChecks. simpl. reflexivity.
Qed.

(** C9. A requests-per-second or tokens-per-minute limit of 0 pushes no
    check for its dimension, and the limiter then decides and leaves the
    store exactly as it does when that limit is -1; no tokens-per-minute
    check is pushed either when the token increment is 0 (or less). A
    daily limit of 0 with a recorded usage that is not negative makes the
    gate deny. *)
Theorem zero_limits :
  (∀ limits t, requestsPerSecond limits = 0 →
     RequestsPerSecond ∉ (dimension <$> plannedChecks limits t))
  ∧ (∀ limits t, tokensPerMinute limits = 0 ∨ t ≤ 0 →
       TokensPerMinute ∉ (dimension <$> plannedChecks limits t))
  ∧ (∀ pgClient now userId apiKeyId d tpm t,
       let zero := checkUserRateLimits pgClient now userId apiKeyId (mkLimits 0 d tpm) t in
       let unlimited :=
         checkUserRateLimits pgClient now userId apiKeyId (mkLimits (-1) d tpm) t in
       userAllowed zero.1 = userAllowed unlimited.1
       ∧ details zero.1 = details unlimited.1 ∧ zero.2 = unlimited.2)
  ∧ (∀ pgClient now userId apiKeyId rps d t,
       let zero := checkUserRateLimits pgClient now userId apiKeyId (mkLimits rps d 0) t in
       let unlimited :=
         checkUserRateLimits pgClient now userId apiKeyId (mkLimits rps d (-1)) t in
       userAllowed zero.1 = userAllowed unlimited.1
       ∧ details zero.1 = details unlimited.1 ∧ zero.2 = unlimited.2)
  ∧ (∀ pgClient now v estimatedTokens,
       dailyRequests (Supabase.limits v) = 0 →
       0 ≤ Supabase.requestsToday (Supabase.usage v) →
       Supabase.allowed (Supabase.checkRateLimits pgClient now v estimatedTokens).1
         = false
       ∧ (userAllowed
            (checkUserRateLimits pgClient now (Supabase.userId v)
               (Supabase.apiKeyId v) (Supabase.limits v) estimatedTokens).1 = true →
          Supabase.reason (Supabase.checkRateLimits pgClient now v estimatedTokens).1
            = Some "daily_requests_exceeded_db")).
Proof.
  split; [|split; [|split; [|split]]].
  - intros [rps d tpm] t. simpl. intros ->. unfold plannedChecks. simpl.
    repeat (destruct (_ && _); simpl);
      rewrite ?not_elem_of_cons; repeat split; try discriminate; apply not_elem_of_nil.
  - intros [rps d tpm] t. simpl. intros Hz. unfold plannedChecks. simpl.
    assert (truthy tpm && negb (tpm =? -1) && (0 <? t) = false) as ->.
    { destruct Hz as [->|Ht]; [reflexivity|].
      rewrite (proj2 (Z.ltb_ge _ _) Ht). apply andb_false_r. }
    repeat (destruct (_ && _); simpl);
      rewrite ?not_elem_of_cons; repeat split; try discriminate; apply not_elem_of_nil.
  - intros. subst zero unlimited. unfold checkUserRateLimits.
    rewrite plannedChecks_rps0. destruct (runChecks _ _ _ _) as [rs pg']. simpl.
    by destruct (List.find _ rs).
  - intros. subst zero unlimited. unfold checkUserRateLimits.
    rewrite plannedChecks_tpm0. destruct (runChecks _ _ _ _) as [rs pg']. simpl.
    by destruct (List.find _ rs).
  - intros pgClient now v est Hzero Hnn.
    destruct (checkRateLimits_unfold pgClient now v est) as (_ & Hdenied & Hbackup & _).
    simpl in Hdenied, Hbackup. destruct (userAllowed _) eqn:Hu.
    + destruct Hbackup as [Ha Hr]; [reflexivity|lia|lia|]. by split.
    + destruct Hdenied as (Ha & _); [reflexivity|]. split; [exact Ha|discriminate].
Qed.

Lemma zero_limits_witness :
  (RequestsPerSecond ∉ (dimension <$> plannedChecks (mkLimits 0 0 0) 25))
  ∧ (TokensPerMinute ∉ (dimension <$> plannedChecks (mkLimits 5 100 60000) 0))
  ∧ Supabase.allowed
      (Supabase.checkRateLimits (Some (emptyStore [])) 1700000000000
         (account (mkLimits 0 0 0) 0) 25).1 = false.
Proof.
  destruct zero_limits as (Hrps & Htpm & _ & _ & Hdaily).
  split; [|split; [|apply Hdaily; simpl; lia]].
  - apply (Hrps (mkLimits 0 0 0) 25). reflexivity.
  - apply (Htpm (mkLimits 5 100 60000) 0). right. lia.
Defined.

End SupabaseFacts.

(** ** The chat handler and the retry dispatcher *)

Module ChatFacts.
Import Chat Scenario.

Local Arguments RateLimit.total : simpl never.


Lemma length_append (a b : string) :
  String.length (a +:+ b) = (String.length a + String.length b)%nat.
Proof. induction a as [|c a IH]; simpl; [reflexivity|]. by rewrite IH. Qed.













(** The loop is left before the fuel is used up. *)
Lemma retryLoop_returns fuel upstream model cfg retryCount lastError trace :
  (MAX_RETRIES - retryCount < fuel)%nat →
  is_Some (retryLoop fuel upstream model cfg retryCount lastError trace).
Proof.
  revert cfg retryCount lastError trace.
  induction fuel as [|fuel IH]; intros cfg retryCount lastError trace Hfuel; [lia|].
  cbn [retryLoop]. destruct (Nat.ltb_spec retryCount MAX_RETRIES) as [Hlt|_]; [|eauto].
  destruct (attempt upstream cfg model retryCount) as [e|result]; [|eauto].
  destruct (shouldRotate e && Nat.ltb (S retryCount) MAX_RETRIES); [|eauto].
  apply IH. lia.
Qed.







(** A success at the second attempt, after one rotation. *)
Example second_attempt_succeeds :
  (λ out, (out.1.1, out.2)) <$>
    makeApiCallWithRetry
      (λ n _, if Nat.eqb n 0 then Rejected tooManyRequests
              else Resolved (mkCompletion (Some "hello") (Some 3)))
      "orzion-pro" someKeys
  = Some (Success (Some "hello") (Some 3) 2, [Rotated "rate_limit"; Waited 1000]).
Proof. vm_compute. reflexivity. Qed.

(** The keywords are found in any case, and the dispatcher's own errors
    end the request. *)
Example shouldRotate_keyword :
  shouldRotate (plainError "Daily QUOTA exhausted for this key") = true
  ∧ shouldRotate (plainError "Invalid response structure from OpenRouter API") = false
  ∧ shouldRotate (plainError "Cannot read properties of undefined (reading 'content')")
    = false.
Proof. by vm_compute. Qed.

Lemma estimateTokens_ceiling (text : string) :
  let len := Z.of_nat (String.length text) in
  4 * (Supabase.estimateTokens text - 1) < len ≤ 4 * Supabase.estimateTokens text.
Proof.
  intros len. unfold Supabase.estimateTokens. fold len.
  unfold Qceiling, Qfloor, Qopp. simpl.
  pose proof (Z.div_mod (- len) 4 ltac:(lia)).
  pose proof (Z.mod_pos_bound (- len) 4 ltac:(lia)). lia.
Qed.

Lemma length_concat (sep x : string) (l : list string) :
  Z.of_nat (String.length (String.concat sep (x :: l))) =
    Z.of_nat (String.length x)
    + RateLimit.total ((λ s, Z.of_nat (String.length s)) <$> l)
    + Z.of_nat (length l) * Z.of_nat (String.length sep).
Proof.
  revert x. induction l as [|y l IH]; intros x.
  - simpl. change (RateLimit.total []) with 0. lia.
  - change (String.concat sep (x :: y :: l))
      with (x +:+ sep +:+ String.concat sep (y :: l)).
    rewrite !length_append, !Nat2Z.inj_add, IH.
    rewrite fmap_cons, RateLimitFacts.total_cons, length_cons, Nat2Z.inj_succ. nia.
Qed.

Lemma valid_model_prompt (p : Prompts) (model : string) :
  model ∈ VALID_MODELS → SYSTEM_PROMPTS p !! model = Some (promptOf p model).
Proof.
  unfold VALID_MODELS. rewrite !elem_of_cons, elem_of_nil.
  intros [->|[->|[->|[]]]]; reflexivity.
Qed.

Lemma validated_model model body :
  validateRequest (Some model) body = None →
  model ∈ VALID_MODELS ∧ messages body ≠ [].
Proof.
  unfold validateRequest. destruct (bool_decide (model = "")); [discriminate|].
  destruct (bool_decide (model ∈ VALID_MODELS)) eqn:Hmodel; simpl; [|discriminate].
  apply bool_decide_eq_true in Hmodel.
  destruct (messages body); simpl; [discriminate|]. by intros _.
Qed.


(** C8. For a request that passed the handler's checks, the input token
    estimate is the ceiling of a quarter of the length of the text made of
    the messages' contents joined with one space and followed by the
    system prompt of the requested model; that length is the sum of the
    lengths of the contents, one per separating space, and the length of
    the prompt. *)
Theorem input_tokens_ceiling (p : Prompts) (model : string) (body : ChatBody) :
  validateRequest (Some model) body = None →
  let contents := content <$> messages body in
  let text := String.concat " " contents +:+ promptOf p model in
  let len := Z.of_nat (String.length text) in
  let tokens := inputTokens p model (messages body) in
  SYSTEM_PROMPTS p !! model = Some (promptOf p model)
  ∧ 4 * (tokens - 1) < len ≤ 4 * tokens
  ∧ len = RateLimit.total ((λ s, Z.of_nat (String.length s)) <$> contents)
          + (Z.of_nat (length contents) - 1)
          + Z.of_nat (String.length (promptOf p model)).
Proof.
  intros Hvalid contents text len tokens.
  destruct (validated_model model body Hvalid) as [Hmodel Hmsgs].
  split; [by apply valid_model_prompt|]. split.
  - apply (estimateTokens_ceiling text).
  - subst len text. rewrite length_append, Nat2Z.inj_add.
    destruct contents as [|x rest] eqn:Hcontents.
    + subst contents. by destruct (messages body).
    + rewrite length_concat, fmap_cons, RateLimitFacts.total_cons, length_cons,
        Nat2Z.inj_succ.
      change (String.length " ") with 1%nat. lia.
Qed.

Lemma input_tokens_ceiling_witness :
  4 * (inputTokens samplePrompts "orzion-mini" (messages sampleBody) - 1) < 36
    ≤ 4 * inputTokens samplePrompts "orzion-mini" (messages sampleBody)
  ∧ inputTokens samplePrompts "orzion-mini" (messages sampleBody) = 9.
Proof.
  pose proof (input_tokens_ceiling samplePrompts "orzion-mini" sampleBody eq_refl) as H.
  simpl in H. destruct H as (_ & Hceil & _).
  split; [exact Hceil|reflexivity].
Defined.

End ChatFacts.

(** ** More on the credential pool *)

Module KeyRotationPoolFacts.
Import KeyRotation Scenario KeyRotationFacts.

Lemma rotate_keys cfg model reason model' :
  (rotateApiKey cfg model reason !! model') ≫= (λ c, Some (modelId c, keys c))
  = (cfg !! model') ≫= (λ c, Some (modelId c, keys c)).
Proof.
  destruct (decide (model = model')) as [<-|Hne].
  - destruct (cfg !! model) as [config|] eqn:Hcfg.
    + destruct (decide (keys config = [])) as [Hnil|Hkeys].
      * rewrite rotate_no_keys; [by rewrite Hcfg|]. unfold credentials. by rewrite Hcfg.
      * by rewrite (rotate_lookup _ _ _ _ Hcfg Hkeys).
    + rewrite rotate_no_keys; [by rewrite Hcfg|]. unfold credentials. by rewrite Hcfg.
  - by rewrite rotate_lookup_ne.
Qed.

Lemma reset_keys cfg model model' :
  (resetFailureCount cfg model !! model') ≫= (λ c, Some (modelId c, keys c))
  = (cfg !! model') ≫= (λ c, Some (modelId c, keys c)).
Proof.
  destruct (decide (model = model')) as [<-|Hne].
  - destruct (cfg !! model) as [config|] eqn:Hcfg.
    + by rewrite (reset_lookup _ _ _ Hcfg).
    + unfold resetFailureCount. by rewrite Hcfg, Hcfg.
  - by rewrite reset_lookup_ne.
Qed.

(** X1 (the configuration is fixed). Whatever operations are called, every
    model keeps its upstream model id and its list of credentials, and no
    model appears or disappears. *)
Theorem operations_keep_credentials (ops : list PoolOp) (cfg : gmap string KeyConfig)
    (model : string) :
  (runOps ops cfg !! model) ≫= (λ c, Some (modelId c, keys c))
  = (cfg !! model) ≫= (λ c, Some (modelId c, keys c)).
Proof.
  revert cfg. induction ops as [|op ops IH]; intros cfg; [reflexivity|].
  unfold runOps in *. simpl. rewrite IH.
  destruct op; simpl; auto using rotate_keys, reset_keys.
Qed.

Lemma credentials_runOps ops cfg model :
  credentials (runOps ops cfg) model = credentials cfg model.
Proof.
  pose proof (operations_keep_credentials ops cfg model) as H. unfold credentials.
  destruct (runOps ops cfg !! model), (cfg !! model); simpl in *; congruence.
Qed.

Lemma configuredKeys_spec env names k :
  k ∈ configuredKeys env names → k ≠ "" ∧ ∃ name, name ∈ names ∧ env name = Some k.
Proof.
  unfold configuredKeys. rewrite list_elem_of_omap. intros (name & Hname & Hk).
  destruct (env name) as [value|] eqn:Henv; [|discriminate].
  destruct (decide (value = "")); [discriminate|]. injection Hk as <-. eauto.
Qed.

Lemma configuredKeys_length env names :
  (length (configuredKeys env names) ≤ length names)%nat.
Proof.
  unfold configuredKeys. induction names as [|name names IH]; [simpl; lia|].
  cbn [omap list_omap]. destruct (env name) as [value|]; [destruct (decide (value = ""))|];
    cbn [length]; lia.
Qed.

Lemma initial_credentials_cases env model :
  credentials (API_KEY_CONFIG env) model = []
  ∨ ∃ names, length names = 3%nat
             ∧ credentials (API_KEY_CONFIG env) model = configuredKeys env names.
Proof.
  unfold credentials, API_KEY_CONFIG.
  destruct (decide (model = "orzion-pro")) as [->|Hpro];
    [|destruct (decide (model = "orzion-turbo")) as [->|Hturbo];
      [|destruct (decide (model = "orzion-mini")) as [->|Hmini]]].
  1-3: right; rewrite ?lookup_insert_eq, ?lookup_insert_ne by done;
       rewrite ?lookup_insert_eq; eexists [_; _; _]; split; reflexivity.
  left. by rewrite !lookup_insert_ne, lookup_empty by done.
Qed.

Lemma initial_credentials env model k :
  k ∈ credentials (API_KEY_CONFIG env) model →
  k ≠ "" ∧ ∃ name, env name = Some k.
Proof.
  destruct (initial_credentials_cases env model) as [->|(names & _ & ->)].
  - by intros ?%elem_of_nil.
  - intros Hk. apply configuredKeys_spec in Hk as (Hne & name & _ & Hname). eauto.
Qed.

Lemma initial_credentials_length env model :
  (length (credentials (API_KEY_CONFIG env) model) ≤ 3)%nat.
Proof.
  destruct (initial_credentials_cases env model) as [->|(names & Hlen & ->)].
  - simpl. lia.
  - rewrite <- Hlen. apply configuredKeys_length.
Qed.

(** On the own entries and the names that are not found: from the
    configuration read from any environment and after any operations,
    [getCurrentApiKey] throws exactly when the model has no credential, and
    otherwise returns a credential of the model's list at the reported
    index. *)
Lemma own_key_is_configured (env : Env) (ops : list PoolOp) (model : string) :
  match getCurrentApiKey (runOps ops (API_KEY_CONFIG env)) model with
  | inl _ => credentials (API_KEY_CONFIG env) model = []
  | inr info =>
      ∃ k, key info = Some k
           ∧ credentials (API_KEY_CONFIG env) model !! keyIndex info = Some k
           ∧ k ≠ "" ∧ (∃ name, env name = Some k)
           ∧ (keyIndex info < totalKeys info ≤ 3)%nat
  end.
Proof.
  pose proof (runOps_indexInRange ops _ (initial_indexInRange env)) as Hinv.
  pose proof (credentials_runOps ops (API_KEY_CONFIG env) model) as Hcred.
  pose proof (initial_credentials_length env model) as Hlen.
  unfold getCurrentApiKey. unfold credentials in Hcred at 1.
  destruct (runOps ops (API_KEY_CONFIG env) !! model) as [config|] eqn:Hcfg;
    simpl in Hcred; [|by rewrite <- Hcred].
  rewrite length_eqb_0. case_bool_decide as Hkeys; [by rewrite <- Hcred, Hkeys|].
  specialize (Hinv model config Hcfg Hkeys). simpl.
  destruct (lookup_lt_is_Some_2 (keys config) (currentIndex config) Hinv) as [k Hk].
  exists k. rewrite <- Hcred. split; [exact Hk|]. split; [exact Hk|].
  assert (Hin : k ∈ credentials (API_KEY_CONFIG env) model).
  { rewrite <- Hcred. by eapply list_elem_of_lookup_2. }
  destruct (initial_credentials env model k Hin) as [Hne Hname].
  repeat split; try assumption. by rewrite Hcred.
Qed.

Lemma current_after_rotations cfg model reason config k :
  cfg !! model = Some config → (currentIndex config < length (keys config))%nat →
  match getCurrentApiKey (rotateTimes k model reason cfg) model with
  | inr info => key info
  | inl _ => None
  end = keys config !! ((currentIndex config + k) `mod` length (keys config))%nat.
Proof.
  intros Hcfg Hlt.
  assert (Hne : keys config ≠ []) by (destruct (keys config); simpl in *; [lia|congruence]).
  unfold getCurrentApiKey. rewrite (rotateTimes_lookup k _ _ _ _ Hcfg Hne).
  cbn [keys currentIndex]. rewrite length_eqb_0, bool_decide_eq_false_2 by assumption.
  cbn [key]. destruct k as [|k]; [|reflexivity].
  by rewrite Nat.add_0_r, Nat.mod_small.
Qed.

(** X3 (every credential in turn). From an index inside the list, the
    credentials that N attempts get when each is followed by a rotation are
    the N credentials of the model, each once, in list order from the
    current one round to the one before it. *)
Theorem rotation_visits_every_key (cfg : gmap string KeyConfig) (model reason : string)
    (config : KeyConfig) :
  cfg !! model = Some config →
  (currentIndex config < length (keys config))%nat →
  (λ k, match getCurrentApiKey (rotateTimes k model reason cfg) model with
        | inr info => key info
        | inl _ => None
        end) <$> seq 0 (length (keys config))
  = Some <$> rotate (currentIndex config) (keys config).
Proof.
  intros Hcfg Hlt. apply list_eq. intros k. rewrite !list_lookup_fmap.
  destruct (decide (k < length (keys config))%nat) as [Hk|Hk].
  - rewrite lookup_seq_lt by assumption. simpl.
    rewrite (current_after_rotations _ _ _ _ _ Hcfg Hlt).
    rewrite lookup_rotate_r by assumption. unfold rotate_nat_add.
    rewrite <- Nat2Z.inj_add, <- Nat2Z.inj_mod, Nat2Z.id.
    destruct (lookup_lt_is_Some_2 (keys config)
                ((currentIndex config + k) `mod` length (keys config))%nat) as [x Hx].
    { apply Nat.mod_upper_bound. lia. }
    by rewrite Hx.
  - rewrite lookup_seq_ge by lia. simpl.
    rewrite lookup_ge_None_2; [reflexivity|]. rewrite length_rotate. lia.
Qed.

Lemma rotation_visits_every_key_witness :
  (λ k, match getCurrentApiKey
                (rotateTimes k "orzion-pro" "timeout"
                   (rotateApiKey someKeys "orzion-pro" "rate_limit")) "orzion-pro" with
        | inr info => key info
        | inl _ => None
        end) <$> seq 0 3
  = Some <$> rotate 1 ["sk-a"; "sk-b"; "sk-c"].
Proof.
  apply (rotation_visits_every_key (rotateApiKey someKeys "orzion-pro" "rate_limit")
           "orzion-pro" "timeout"
           (mkKeyConfig "qwen/qwen-2.5-72b-instruct:free" ["sk-a"; "sk-b"; "sk-c"] 1 1)).
  - reflexivity.
  - simpl. lia.
Defined.

Lemma runOp_other_model op cfg model :
  mutates op model = false → fst (runOp op cfg) !! model = cfg !! model.
Proof.
  destruct op; simpl; try reflexivity; intros Hm%bool_decide_eq_false.
  - by apply rotate_lookup_ne.
  - by apply reset_lookup_ne.
Qed.

(** X4 (models are independent). Reading operations, and rotations and
    resets of other models, leave the entry of a model as it was: index,
    failure count and all. *)
Theorem other_models_untouched (ops : list PoolOp) (cfg : gmap string KeyConfig)
    (model : string) :
  Forall (λ op, mutates op model = false) ops →
  runOps ops cfg !! model = cfg !! model.
Proof.
  intros Hops. revert cfg. induction Hops as [|op ops Hop _ IH]; intros cfg; [reflexivity|].
  unfold runOps in *. simpl. rewrite IH. by apply runOp_other_model.
Qed.

Lemma other_models_untouched_witness :
  runOps [OpRotateApiKey "orzion-turbo" "timeout"; OpGetAllRotationStats;
          OpResetFailureCount "orzion-mini"; OpGetCurrentApiKey "orzion-pro"]
         (rotateApiKey someKeys "orzion-pro" "rate_limit") !! "orzion-pro"
  = rotateApiKey someKeys "orzion-pro" "rate_limit" !! "orzion-pro".
Proof.
  apply (other_models_untouched
           [OpRotateApiKey "orzion-turbo" "timeout"; OpGetAllRotationStats;
            OpResetFailureCount "orzion-mini"; OpGetCurrentApiKey "orzion-pro"]
           (rotateApiKey someKeys "orzion-pro" "rate_limit") "orzion-pro").
  repeat constructor.
Defined.

(** The statistics of the own entries. *)
Lemma own_stats_cover_the_models (env : Env) (ops : list PoolOp) (model : string) :
  let cfg := runOps ops (API_KEY_CONFIG env) in
  (is_Some (getAllRotationStats cfg !! model)
   ↔ model ∈ ["orzion-pro"; "orzion-turbo"; "orzion-mini"])
  ∧ (∀ entry, getAllRotationStats cfg !! model = Some entry →
       entry = getRotationStats cfg model
       ∧ ∃ stats, entry = Some stats
           ∧ statsModel stats = model
           ∧ statsTotalKeys stats = length (credentials (API_KEY_CONFIG env) model)
           ∧ (statsTotalKeys stats ≤ 3)%nat
           ∧ (statsTotalKeys stats ≠ 0%nat →
              (currentKeyIndex stats < statsTotalKeys stats)%nat)
           ∧ (statsAllKeysFailed stats = true
              ↔ statsTotalKeys stats = 0%nat
                ∨ (statsTotalKeys stats ≤ statsFailureCount stats)%nat)).
Proof.
  intros cfg.
  pose proof (runOps_indexInRange ops _ (initial_indexInRange env)) as Hinv. fold cfg in Hinv.
  pose proof (credentials_runOps ops (API_KEY_CONFIG env) model) as Hcred. fold cfg in Hcred.
  pose proof (operations_keep_credentials ops (API_KEY_CONFIG env) model) as Hkeep.
  fold cfg in Hkeep.
  unfold getAllRotationStats. rewrite map_lookup_imap. split.
  - assert (is_Some (cfg !! model) ↔ is_Some (API_KEY_CONFIG env !! model)) as Hsome.
    { destruct (cfg !! model), (API_KEY_CONFIG env !! model); simpl in Hkeep;
        split; intros [? ?]; try discriminate; eauto. }
    destruct (cfg !! model) as [config|] eqn:Hcfg; simpl.
    + split; [intros _|eauto]. destruct (proj1 Hsome) as [c Hc]; [eauto|].
      unfold API_KEY_CONFIG in Hc.
      repeat (apply lookup_insert_Some in Hc as [[<- _]|[_ Hc]];
              [rewrite !elem_of_cons; auto|]).
      by rewrite lookup_empty in Hc.
    + split; [by intros [? ?]|]. intros Hin.
      assert (is_Some (API_KEY_CONFIG env !! model)) as Hinit.
      { unfold API_KEY_CONFIG. rewrite !elem_of_cons, elem_of_nil in Hin.
        destruct Hin as [->|[->|[->|[]]]]; eexists; reflexivity. }
      apply Hsome in Hinit. destruct Hinit as [? ?]. discriminate.
  - intros entry. destruct (cfg !! model) as [config|] eqn:Hcfg; simpl; [|discriminate].
    intros [= <-]. split; [reflexivity|].
    unfold getRotationStats. rewrite Hcfg. eexists. split; [reflexivity|].
    cbn [statsModel statsTotalKeys currentKeyIndex statsFailureCount statsAllKeysFailed].
    assert (Hk : keys config = credentials (API_KEY_CONFIG env) model).
    { rewrite <- Hcred. unfold credentials. by rewrite Hcfg. }
    pose proof (initial_credentials_length env model) as Hlen.
    split; [reflexivity|]. split; [by rewrite Hk|].
    split; [by rewrite Hk|]. split.
    + intros Hne. apply (Hinv model config Hcfg). destruct (keys config); simpl in *; congruence.
    + unfold allKeysFailed. rewrite Hcfg, length_eqb_0.
      case_bool_decide as Hkeys.
      * rewrite Hkeys. simpl. split; auto.
      * rewrite Nat.leb_le. split; [auto|]. intros [H0|Hle]; [|exact Hle].
        destruct (keys config); simpl in *; [congruence|lia].
Qed.

End KeyRotationPoolFacts.

(** ** The names the object inherits *)

Module PrototypeChainFacts.
Import KeyRotation Scenario KeyRotationFacts KeyRotationPoolFacts.
Import PrototypeChain (Pool, mkPool, entries, objectIndex, objectFailures, polluted,
                       find, initial, applyOp).

(** A lookup that finds no own entry leaves the own entries to the two
    mutators as they are. *)
Lemma find_not_entry p model :
  (∀ config, find p model ≠ PrototypeChain.FoundEntry config) →
  entries p !! model = None.
Proof.
  unfold find. destruct (entries p !! model) as [config|]; [|done].
  intros Hno. by destruct (Hno config).
Qed.

Lemma find_entry p model config :
  find p model = PrototypeChain.FoundEntry config ↔ entries p !! model = Some config.
Proof.
  unfold find. destruct (entries p !! model) as [c|].
  - split; by intros [= ->].
  - split; [|discriminate]. repeat case_match; discriminate.
Qed.

Lemma rotate_missing cfg model reason :
  cfg !! model = None → rotateApiKey cfg model reason = cfg.
Proof. intros H. unfold rotateApiKey. by rewrite H. Qed.

Lemma reset_missing cfg model :
  cfg !! model = None → resetFailureCount cfg model = cfg.
Proof. intros H. unfold resetFailureCount. by rewrite H. Qed.

Lemma entries_rotate p model reason :
  entries (PrototypeChain.rotateApiKey p model reason)
  = rotateApiKey (entries p) model reason.
Proof.
  unfold PrototypeChain.rotateApiKey.
  destruct (find p model) eqn:Hfind; try reflexivity. simpl.
  symmetry. apply rotate_missing, find_not_entry. intros config. by rewrite Hfind.
Qed.

Lemma entries_reset p model :
  entries (PrototypeChain.resetFailureCount p model)
  = resetFailureCount (entries p) model.
Proof.
  unfold PrototypeChain.resetFailureCount.
  destruct (find p model) eqn:Hfind; try reflexivity; simpl;
    symmetry; apply reset_missing, find_not_entry; intros config; by rewrite Hfind.
Qed.

(** The own entries go through the operations as module [KeyRotation]
    says, whatever names the operations are called with. *)
Lemma entries_runOps ops p :
  entries (PrototypeChain.runOps ops p) = runOps ops (entries p).
Proof.
  revert p. induction ops as [|op ops IH]; intros p; [reflexivity|].
  unfold PrototypeChain.runOps, runOps in *. simpl. rewrite IH. f_equal.
  destruct op; simpl; auto using entries_rotate, entries_reset.
Qed.

Lemma initial_models env model :
  is_Some (API_KEY_CONFIG env !! model)
  ↔ model ∈ ["orzion-pro"; "orzion-turbo"; "orzion-mini"].
Proof.
  unfold API_KEY_CONFIG. rewrite !elem_of_cons, elem_of_nil. split.
  - intros [c Hc].
    repeat (apply lookup_insert_Some in Hc as [[<- _]|[_ Hc]]; [auto|]).
    by rewrite lookup_empty in Hc.
  - intros [->|[->|[->|[]]]]; eexists; reflexivity.
Qed.

Lemma runOps_models env ops model :
  is_Some (runOps ops (API_KEY_CONFIG env) !! model)
  ↔ model ∈ ["orzion-pro"; "orzion-turbo"; "orzion-mini"].
Proof.
  rewrite <- (initial_models env).
  pose proof (operations_keep_credentials ops (API_KEY_CONFIG env) model) as Hkeep.
  destruct (runOps ops (API_KEY_CONFIG env) !! model) as [c|],
    (API_KEY_CONFIG env !! model) as [c'|]; simpl in Hkeep; try discriminate.
  - split; intros _; by eexists.
  - split; by intros [? ?].
Qed.

Lemma not_a_model env ops model :
  model ∉ ["orzion-pro"; "orzion-turbo"; "orzion-mini"] →
  runOps ops (API_KEY_CONFIG env) !! model = None.
Proof.
  intros Hno. apply eq_None_not_Some. by rewrite runOps_models.
Qed.

(** [Object.prototype.failureCount] is assigned by
    [resetFailureCount('__proto__')] and by nothing else. *)
Lemma polluted_applyOp op p :
  entries p !! "__proto__" = None →
  polluted (applyOp op p) = true
  ↔ polluted p = true ∨ op = OpResetFailureCount "__proto__".
Proof.
  intros Hproto. destruct op as [m|m r|m|m|m|]; simpl;
    try (split; [by left|by intros [?|[=]]]).
  - unfold PrototypeChain.rotateApiKey. destruct (find p m); simpl;
      (split; [by left|by intros [?|[=]]]).
  - destruct (decide (m = "__proto__")) as [->|Hne].
    + unfold PrototypeChain.resetFailureCount, find. rewrite Hproto. simpl.
      split; [by right|done].
    + assert (polluted (PrototypeChain.resetFailureCount p m) = polluted p) as ->.
      { unfold PrototypeChain.resetFailureCount, find.
        destruct (entries p !! m); [reflexivity|].
        rewrite (bool_decide_eq_false_2 (m = "__proto__")) by assumption.
        destruct (bool_decide (m = "constructor")); [reflexivity|].
        destruct (bool_decide (m ∈ PrototypeChain.prototypeMethods)); [reflexivity|].
        destruct (polluted p && bool_decide (m = "failureCount")); reflexivity. }
      split; [by left|]. intros [?|[= ?]]; [assumption|contradiction].
Qed.

Lemma polluted_runOps env ops :
  polluted (PrototypeChain.runOps ops (initial env)) = true
  ↔ OpResetFailureCount "__proto__" ∈ ops.
Proof.
  induction ops as [|op ops IH] using rev_ind.
  - simpl. split; [discriminate|by intros ?%elem_of_nil].
  - unfold PrototypeChain.runOps in *. rewrite foldl_app. simpl.
    rewrite polluted_applyOp.
    + rewrite IH, elem_of_app, list_elem_of_singleton.
      split; intros [?|?]; auto.
    + fold (PrototypeChain.runOps ops (initial env)). rewrite entries_runOps.
      apply not_a_model. rewrite !elem_of_cons, elem_of_nil.
      by intros [[=]|[[=]|[[=]|[]]]].
Qed.

Lemma find_object p model :
  find p model = PrototypeChain.FoundObject
  ↔ entries p !! model = None ∧ model = "constructor".
Proof.
  unfold find. destruct (entries p !! model) as [c|].
  - split; [discriminate|by intros [[=] _]].
  - case_bool_decide as Hc; [by split|].
    split; [|by intros [_ ?]]. repeat case_match; discriminate.
Qed.

(** Every name but [constructor] that has no credential is refused by the
    guard, as a name that is not found: the pool is left as it was and all
    keys count as failed. *)
Lemma rejected_without_keys p model reason :
  find p model ≠ PrototypeChain.FoundObject →
  credentials (entries p) model = [] →
  PrototypeChain.rotateApiKey p model reason = p
  ∧ PrototypeChain.allKeysFailed p model = true.
Proof.
  intros Hfind Hnone.
  destruct (own_rotate_without_keys (entries p) model reason Hnone) as [Hrot Hall].
  unfold PrototypeChain.rotateApiKey, PrototypeChain.allKeysFailed.
  destruct (find p model); try contradiction; rewrite Hrot, Hall; by destruct p.
Qed.

(** C10. The unknown model name [constructor]: [API_KEY_CONFIG] has no
    credential for it, yet the lookup finds the function [Object], whose
    [keys] has length 1, so the guard does not refuse it: [allKeysFailed]
    answers false and [rotateApiKey] writes an index and a failure count,
    both [NaN], on [Object]. *)
Theorem constructor_is_taken_for_a_model (env : Env) :
  credentials (API_KEY_CONFIG env) "constructor" = []
  ∧ PrototypeChain.allKeysFailed (initial env) "constructor" = false
  ∧ PrototypeChain.rotateApiKey (initial env) "constructor" "unknown"
    = mkPool (API_KEY_CONFIG env) PrototypeChain.NaN PrototypeChain.NaN false
  ∧ PrototypeChain.rotateApiKey (initial env) "constructor" "unknown" ≠ initial env.
Proof.
  assert (Hfind : find (initial env) "constructor" = PrototypeChain.FoundObject).
  { apply find_object. split; [|reflexivity].
    apply (not_a_model env []). rewrite !elem_of_cons, elem_of_nil.
    by intros [[=]|[[=]|[[=]|[]]]]. }
  split; [|split; [|split]].
  - unfold credentials. apply find_object in Hfind as [Hnone _].
    simpl in Hnone. by rewrite Hnone.
  - unfold PrototypeChain.allKeysFailed. by rewrite Hfind.
  - unfold PrototypeChain.rotateApiKey. by rewrite Hfind.
  - unfold PrototypeChain.rotateApiKey. rewrite Hfind. discriminate.
Qed.

(** X2 (the current credential). From the configuration read from any
    environment and after any operations, on any names: [getCurrentApiKey]
    throws exactly for the names other than [constructor] that have no
    credential; for [constructor] it returns a record without a key; and
    otherwise it returns a credential of the model's list at the reported
    index: a non-empty value of an environment variable, with an index
    below the reported total, which is at most 3. *)
Theorem current_key_is_configured (env : Env) (ops : list PoolOp) (model : string) :
  match PrototypeChain.getCurrentApiKey (PrototypeChain.runOps ops (initial env)) model
  with
  | PrototypeChain.Thrown _ =>
      model ≠ "constructor" ∧ credentials (API_KEY_CONFIG env) model = []
  | PrototypeChain.ObjectKey _ => model = "constructor"
  | PrototypeChain.Key info =>
      ∃ k, key info = Some k
           ∧ credentials (API_KEY_CONFIG env) model !! keyIndex info = Some k
           ∧ k ≠ "" ∧ (∃ name, env name = Some k)
           ∧ (keyIndex info < totalKeys info ≤ 3)%nat
  end.
Proof.
  pose proof (own_key_is_configured env ops model) as Hown.
  set (p := PrototypeChain.runOps ops (initial env)).
  assert (Hentries : entries p = runOps ops (API_KEY_CONFIG env))
    by apply entries_runOps.
  unfold PrototypeChain.getCurrentApiKey. rewrite Hentries.
  destruct (find p model) eqn:Hfind;
    try (by apply find_object in Hfind as [_ ->]);
    (destruct (getCurrentApiKey (runOps ops (API_KEY_CONFIG env)) model) as [msg|info];
     [|exact Hown]; split; [|exact Hown]; intros ->;
     assert (find p "constructor" = PrototypeChain.FoundObject) as Hobj;
     [apply find_object; split; [|reflexivity]; rewrite Hentries;
      apply not_a_model; rewrite !elem_of_cons, elem_of_nil;
      by intros [[=]|[[=]|[[=]|[]]]]
     |congruence]).
Qed.

Lemma current_key_is_configured_witness :
  PrototypeChain.getCurrentApiKey
    (PrototypeChain.runOps [OpResetFailureCount "__proto__"; OpRotateApiKey "gpt-4" "timeout"]
       (initial env3)) "orzion-pro"
  ≠ PrototypeChain.Thrown "No hay claves API configuradas para el modelo: orzion-pro".
Proof.
  pose proof (current_key_is_configured env3
                [OpResetFailureCount "__proto__"; OpRotateApiKey "gpt-4" "timeout"]
                "orzion-pro") as H.
  intros Hthrown. rewrite Hthrown in H. destruct H as [_ H]. discriminate H.
Defined.

(** X5 (statistics of the pool). From the configuration read from any
    environment and after any operations, on any names:
    [getAllRotationStats] has an entry for each of the three models, one
    more under [failureCount] exactly when [resetFailureCount('__proto__')]
    was among the operations, and no other. The entry under [failureCount]
    is [null]. The entry of a model is what [getRotationStats] returns for
    it, and reports at most 3 credentials, an index inside the list unless
    the list is empty, and all keys failed exactly when the list is empty or
    the failures have reached its size. *)
Theorem rotation_stats_cover_the_models (env : Env) (ops : list PoolOp) (model : string) :
  let p := PrototypeChain.runOps ops (initial env) in
  (is_Some (PrototypeChain.getAllRotationStats p !! model)
   ↔ model ∈ ["orzion-pro"; "orzion-turbo"; "orzion-mini"]
     ∨ (model = "failureCount" ∧ OpResetFailureCount "__proto__" ∈ ops))
  ∧ (∀ entry, PrototypeChain.getAllRotationStats p !! model = Some entry →
       match PrototypeChain.getRotationStats p model with
       | PrototypeChain.StatsNull => model = "failureCount" ∧ entry = None
       | PrototypeChain.Stats stats =>
           entry = Some stats
           ∧ statsModel stats = model
           ∧ statsTotalKeys stats = length (credentials (API_KEY_CONFIG env) model)
           ∧ (statsTotalKeys stats ≤ 3)%nat
           ∧ (statsTotalKeys stats ≠ 0%nat →
              (currentKeyIndex stats < statsTotalKeys stats)%nat)
           ∧ (statsAllKeysFailed stats = true
              ↔ statsTotalKeys stats = 0%nat
                ∨ (statsTotalKeys stats ≤ statsFailureCount stats)%nat)
       | _ => False
       end).
Proof.
  intros p.
  assert (Hentries : entries p = runOps ops (API_KEY_CONFIG env))
    by apply entries_runOps.
  assert (Hfc : runOps ops (API_KEY_CONFIG env) !! "failureCount" = None).
  { apply not_a_model. rewrite !elem_of_cons, elem_of_nil.
    by intros [[=]|[[=]|[[=]|[]]]]. }
  pose proof (polluted_runOps env ops) as Hpol. fold p in Hpol.
  assert (Hall : PrototypeChain.getAllRotationStats p
                 = if polluted p
                   then <["failureCount" := None]>
                          (getAllRotationStats (runOps ops (API_KEY_CONFIG env)))
                   else getAllRotationStats (runOps ops (API_KEY_CONFIG env))).
  { unfold PrototypeChain.getAllRotationStats. rewrite Hentries, Hfc.
    rewrite bool_decide_eq_true_2 by reflexivity. by rewrite andb_true_r. }
  rewrite Hall. clear Hall.
  destruct (decide (model = "failureCount")) as [->|Hne].
  - assert (Hold : getAllRotationStats (runOps ops (API_KEY_CONFIG env))
                     !! "failureCount" = None).
    { unfold getAllRotationStats. by rewrite map_lookup_imap, Hfc. }
    assert (Hnot : "failureCount" ∉ ["orzion-pro"; "orzion-turbo"; "orzion-mini"]).
    { rewrite !elem_of_cons, elem_of_nil. by intros [[=]|[[=]|[[=]|[]]]]. }
    destruct (polluted p) eqn:Hp.
    + rewrite lookup_insert_eq. split.
      * split; [intros _; right; split; [reflexivity|by apply Hpol]|by eexists].
      * intros entry [= <-].
        unfold PrototypeChain.getRotationStats, find. rewrite Hentries, Hfc, Hp.
        simpl. unfold getRotationStats. by rewrite Hfc.
    + rewrite Hold. split.
      * split; [by intros [? ?]|]. intros [Hin|[_ Hin]]; [contradiction|].
        apply Hpol in Hin. discriminate.
      * discriminate.
  - assert (Hlook : (if polluted p
                     then <["failureCount" := None]>
                            (getAllRotationStats (runOps ops (API_KEY_CONFIG env)))
                     else getAllRotationStats (runOps ops (API_KEY_CONFIG env)))
                    !! model
                    = getAllRotationStats (runOps ops (API_KEY_CONFIG env)) !! model).
    { destruct (polluted p); [|reflexivity]. by rewrite lookup_insert_ne. }
    rewrite Hlook. clear Hlook.
    destruct (own_stats_cover_the_models env ops model) as [Hdom Hentry].
    split.
    + rewrite Hdom. split; [by left|]. intros [?|[? _]]; [assumption|contradiction].
    + intros entry Hsome. destruct (Hentry entry Hsome) as (Hget & stats & -> & Hstats).
      unfold getAllRotationStats in Hsome. rewrite map_lookup_imap in Hsome.
      destruct (runOps ops (API_KEY_CONFIG env) !! model) as [config|] eqn:Hcfg;
        [|discriminate].
      assert (Hfind : find p model = PrototypeChain.FoundEntry config)
        by (apply find_entry; by rewrite Hentries).
      unfold PrototypeChain.getRotationStats. rewrite Hfind, Hentries, <- Hget.
      split; [reflexivity|exact Hstats].
Qed.

Lemma rotation_stats_cover_the_models_witness :
  PrototypeChain.getAllRotationStats
    (PrototypeChain.runOps [OpRotateApiKey "orzion-pro" "timeout";
                            OpResetFailureCount "__proto__"] (initial env3))
    !! "failureCount" = Some None
  ∧ PrototypeChain.getAllRotationStats
      (PrototypeChain.runOps [OpRotateApiKey "orzion-pro" "timeout";
                              OpResetFailureCount "__proto__"] (initial env3))
      !! "orzion-pro"
    = Some (Some (mkRotationStats "orzion-pro" 3 1 1 false)).
Proof.
  split.
  - destruct (rotation_stats_cover_the_models env3
                [OpRotateApiKey "orzion-pro" "timeout"; OpResetFailureCount "__proto__"]
                "failureCount") as [Hdom Hentry].
    destruct (proj2 Hdom) as [entry Hsome].
    { right. split; [reflexivity|]. repeat constructor. }
    rewrite Hsome. f_equal. by destruct (Hentry entry Hsome) as [_ ->].
  - destruct (rotation_stats_cover_the_models env3
                [OpRotateApiKey "orzion-pro" "timeout"; OpResetFailureCount "__proto__"]
                "orzion-pro") as [Hdom Hentry].
    destruct (proj2 Hdom) as [entry Hsome].
    { left. repeat constructor. }
    rewrite Hsome. f_equal. by destruct (Hentry entry Hsome) as [-> _].
Defined.

(** A reset makes the failure count of [Object] a number, and the next
    rotation makes [allKeysFailed] answer true. *)
Example constructor_after_a_reset :
  PrototypeChain.allKeysFailed
    (PrototypeChain.runOps [OpResetFailureCount "constructor";
                            OpRotateApiKey "constructor" "timeout"] (initial env3))
    "constructor" = true
  ∧ PrototypeChain.getRotationStats (initial env3) "toString"
    = PrototypeChain.StatsThrown "Cannot read properties of undefined (reading 'length')".
Proof. by vm_compute. Qed.

End PrototypeChainFacts.

(** ** More on the rate limiter: the store after a call, windows, cleanup,
    statistics *)

Module RateLimitStoreFacts.
Import RateLimit Scenario RateLimitFacts.

Local Arguments total : simpl never.
Local Arguments storedCount : simpl never.

Lemma append_assoc (a b c : string) : (a +:+ b) +:+ c = a +:+ (b +:+ c).
Proof.
  induction a as [|x a IH]; [reflexivity|].
  change (String x ((a +:+ b) +:+ c) = String x (a +:+ (b +:+ c))). by rewrite IH.
Qed.

Lemma dbKeyOf_inj (key : string) (w1 w2 : Z) :
  dbKeyOf key w1 = dbKeyOf key w2 → w1 = w2.
Proof.
  unfold dbKeyOf. intros H.
  do 3 apply (inj (String.app _)) in H. by apply (inj pretty) in H.
Qed.

Lemma alter_found {A} (f : A → A) (m : gmap string A) (k : string) (x : A) :
  m !! k = Some x → alter f k m = <[k := f x]> m.
Proof.
  intros Hk. rewrite <- (insert_id m k x Hk) at 1. apply alter_insert_eq.
Qed.

(** What a call that meets no fault leaves behind. *)
Lemma transaction_healthy pg key lim windowMs increment now :
  0 < windowMs →
  windowOk pg (dbKeyOf key (now `div` windowMs)) ((now `div` windowMs + 1) * windowMs) →
  ∃ pg',
    transaction key lim windowMs increment now pg =
      (inr {| allowed := storedCount pg (dbKeyOf key (now `div` windowMs)) + increment <=? lim;
              count := storedCount pg (dbKeyOf key (now `div` windowMs)) + increment;
              remaining := Z.max 0 (lim - (storedCount pg (dbKeyOf key (now `div` windowMs)) + increment));
              resetTime := Some ((now `div` windowMs + 1) * windowMs);
              limit := Some lim;
              error := None |}, pg')
    ∧ table pg' =
        <[dbKeyOf key (now `div` windowMs) :=
            mkRow (storedCount pg (dbKeyOf key (now `div` windowMs)) + increment)
                  ((now `div` windowMs + 1) * windowMs)]>
          (filter (λ kv, now ≤ reset_time kv.2) (table pg))
    ∧ snapshot pg' = None
    ∧ noFaults pg'
    ∧ log pg' = log pg ++ statementsOf key windowMs increment now
                            (storedCount pg (dbKeyOf key (now `div` windowMs)))
                            (bool_decide (is_Some (table pg !! dbKeyOf key (now `div` windowMs)))).
Proof.
  intros Hpos [Hnf Hrow].
  set (w := now `div` windowMs) in *. set (dbKey := dbKeyOf key w) in *.
  assert (Hnow : now < (w + 1) * windowMs).
  { subst w. pose proof (Z.mod_pos_bound now windowMs Hpos).
    pose proof (Z.div_mod now windowMs). lia. }
  unfold transaction, bind, tryCatch, statementsOf. fold w. fold dbKey.
  rewrite (query_noFaults _ _ Hnf). simpl.
  rewrite query_noFaults by healthy. simpl.
  rewrite query_noFaults by healthy. simpl.
  destruct (table pg !! dbKey) as [r|] eqn:Hlook.
  - assert (Hkeep : filter (λ kv : string * Row, now ≤ reset_time kv.2) (table pg) !! dbKey
                    = Some r).
    { apply map_lookup_filter_Some. split; [done|]. simpl. rewrite (Hrow r eq_refl). lia. }
    rewrite Hkeep. cbv beta iota. rewrite query_noFaults by healthy. simpl.
    rewrite query_noFaults by healthy. simpl.
    eexists. split; [|split; [|split; [|split]]].
    + unfold ret, storedCount. rewrite Hlook. reflexivity.
    + simpl. unfold storedCount. rewrite Hlook. simpl.
      rewrite (alter_found _ _ _ _ Hkeep). by rewrite (Hrow r eq_refl).
    + reflexivity.
    + healthy.
    + simpl. unfold storedCount. rewrite Hlook. simpl. by rewrite <- !app_assoc.
  - assert (Hgone : filter (λ kv : string * Row, now ≤ reset_time kv.2) (table pg) !! dbKey
                    = None).
    { apply map_lookup_filter_None. left. done. }
    rewrite Hgone. cbv beta iota. rewrite query_noFaults by healthy. simpl. rewrite Hgone.
    simpl. rewrite query_noFaults by healthy. simpl.
    eexists. split; [|split; [|split; [|split]]].
    + unfold ret, storedCount. rewrite Hlook. reflexivity.
    + simpl. unfold storedCount. rewrite Hlook. reflexivity.
    + reflexivity.
    + healthy.
    + simpl. by rewrite <- !app_assoc.
Qed.

Lemma checkRateLimit_healthy pg key lim windowMs increment now :
  lim ≠ -1 → 0 < windowMs →
  windowOk pg (dbKeyOf key (now `div` windowMs)) ((now `div` windowMs + 1) * windowMs) →
  ∃ r pg',
    checkRateLimit (Some pg) now key lim windowMs increment = (r, Some pg')
    ∧ count r = storedCount pg (dbKeyOf key (now `div` windowMs)) + increment
    ∧ allowed r = (count r <=? lim)
    ∧ error r = None
    ∧ table pg' =
        <[dbKeyOf key (now `div` windowMs) :=
            mkRow (count r) ((now `div` windowMs + 1) * windowMs)]>
          (filter (λ kv, now ≤ reset_time kv.2) (table pg))
    ∧ snapshot pg' = None
    ∧ noFaults pg'
    ∧ log pg' = log pg ++ statementsOf key windowMs increment now
                            (storedCount pg (dbKeyOf key (now `div` windowMs)))
                            (bool_decide (is_Some (table pg !! dbKeyOf key (now `div` windowMs)))).
Proof.
  intros Hlim Hpos Hok.
  destruct (transaction_healthy pg key lim windowMs increment now Hpos Hok)
    as (pg' & Htx & Htable & Hsnap & Hnf & Hlog).
  unfold checkRateLimit. rewrite decide_False by assumption. rewrite Htx.
  eexists _, pg'. repeat split; try reflexivity; assumption.
Qed.

(** X6 (frame). A call that meets no fault sends its five statements, leaves
    no transaction open, stores the count it reports under its own key,
    keeps every other row that has not expired at the clock reading as it
    was, and removes every other row that has. *)
Theorem check_keeps_other_counters (pg : PgClient) (key : string)
    (lim windowMs increment now : Z) :
  lim ≠ -1 → 0 < windowMs →
  windowOk pg (dbKeyOf key (now `div` windowMs)) ((now `div` windowMs + 1) * windowMs) →
  ∃ r pg',
    checkRateLimit (Some pg) now key lim windowMs increment = (r, Some pg')
    ∧ snapshot pg' = None
    ∧ length (log pg') = (length (log pg) + 5)%nat
    ∧ table pg' !! dbKeyOf key (now `div` windowMs)
      = Some (mkRow (count r) ((now `div` windowMs + 1) * windowMs))
    ∧ ∀ k row, k ≠ dbKeyOf key (now `div` windowMs) →
        (table pg' !! k = Some row ↔ table pg !! k = Some row ∧ now ≤ reset_time row).
Proof.
  intros Hlim Hpos Hok.
  destruct (checkRateLimit_healthy pg key lim windowMs increment now Hlim Hpos Hok)
    as (r & pg' & Hcall & _ & _ & _ & Htable & Hsnap & _ & Hlog).
  exists r, pg'. split; [exact Hcall|]. split; [exact Hsnap|]. split; [|split].
  - rewrite Hlog, length_app. reflexivity.
  - rewrite Htable. apply lookup_insert_eq.
  - intros k row Hk. rewrite Htable, lookup_insert_ne by congruence.
    apply map_lookup_filter_Some.
Qed.

Lemma check_keeps_other_counters_witness :
  ∃ r pg',
    checkRateLimit (Some (emptyStore [])) 300000 "user:u1:tokens_per_minute" 10 60000 4
      = (r, Some pg')
    ∧ snapshot pg' = None
    ∧ length (log pg') = (length (log (emptyStore [])) + 5)%nat
    ∧ table pg' !! dbKeyOf "user:u1:tokens_per_minute" (300000 `div` 60000)
      = Some (mkRow (count r) ((300000 `div` 60000 + 1) * 60000))
    ∧ ∀ k row, k ≠ dbKeyOf "user:u1:tokens_per_minute" (300000 `div` 60000) →
        (table pg' !! k = Some row
         ↔ table (emptyStore []) !! k = Some row ∧ 300000 ≤ reset_time row).
Proof.
  apply (check_keeps_other_counters (emptyStore []) "user:u1:tokens_per_minute"
           10 60000 4 300000).
  - lia.
  - lia.
  - split; [constructor|]. intros r. discriminate.
Defined.

(** Calls of one window keep the store healthy and do not create the
    counter of another window. *)
Lemma checkSequence_window key lim windowMs w w' calls :
  lim ≠ -1 → 0 < windowMs → w ≠ w' →
  Forall (λ call : Z * Z, call.1 `div` windowMs = w) calls →
  ∀ pg, windowOk pg (dbKeyOf key w) ((w + 1) * windowMs) →
        table pg !! dbKeyOf key w' = None →
  ∃ pg', (checkSequence (Some pg) key lim windowMs calls).2 = Some pg'
         ∧ windowOk pg' (dbKeyOf key w) ((w + 1) * windowMs)
         ∧ table pg' !! dbKeyOf key w' = None.
Proof.
  intros Hlim Hpos Hw. induction 1 as [|[now increment] calls Hnow _ IH]; intros pg Hok Hnone.
  - exists pg. split; [reflexivity|]. split; assumption.
  - simpl in Hnow. subst w. cbn [checkSequence].
    destruct (checkRateLimit_healthy pg key lim windowMs increment now Hlim Hpos Hok)
      as (r & pg1 & -> & _ & _ & _ & Htable & _ & Hnf & _).
    destruct (IH pg1) as (pg' & Hseq & Hok' & Hnone').
    + split; [exact Hnf|]. intros row. rewrite Htable, lookup_insert_eq.
      by intros [= <-].
    + rewrite Htable, lookup_insert_ne by (intros Heq; by apply dbKeyOf_inj in Heq).
      apply map_lookup_filter_None. by left.
    + destruct (checkSequence (Some pg1) key lim windowMs calls) as [rs pg2].
      simpl in *. eauto.
Qed.

(** X7 (window rollover). After any calls of one window, exhausted or not,
    the first call of a later window is counted from zero: it reports its
    own increment and is allowed exactly when that increment is within the
    limit; and when the clock is past the old window's reset time, the old
    counter is gone from the store. *)
Theorem new_window_starts_from_zero (pg : PgClient) (key : string)
    (lim windowMs w1 : Z) (calls : list (Z * Z)) (now2 increment : Z) :
  lim ≠ -1 → 0 < windowMs → noFaults pg →
  table pg !! dbKeyOf key w1 = None →
  table pg !! dbKeyOf key (now2 `div` windowMs) = None →
  Forall (λ call : Z * Z, call.1 `div` windowMs = w1) calls →
  w1 < now2 `div` windowMs →
  ∃ r pg2,
    checkRateLimit (checkSequence (Some pg) key lim windowMs calls).2
      now2 key lim windowMs increment = (r, Some pg2)
    ∧ count r = increment
    ∧ (allowed r = true ↔ increment ≤ lim)
    ∧ ((w1 + 1) * windowMs < now2 → table pg2 !! dbKeyOf key w1 = None).
Proof.
  intros Hlim Hpos Hnf Hfresh1 Hfresh2 Hcalls Hlater.
  destruct (checkSequence_window key lim windowMs w1 (now2 `div` windowMs) calls
              Hlim Hpos ltac:(lia) Hcalls pg) as (pg1 & -> & [Hnf1 Hrow1] & Hnone).
  { split; [exact Hnf|]. intros row. rewrite Hfresh1. discriminate. }
  { exact Hfresh2. }
  destruct (checkRateLimit_healthy pg1 key lim windowMs increment now2 Hlim Hpos)
    as (r & pg2 & Hcall & Hcount & Hallowed & _ & Htable & _).
  { split; [exact Hnf1|]. intros row. rewrite Hnone. discriminate. }
  exists r, pg2. split; [exact Hcall|].
  assert (Hc : count r = increment).
  { rewrite Hcount. unfold storedCount. rewrite Hnone. simpl. lia. }
  split; [exact Hc|]. split.
  - rewrite Hallowed, Hc. apply Z.leb_le.
  - intros Hpast. rewrite Htable, lookup_insert_ne by (intros Heq; apply dbKeyOf_inj in Heq; lia).
    apply map_lookup_filter_None.
    destruct (table pg1 !! dbKeyOf key w1) as [row|] eqn:Hrow; [|by left].
    right. intros row' [= <-]. simpl. rewrite (Hrow1 row eq_refl). lia.
Qed.

Lemma new_window_starts_from_zero_witness :
  ∃ r pg2,
    checkRateLimit
      (checkSequence (Some (emptyStore [])) "user:u1:tokens_per_minute" 10 60000
         burstCalls).2
      360001 "user:u1:tokens_per_minute" 10 60000 7 = (r, Some pg2)
    ∧ count r = 7
    ∧ (allowed r = true ↔ 7 ≤ 10)
    ∧ ((5 + 1) * 60000 < 360001 →
       table pg2 !! dbKeyOf "user:u1:tokens_per_minute" 5 = None).
Proof.
  apply (new_window_starts_from_zero (emptyStore []) "user:u1:tokens_per_minute"
           10 60000 5 burstCalls 360001 7).
  - lia.
  - lia.
  - constructor.
  - reflexivity.
  - reflexivity.
  - repeat constructor.
  - reflexivity.
Defined.

(** X8 (rollback). When exactly one statement of a call fails and no
    transaction was open before, the call is allowed with that statement's
    message and the table is what it was before the call: neither the
    deletion of expired rows nor the increment is kept. *)
Theorem failed_call_changes_nothing (pg : PgClient) (key : string)
    (lim windowMs increment now : Z) (i : nat) (msg : string) :
  lim ≠ -1 → snapshot pg = None → (i < 5)%nat →
  faults pg = replicate i None ++ [Some msg] →
  ∃ r pg',
    checkRateLimit (Some pg) now key lim windowMs increment = (r, Some pg')
    ∧ allowed r = true ∧ error r = Some msg
    ∧ table pg' = table pg ∧ snapshot pg' = None ∧ faults pg' = [].
Proof.
  intros Hlim Hsnap Hi Hfaults.
  unfold checkRateLimit. rewrite decide_False by assumption.
  destruct pg as [tbl snap fl lg]. simpl in Hsnap, Hfaults. subst snap fl.
  unfold transaction, bind, tryCatch, query.
  do 5 (destruct i as [|i]; [simpl;
    repeat match goal with
           | |- context [match ?t !! ?k with Some _ => _ | None => _ end] =>
               destruct (t !! k) eqn:?; simpl
           end; try discriminate; eexists _, _; repeat split|]).
  lia.
Qed.

Lemma failed_call_changes_nothing_witness :
  ∃ r pg',
    checkRateLimit (Some flakyStore) 1700000000000 "user:u1:daily_requests"
      100 86400000 1 = (r, Some pg')
    ∧ allowed r = true ∧ error r = Some "Connection terminated unexpectedly"
    ∧ table pg' = table flakyStore ∧ snapshot pg' = None ∧ faults pg' = [].
Proof.
  apply (failed_call_changes_nothing flakyStore "user:u1:daily_requests"
           100 86400000 1 1700000000000 2 "Connection terminated unexpectedly").
  - lia.
  - reflexivity.
  - lia.
  - reflexivity.
Defined.

Lemma filter_expired_size (tbl : gmap string Row) (t : Z) :
  (size (filter (λ kv : string * Row, (reset_time kv.2 < t)%Z) tbl)
   + size (filter (λ kv : string * Row, (t ≤ reset_time kv.2)%Z) tbl))%nat = size tbl.
Proof.
  rewrite <- (map_filter_union_complement
                (λ kv : string * Row, (reset_time kv.2 < t)%Z) tbl) at 3.
  rewrite map_size_disj_union by apply map_disjoint_filter_complement.
  f_equal. f_equal. apply map_filter_ext. intros k row _. simpl. lia.
Qed.

Lemma cleanup_healthy (pg : PgClient) (olderThan : Z) :
  (∀ msg, head (faults pg) ≠ Some (Some msg)) →
  cleanupExpiredCounters (Some pg) olderThan =
    (Z.of_nat (size (filter (λ kv : string * Row, reset_time kv.2 < olderThan) (table pg))),
     Some (mkPgClient (filter (λ kv : string * Row, olderThan ≤ reset_time kv.2) (table pg))
             (snapshot pg) (tail (faults pg)) (log pg ++ [DeleteExpired olderThan]))).
Proof.
  intros Hok. unfold cleanupExpiredCounters, query.
  destruct (faults pg) as [|[msg|] fl]; simpl in *; [reflexivity| |reflexivity].
  by destruct (Hok msg).
Qed.

(** X9 (cleanup). With a client whose next statement does not fail,
    [cleanupExpiredCounters] returns the number of rows it removed, keeps
    exactly the rows whose reset time is not before [olderThan], and
    cleaning up again with the same bound returns 0 and keeps the table,
    whether or not that second statement fails. *)
Theorem cleanup_removes_expired (pg : PgClient) (olderThan : Z) :
  (∀ msg, head (faults pg) ≠ Some (Some msg)) →
  ∃ pg',
    (cleanupExpiredCounters (Some pg) olderThan).2 = Some pg'
    ∧ ((cleanupExpiredCounters (Some pg) olderThan).1 + Z.of_nat (size (table pg'))
       = Z.of_nat (size (table pg)))
    ∧ (∀ k row, table pg' !! k = Some row
                ↔ table pg !! k = Some row ∧ olderThan ≤ reset_time row)
    ∧ (cleanupExpiredCounters (Some pg') olderThan).1 = 0
    ∧ table <$> (cleanupExpiredCounters (Some pg') olderThan).2 = Some (table pg').
Proof.
  intros Hok. rewrite (cleanup_healthy pg olderThan Hok). eexists. split; [reflexivity|].
  cbn [fst snd table]. split; [|split].
  - rewrite <- (filter_expired_size (table pg) olderThan). lia.
  - intros k row. apply map_lookup_filter_Some.
  - set (kept := filter (λ kv : string * Row, olderThan ≤ reset_time kv.2) (table pg)).
    assert (Hnone : filter (λ kv : string * Row, reset_time kv.2 < olderThan) kept = ∅).
    { apply map_empty. intros k. apply map_lookup_filter_None. right.
      intros row Hrow. apply map_lookup_filter_Some in Hrow as [_ Hrow]. simpl in *. lia. }
    assert (Hall : filter (λ kv : string * Row, olderThan ≤ reset_time kv.2) kept = kept).
    { apply map_filter_id. intros k row Hrow.
      apply map_lookup_filter_Some in Hrow as [_ Hrow]. exact Hrow. }
    unfold cleanupExpiredCounters, query. cbn [faults table snapshot log].
    destruct (tail (faults pg)) as [|[msg|] fl]; simpl; rewrite ?Hnone, ?Hall; by split.
Qed.

Lemma cleanup_removes_expired_witness :
  ∃ pg',
    (cleanupExpiredCounters (Some staleStore) 400000).2 = Some pg'
    ∧ ((cleanupExpiredCounters (Some staleStore) 400000).1 + Z.of_nat (size (table pg'))
       = Z.of_nat (size (table staleStore)))
    ∧ (∀ k row, table pg' !! k = Some row
                ↔ table staleStore !! k = Some row ∧ 400000 ≤ reset_time row)
    ∧ (cleanupExpiredCounters (Some pg') 400000).1 = 0
    ∧ table <$> (cleanupExpiredCounters (Some pg') 400000).2 = Some (table pg').
Proof.
  apply (cleanup_removes_expired staleStore 400000). intros msg. discriminate.
Defined.

Example cleanup_counts :
  (cleanupExpiredCounters (Some staleStore) 400000).1 = 2
  ∧ cleanupExpiredCounters None 400000 = (0, None)
  ∧ (cleanupExpiredCounters
       (Some (mkPgClient (table staleStore) None [Some "timeout"] [])) 400000).1 = 0.
Proof. vm_compute. by repeat split. Qed.

Lemma expired_filter_twice (tbl : gmap string Row) (t : Z) :
  filter (λ kv : string * Row, t ≤ reset_time kv.2)
    (filter (λ kv : string * Row, t ≤ reset_time kv.2) tbl)
  = filter (λ kv : string * Row, t ≤ reset_time kv.2) tbl.
Proof.
  apply map_filter_id. intros k row Hrow.
  by apply map_lookup_filter_Some in Hrow as [_ Hrow].
Qed.

(** X10 (cleanup before a check). A cleanup at the clock reading of a check
    changes nothing of what the check returns nor of the table it leaves:
    the check removes the expired rows itself. *)
Theorem cleanup_before_check_is_redundant (pg : PgClient) (key : string)
    (lim windowMs increment now : Z) :
  lim ≠ -1 → 0 < windowMs →
  windowOk pg (dbKeyOf key (now `div` windowMs)) ((now `div` windowMs + 1) * windowMs) →
  (checkRateLimit (cleanupExpiredCounters (Some pg) now).2 now key lim windowMs increment).1
  = (checkRateLimit (Some pg) now key lim windowMs increment).1
  ∧ table <$> (checkRateLimit (cleanupExpiredCounters (Some pg) now).2 now key lim
                 windowMs increment).2
    = table <$> (checkRateLimit (Some pg) now key lim windowMs increment).2.
Proof.
  intros Hlim Hpos Hok. pose proof Hok as [Hnf Hrow].
  set (K := dbKeyOf key (now `div` windowMs)) in *.
  assert (Hnow : now < (now `div` windowMs + 1) * windowMs).
  { pose proof (Z.mod_pos_bound now windowMs Hpos).
    pose proof (Z.div_mod now windowMs). lia. }
  rewrite cleanup_healthy.
  2:{ intros msg Hhead. unfold noFaults in Hnf.
      destruct (faults pg) as [|f fl]; [discriminate|].
      inversion Hnf; subst. simpl in Hhead. congruence. }
  cbn [snd].
  set (pgc := mkPgClient _ _ _ _).
  assert (Hlook : table pgc !! K = table pg !! K).
  { subst pgc. cbn [table]. destruct (table pg !! K) as [row|] eqn:Hk.
    - apply map_lookup_filter_Some. split; [done|]. simpl. rewrite (Hrow row eq_refl). lia.
    - apply map_lookup_filter_None. by left. }
  assert (Hokc : windowOk pgc K ((now `div` windowMs + 1) * windowMs)).
  { split; [subst pgc; healthy|]. intros row. rewrite Hlook. apply Hrow. }
  destruct (transaction_healthy pg key lim windowMs increment now Hpos Hok)
    as (pg1 & Htx & Htable & _).
  destruct (transaction_healthy pgc key lim windowMs increment now Hpos Hokc)
    as (pg2 & Htxc & Htablec & _).
  fold K in Htx, Htable, Htxc, Htablec.
  unfold checkRateLimit. rewrite !decide_False by assumption. rewrite Htx, Htxc.
  assert (Hstored : storedCount pgc K = storedCount pg K)
    by (unfold storedCount; by rewrite Hlook).
  simpl. rewrite Hstored. split; [reflexivity|].
  rewrite Htable, Htablec, Hstored. subst pgc. cbn [table].
  by rewrite expired_filter_twice.
Qed.

Lemma cleanup_before_check_is_redundant_witness :
  (checkRateLimit (cleanupExpiredCounters (Some staleStore) 400000).2 400000
     "user:u1:tokens_per_minute" 10 60000 4).1
  = (checkRateLimit (Some staleStore) 400000 "user:u1:tokens_per_minute" 10 60000 4).1
  ∧ table <$> (checkRateLimit (cleanupExpiredCounters (Some staleStore) 400000).2 400000
                 "user:u1:tokens_per_minute" 10 60000 4).2
    = table <$> (checkRateLimit (Some staleStore) 400000 "user:u1:tokens_per_minute"
                   10 60000 4).2.
Proof.
  apply (cleanup_before_check_is_redundant staleStore "user:u1:tokens_per_minute"
           10 60000 4 400000).
  - lia.
  - lia.
  - split; [constructor|]. vm_compute. by intros r [= <-].
Defined.

(** The keys [getUserRateStats] reads are the keys [checkRateLimit] writes
    for the calls of [checkUserRateLimits]. *)
Lemma stats_key (userId : string) (d : Dimension) (w : Z) :
  dbKeyOf (dimensionKey userId d) w =
    match d with
    | RequestsPerSecond =>
        "ratelimit:user:" +:+ userId +:+ ":requests_per_second:" +:+ pretty w
    | DailyRequests => "ratelimit:user:" +:+ userId +:+ ":daily_requests:" +:+ pretty w
    | TokensPerMinute => "ratelimit:user:" +:+ userId +:+ ":tokens_per_minute:" +:+ pretty w
    end.
Proof.
  unfold dbKeyOf. destruct d; cbn [dimensionKey];
    rewrite !append_assoc; reflexivity.
Qed.

Lemma firstCount_stored (pg : PgClient) (k : string) :
  firstCount (match table pg !! k with Some r => [row_count r] | None => [] end)
  = storedCount pg k.
Proof.
  unfold storedCount, firstCount, truthy. destruct (table pg !! k) as [r|]; simpl; [|done].
  destruct (Z.eqb_spec (row_count r) 0) as [->|]; reflexivity.
Qed.

Lemma getUserRateStats_healthy (pg : PgClient) (now : Z) (userId : string) :
  noFaults pg →
  ∃ stats pg',
    getUserRateStats (Some pg) now userId = (Some stats, Some pg')
    ∧ table pg' = table pg ∧ snapshot pg' = snapshot pg
    ∧ timestamp stats = now
    ∧ ∀ d, statOf d stats
           = storedCount pg (dbKeyOf (dimensionKey userId d) (now `div` dimensionWindowMs d)).
Proof.
  intros Hnf. unfold getUserRateStats.
  rewrite (query_noFaults _ _ Hnf). cbn [execute].
  rewrite query_noFaults by healthy. cbn [execute table snapshot].
  rewrite query_noFaults by healthy. cbn [execute table snapshot].
  eexists _, _. split; [reflexivity|]. repeat split.
  intros d. rewrite stats_key. destruct d; cbn [statOf dimensionWindowMs];
    cbn [currentRequestsPerSecond currentDailyRequests currentTokensPerMinute];
    rewrite firstCount_stored; reflexivity.
Qed.

(** X11 (statistics). After a check of a dimension of a user that met no
    fault, [getUserRateStats] at the same clock reading reports, for that
    dimension, the count the check returned, and leaves the table as the
    check left it. *)
Theorem stats_report_the_count (pg : PgClient) (now : Z) (userId : string)
    (d : Dimension) (lim increment : Z) :
  lim ≠ -1 →
  windowOk pg (dbKeyOf (dimensionKey userId d) (now `div` dimensionWindowMs d))
    ((now `div` dimensionWindowMs d + 1) * dimensionWindowMs d) →
  ∃ r pg1 stats pg2,
    checkRateLimit (Some pg) now (dimensionKey userId d) lim (dimensionWindowMs d) increment
      = (r, Some pg1)
    ∧ getUserRateStats (Some pg1) now userId = (Some stats, Some pg2)
    ∧ statOf d stats = count r
    ∧ table pg2 = table pg1.
Proof.
  intros Hlim Hok.
  assert (Hpos : 0 < dimensionWindowMs d) by (destruct d; reflexivity).
  destruct (RateLimitFacts.checkRateLimit_counts pg (dimensionKey userId d) lim
              (dimensionWindowMs d) increment now Hlim Hpos Hok)
    as (r & pg1 & Hcall & _ & _ & _ & _ & [Hnf1 _] & Hstored).
  destruct (getUserRateStats_healthy pg1 now userId Hnf1)
    as (stats & pg2 & Hstats & Htable & _ & _ & Hstat).
  exists r, pg1, stats, pg2. repeat split; try assumption.
  by rewrite Hstat, Hstored.
Qed.

Lemma stats_report_the_count_witness :
  ∃ r pg1 stats pg2,
    checkRateLimit (Some (emptyStore [])) 1700000000000
      (dimensionKey "u1" DailyRequests) 100 (dimensionWindowMs DailyRequests) 1
      = (r, Some pg1)
    ∧ getUserRateStats (Some pg1) 1700000000000 "u1" = (Some stats, Some pg2)
    ∧ statOf DailyRequests stats = count r
    ∧ table pg2 = table pg1.
Proof.
  apply (stats_report_the_count (emptyStore []) 1700000000000 "u1" DailyRequests 100 1).
  - lia.
  - split; [constructor|]. intros r. discriminate.
Defined.

Lemma dimension_keys_differ (userId : string) (d1 d2 : Dimension) (w1 w2 : Z) :
  d1 ≠ d2 →
  dbKeyOf (dimensionKey userId d1) w1 ≠ dbKeyOf (dimensionKey userId d2) w2.
Proof.
  intros Hd Heq. rewrite !stats_key in Heq.
  destruct d1, d2; try congruence;
    apply (inj (String.app _)) in Heq; apply (inj (String.app _)) in Heq;
    discriminate Heq.
Qed.

Lemma runChecks_counts (now : Z) (userId : string) (cs : list Check) :
  Forall (λ c, checkLimit c ≠ -1 ∧ checkWindowMs c = dimensionWindowMs (dimension c)) cs →
  ∀ pg, userWindowsOk pg now userId →
  ∃ pg', (runChecks (Some pg) now userId cs).2 = Some pg'
    ∧ userWindowsOk pg' now userId
    ∧ ∀ d, storedCount pg' (dbKeyOf (dimensionKey userId d) (now `div` dimensionWindowMs d))
           = storedCount pg (dbKeyOf (dimensionKey userId d) (now `div` dimensionWindowMs d))
             + total (checkIncrement <$> filter (λ c, dimension c = d) cs).
Proof.
  induction 1 as [|c cs [Hlim Hwin] _ IH]; intros pg Hok.
  - exists pg. split; [reflexivity|]. split; [exact Hok|]. intros d.
    change (total _) with 0. lia.
  - cbn [runChecks]. rewrite Hwin. destruct Hok as [Hnf Hrows].
    assert (Hpos : ∀ d, 0 < dimensionWindowMs d) by (intros []; reflexivity).
    assert (Hnow : ∀ d, now < (now `div` dimensionWindowMs d + 1) * dimensionWindowMs d).
    { intros d. pose proof (Z.mod_pos_bound now _ (Hpos d)).
      pose proof (Z.div_mod now (dimensionWindowMs d)). specialize (Hpos d). lia. }
    destruct (checkRateLimit_healthy pg (dimensionKey userId (dimension c)) (checkLimit c)
                (dimensionWindowMs (dimension c)) (checkIncrement c) now Hlim (Hpos _))
      as (r & pg1 & -> & Hcount & _ & _ & Htable & _ & Hnf1 & _).
    { split; [exact Hnf|]. apply Hrows. }
    assert (Hother : ∀ d, d ≠ dimension c →
              table pg1 !! dbKeyOf (dimensionKey userId d) (now `div` dimensionWindowMs d)
              = table pg !! dbKeyOf (dimensionKey userId d) (now `div` dimensionWindowMs d)).
    { intros d Hd. rewrite Htable, lookup_insert_ne
        by (apply dimension_keys_differ; congruence).
      destruct (table pg !! _) as [row|] eqn:Hrow.
      - apply map_lookup_filter_Some. split; [done|]. simpl.
        rewrite (Hrows d row Hrow). specialize (Hnow d). lia.
      - apply map_lookup_filter_None. by left. }
    destruct (IH pg1) as (pg' & Hrun & Hok' & Hcounts).
    { split; [exact Hnf1|]. intros d row.
      destruct (decide (d = dimension c)) as [->|Hd].
      - rewrite Htable, lookup_insert_eq. by intros [= <-].
      - rewrite (Hother d Hd). apply Hrows. }
    destruct (runChecks (Some pg1) now userId cs) as [rs pg2]. simpl in Hrun. subst pg2.
    exists pg'. split; [reflexivity|]. split; [exact Hok'|].
    intros d. rewrite Hcounts. rewrite filter_cons.
    destruct (decide (dimension c = d)) as [<-|Hd].
    + rewrite fmap_cons, total_cons.
      assert (storedCount pg1 (dbKeyOf (dimensionKey userId (dimension c))
                                 (now `div` dimensionWindowMs (dimension c))) = count r) as ->.
      { unfold storedCount. by rewrite Htable, lookup_insert_eq. }
      rewrite Hcount. lia.
    + unfold storedCount at 1. rewrite (Hother d) by congruence. reflexivity.
Qed.

Lemma plannedChecks_well_formed (limits : Limits) (t : Z) :
  Forall (λ c, checkLimit c ≠ -1 ∧ checkWindowMs c = dimensionWindowMs (dimension c))
         (plannedChecks limits t).
Proof.
  unfold plannedChecks.
  repeat apply Forall_app_2;
    match goal with
    | |- Forall _ (if ?b then _ else _) =>
        destruct b eqn:Hb; [|constructor]
    end;
    repeat constructor; simpl;
    rewrite ?andb_true_iff in Hb; destruct_and?;
    match goal with
    | H : negb (_ =? -1) = true |- _ =>
        apply negb_true_iff, Z.eqb_neq in H; exact H
    end.
Qed.

Lemma plannedChecks_once (limits : Limits) (t : Z) (c : Check) :
  c ∈ plannedChecks limits t →
  filter (λ c', dimension c' = dimension c) (plannedChecks limits t) = [c].
Proof.
  unfold plannedChecks.
  destruct (truthy (requestsPerSecond limits) && _);
    destruct (truthy (dailyRequests limits) && _);
    destruct (truthy (tokensPerMinute limits) && _ && _); simpl;
    rewrite ?elem_of_cons, ?elem_of_nil; intros Hin;
    repeat destruct Hin as [Hin|Hin]; try contradiction; subst c; reflexivity.
Qed.

(** X12 (every dimension is counted). When no statement fails, a call of
    [checkUserRateLimits] adds its increment to the counter of every
    dimension it checks, whether the request is allowed or denied: a
    request denied on one dimension still uses up the others. *)
Theorem every_checked_dimension_counts (pg : PgClient) (now : Z)
    (userId apiKeyId : string) (limits : Limits) (tokenIncrement : Z) :
  userWindowsOk pg now userId →
  ∃ pg',
    (checkUserRateLimits (Some pg) now userId apiKeyId limits tokenIncrement).2 = Some pg'
    ∧ ∀ c, c ∈ plannedChecks limits tokenIncrement →
        storedCount pg' (dbKeyOf (dimensionKey userId (dimension c))
                           (now `div` dimensionWindowMs (dimension c)))
        = storedCount pg (dbKeyOf (dimensionKey userId (dimension c))
                            (now `div` dimensionWindowMs (dimension c)))
          + checkIncrement c.
Proof.
  intros Hok. unfold checkUserRateLimits.
  destruct (runChecks_counts now userId (plannedChecks limits tokenIncrement)
              (plannedChecks_well_formed limits tokenIncrement) pg Hok)
    as (pg' & Hrun & _ & Hcounts).
  destruct (runChecks (Some pg) now userId _) as [rs pg2]. simpl in *. subst pg2.
  exists pg'. split; [reflexivity|]. intros c Hc.
  rewrite Hcounts, (plannedChecks_once limits tokenIncrement c Hc).
  rewrite fmap_cons, total_cons. change (total _) with 0. lia.
Qed.

Lemma every_checked_dimension_counts_witness :
  ∃ pg',
    (checkUserRateLimits (Some (emptyStore [])) 1700000000000 "u1" "k1"
       (mkLimits 1 100 10) 25).2 = Some pg'
    ∧ ∀ c, c ∈ plannedChecks (mkLimits 1 100 10) 25 →
        storedCount pg' (dbKeyOf (dimensionKey "u1" (dimension c))
                           (1700000000000 `div` dimensionWindowMs (dimension c)))
        = storedCount (emptyStore []) (dbKeyOf (dimensionKey "u1" (dimension c))
                            (1700000000000 `div` dimensionWindowMs (dimension c)))
          + checkIncrement c.
Proof.
  apply (every_checked_dimension_counts (emptyStore []) 1700000000000 "u1" "k1"
           (mkLimits 1 100 10) 25).
  split; [constructor|]. intros d row. discriminate.
Defined.

(** A request over its token limit is denied and still counted as a request
    of the day. *)
Example denied_request_is_counted :
  let out := checkUserRateLimits (Some (emptyStore [])) 1700000000000 "u1" "k1"
               (mkLimits 5 100 10) 25 in
  userAllowed out.1 = false
  ∧ (λ pg, storedCount pg "ratelimit:user:u1:daily_requests:19675") <$> out.2 = Some 1.
Proof. vm_compute. by split. Qed.

End RateLimitStoreFacts.

(** ** More on the retry dispatcher *)

Module ChatDispatchFacts.
Import Chat Scenario.

Lemma attempt_inr upstream cfg model n result :
  attempt upstream cfg model n = inr result →
  is_Some (cfg !! model) ∧ ∃ content usage used, result = Success content usage used.
Proof.
  unfold attempt, KeyRotation.getCurrentApiKey.
  destruct (cfg !! model) as [config|]; [|discriminate].
  destruct (Nat.eqb _ _); [discriminate|].
  destruct (upstream n _); intros [= <-]. eauto 6.
Qed.

Lemma failure_status cfg model n lastError text d sc :
  failure cfg model n lastError = Failure text d sc →
  text = "Failed to process request for " +:+ model +:+ " after "
         +:+ pretty n +:+ " attempts"
  ∧ attempts d = n ∧ sc ≠ 0.
Proof.
  unfold failure. intros [= <- <- <-]. split; [reflexivity|]. split; [reflexivity|].
  destruct (lastError ≫= response) as [r|]; [|lia].
  unfold RateLimit.truthy. destruct (Z.eqb_spec (status r) 0); simpl; [lia|assumption].
Qed.

(** The loop from any of its states. *)
Lemma retryLoop_shape fuel upstream model :
  ∀ cfg retryCount lastError trace res cfg' trace',
  (retryCount < MAX_RETRIES)%nat →
  retryLoop fuel upstream model cfg retryCount lastError trace = Some (res, cfg', trace') →
  ∃ extra,
    trace' = trace ++ extra
    ∧ (retryCount + length (rotations extra) < MAX_RETRIES)%nat
    ∧ cfg' = foldl (λ c reason, KeyRotation.rotateApiKey c model reason) cfg (rotations extra)
    ∧ waits extra = (λ k, RETRY_DELAY_MS * Z.of_nat k)
                      <$> seq (S retryCount) (length (rotations extra))
    ∧ match res with
      | Success _ _ _ => is_Some (cfg' !! model)
      | Failure text d sc =>
          text = "Failed to process request for " +:+ model +:+ " after "
                 +:+ pretty (attempts d) +:+ " attempts"
          ∧ attempts d = S (retryCount + length (rotations extra)) ∧ sc ≠ 0
      end.
Proof.
  induction fuel as [|fuel IH]; intros cfg retryCount lastError trace res cfg' trace' Hlt;
    [discriminate|].
  cbn [retryLoop]. rewrite (proj2 (Nat.ltb_lt _ _) Hlt).
  destruct (attempt upstream cfg model retryCount) as [e|result] eqn:Hatt.
  - destruct (shouldRotate e && Nat.ltb (S retryCount) MAX_RETRIES) eqn:Hrot.
    + apply andb_true_iff in Hrot as [_ Hmore%Nat.ltb_lt]. intros Hloop.
      destruct (IH _ _ _ _ _ _ _ Hmore Hloop) as (extra & -> & Hlen & -> & Hwaits & Hres).
      exists ([Rotated (rotationReason e);
               Waited (RETRY_DELAY_MS * Z.of_nat (S retryCount))] ++ extra).
      split; [by rewrite app_assoc|]. cbn [rotations waits app omap list_omap length].
      fold (rotations extra). fold (waits extra).
      split; [lia|]. split; [reflexivity|]. split.
      * cbn [seq fmap list_fmap]. by rewrite Hwaits.
      * destruct res; [exact Hres|]. destruct Hres as (Htext & Hn & Hsc).
        split; [exact Htext|]. split; [lia|exact Hsc].
    + intros [= <- <- <-]. exists []. rewrite app_nil_r.
      cbn [rotations waits omap list_omap length foldl seq fmap list_fmap].
      split; [reflexivity|]. split; [lia|]. split; [reflexivity|]. split; [reflexivity|].
      destruct (failure cfg model (S retryCount) (Some e)) as [|text d sc] eqn:Hf;
        [discriminate|].
      apply failure_status in Hf as (Htext & Hn & Hsc). cbn beta iota.
      split; [by rewrite Hn|]. split; [lia|exact Hsc].
  - intros [= <- <- <-]. exists []. rewrite app_nil_r. simpl.
    apply attempt_inr in Hatt as [Hsome (content & usage & used & ->)].
    split; [reflexivity|]. split; [lia|]. split; [reflexivity|]. split; [reflexivity|].
    exact Hsome.
Qed.

(** X13 (the dispatcher is bounded). Every request ends after at most two
    rotations, that is at most three calls upstream; the pool it leaves is
    the pool it found with those rotations applied to the model; it waits
    1000 ms after the first failure and 2000 ms after the second; a failure
    result counts one attempt more than there were rotations, names the
    model and that count in its text, and never has status 0; a success
    leaves an entry for the model. *)
Theorem dispatch_is_bounded (upstream : Upstream) (model : string)
    (cfg : gmap string KeyRotation.KeyConfig) :
  ∃ res cfg' trace,
    makeApiCallWithRetry upstream model cfg = Some (res, cfg', trace)
    ∧ (length (rotations trace) ≤ 2)%nat
    ∧ cfg' = foldl (λ c reason, KeyRotation.rotateApiKey c model reason) cfg
               (rotations trace)
    ∧ waits trace = (λ k, RETRY_DELAY_MS * Z.of_nat k)
                      <$> seq 1 (length (rotations trace))
    ∧ match res with
      | Success _ _ _ => is_Some (cfg' !! model)
      | Failure text d sc =>
          text = "Failed to process request for " +:+ model +:+ " after "
                 +:+ pretty (attempts d) +:+ " attempts"
          ∧ attempts d = S (length (rotations trace)) ∧ sc ≠ 0
      end.
Proof.
  destruct (ChatFacts.retryLoop_returns (S MAX_RETRIES) upstream model cfg 0 None [])
    as [[[res cfg'] trace] Hloop]; [unfold MAX_RETRIES; lia|].
  exists res, cfg', trace. split; [exact Hloop|].
  assert (Hlt : (0 < MAX_RETRIES)%nat) by (unfold MAX_RETRIES; lia).
  destruct (retryLoop_shape _ _ _ _ _ _ _ _ _ _ Hlt Hloop)
    as (extra & -> & Hlen & Hcfg & Hwaits & Hres).
  rewrite app_nil_l. unfold MAX_RETRIES in Hlen.
  split; [lia|]. split; [exact Hcfg|]. split; [exact Hwaits|]. exact Hres.
Qed.

(** The two ways a request can end. *)
Lemma dispatch_cases upstream model cfg :
  (∃ content usage used cfg' trace,
     makeApiCallWithRetry upstream model cfg
     = Some (Success content usage used, cfg', trace)
     ∧ is_Some (cfg' !! model))
  ∨ (∃ n d sc cfg' trace,
       makeApiCallWithRetry upstream model cfg
       = Some (Failure ("Failed to process request for " +:+ model +:+ " after "
                        +:+ pretty n +:+ " attempts") d sc, cfg', trace)
       ∧ (1 ≤ n ≤ 3)%nat ∧ sc ≠ 0).
Proof.
  destruct (ChatFacts.retryLoop_returns (S MAX_RETRIES) upstream model cfg 0 None [])
    as [[[res cfg'] trace] Hloop]; [unfold MAX_RETRIES; lia|].
  assert (Hlt : (0 < MAX_RETRIES)%nat) by (unfold MAX_RETRIES; lia).
  destruct (retryLoop_shape _ _ _ _ _ _ _ _ _ _ Hlt Hloop)
    as (extra & -> & Hlen & Hcfg & Hwaits & Hres).
  unfold makeApiCallWithRetry. rewrite Hloop. unfold MAX_RETRIES in Hlen.
  destruct res as [content usage used|text d sc].
  - left. eauto 10.
  - right. destruct Hres as (-> & Hn & Hsc).
    exists (attempts d), d, sc, cfg', ([] ++ extra). split; [reflexivity|].
    split; [lia|exact Hsc].
Qed.

Lemma getCurrentApiKey_no_keys cfg model :
  KeyRotation.credentials cfg model = [] →
  KeyRotation.getCurrentApiKey cfg model
  = inl ("No hay claves API configuradas para el modelo: " +:+ model).
Proof.
  unfold KeyRotation.credentials, KeyRotation.getCurrentApiKey.
  destruct (cfg !! model) as [config|]; simpl; [|reflexivity]. by intros ->.
Qed.

(** X14 (no credential). For one of the three models, when no credential is
    configured the request fails at its first attempt without a call
    upstream (the result is the same for every upstream), with status 503,
    no last status code, all keys reported failed, and the pool unchanged. *)
Theorem dispatch_without_credentials (upstream : Upstream) (model : string)
    (cfg : gmap string KeyRotation.KeyConfig) :
  model ∈ VALID_MODELS → KeyRotation.credentials cfg model = [] →
  makeApiCallWithRetry upstream model cfg =
    Some (Failure ("Failed to process request for " +:+ model +:+ " after 1 attempts")
            {| attempts := 1;
               lastStatusCode := None;
               lastErrorMessage :=
                 Some ("No hay claves API configuradas para el modelo: " +:+ model);
               errorCode := None;
               allKeysFailed := true |} 503,
          cfg, []).
Proof.
  intros Hmodel Hnone.
  assert (Hall : KeyRotation.allKeysFailed cfg model = true).
  { unfold KeyRotation.credentials in Hnone. unfold KeyRotation.allKeysFailed.
    destruct (cfg !! model) as [config|]; simpl in *; [|reflexivity]. by rewrite Hnone. }
  unfold makeApiCallWithRetry. cbn [retryLoop]. unfold attempt.
  rewrite (getCurrentApiKey_no_keys cfg model Hnone).
  unfold VALID_MODELS in Hmodel. rewrite !elem_of_cons, elem_of_nil in Hmodel.
  destruct Hmodel as [->|[->|[->|[]]]];
    vm_compute shouldRotate; cbn; unfold failure; cbn; rewrite Hall; reflexivity.
Qed.

Lemma dispatch_without_credentials_witness :
  ∃ text d,
    makeApiCallWithRetry answering "orzion-mini" someKeys
    = Some (Failure text d 503, someKeys, []).
Proof.
  eexists _, _.
  apply (dispatch_without_credentials answering "orzion-mini" someKeys);
    [repeat constructor|reflexivity].
Defined.

End ChatDispatchFacts.

(** ** The CORS headers *)

Module MiddlewareFacts.
Import Middleware.

(** [endsWith] is true of the strings that are something followed by the
    suffix. *)
Lemma endsWith_spec (s suffix : string) :
  endsWith s suffix = true ↔ ∃ pre, s = pre +:+ suffix.
Proof.
  induction s as [|c rest IH]; cbn [endsWith].
  - rewrite orb_false_r, bool_decide_eq_true. split.
    + intros <-. by exists "".
    + intros [[|c pre] Hpre]; [exact Hpre|discriminate Hpre].
  - rewrite orb_true_iff, bool_decide_eq_true, IH. split.
    + intros [<-|[pre ->]]; [by exists ""|by exists (String c pre)].
    + intros [[|c' pre] Hpre]; [by left|].
      right. exists pre. by injection Hpre.
Qed.

(** The condition of the two [if]s is [originAccepted]. *)
Lemma accepted_spec (isProduction : bool) (o : string) :
  negb (bool_decide (o = ""))
  && (bool_decide (o ∈ ALLOWED_ORIGINS) || endsWith o ".vercel.app"
      || (isProduction && endsWith o ".pages.dev")) = true
  ↔ originAccepted isProduction o.
Proof.
  unfold originAccepted.
  rewrite andb_true_iff, negb_true_iff, bool_decide_eq_false, !orb_true_iff,
    andb_true_iff, bool_decide_eq_true, !endsWith_spec.
  tauto.
Qed.

Lemma condition_production (o : string) :
  negb (bool_decide (o = ""))
  && (bool_decide (o ∈ ALLOWED_ORIGINS) || endsWith o ".vercel.app"
      || endsWith o ".pages.dev")
  = negb (bool_decide (o = ""))
    && (bool_decide (o ∈ ALLOWED_ORIGINS) || endsWith o ".vercel.app"
        || (true && endsWith o ".pages.dev")).
Proof. reflexivity. Qed.

Lemma condition_development (o : string) :
  negb (bool_decide (o = ""))
  && (bool_decide (o ∈ ALLOWED_ORIGINS) || endsWith o ".vercel.app")
  = negb (bool_decide (o = ""))
    && (bool_decide (o ∈ ALLOWED_ORIGINS) || endsWith o ".vercel.app"
        || (false && endsWith o ".pages.dev")).
Proof. by rewrite orb_false_r. Qed.

Ltac header_lookup :=
  unfold allowOrigin;
  repeat first [rewrite lookup_insert_eq | rewrite lookup_insert_ne by discriminate];
  try reflexivity.

(** X15 (the CORS policy). The two fixed headers are always set. An accepted
    origin (listed, or under vercel.app, or in production under pages.dev)
    is echoed and gets the credentials header. Any other request keeps the
    credentials header as it was, and gets no origin header in production
    and the wildcard in development. *)
Theorem cors_policy (isProduction : bool) (origin : option string)
    (headers : gmap string string) :
  let out := setCorsHeaders isProduction origin headers in
  let accepted := ∃ o, origin = Some o ∧ originAccepted isProduction o in
  out !! "Access-Control-Allow-Methods" = Some "GET, POST, PATCH, DELETE, OPTIONS"
  ∧ out !! "Access-Control-Allow-Headers" = Some "Content-Type, Authorization"
  ∧ (accepted →
     out !! "Access-Control-Allow-Origin" = origin
     ∧ out !! "Access-Control-Allow-Credentials" = Some "true")
  ∧ (¬ accepted →
     out !! "Access-Control-Allow-Credentials"
     = headers !! "Access-Control-Allow-Credentials"
     ∧ out !! "Access-Control-Allow-Origin"
       = if isProduction then headers !! "Access-Control-Allow-Origin" else Some "*").
Proof.
  cbv zeta. unfold setCorsHeaders.
  split; [header_lookup|]. split; [header_lookup|].
  destruct isProduction, origin as [o|].
  - rewrite condition_production.
    destruct (negb _ && _) eqn:Hcond.
    + split; [intros _; split; header_lookup|].
      intros Hno. exfalso. apply Hno. exists o. split; [reflexivity|].
      by apply accepted_spec.
    + split; [|intros _; split; header_lookup].
      intros (o' & [= <-] & Hacc). apply accepted_spec in Hacc. congruence.
  - split; [by intros (o' & [=] & _)|intros _; split; header_lookup].
  - rewrite condition_development.
    destruct (negb _ && _) eqn:Hcond.
    + split; [intros _; split; header_lookup|].
      intros Hno. exfalso. apply Hno. exists o. split; [reflexivity|].
      by apply accepted_spec.
    + split; [|intros _; split; header_lookup].
      intros (o' & [= <-] & Hacc). apply accepted_spec in Hacc. congruence.
  - split; [by intros (o' & [=] & _)|intros _; split; header_lookup].
Qed.

Lemma cors_policy_witness :
  setCorsHeaders true (Some "https://preview-7.pages.dev") ∅
    !! "Access-Control-Allow-Origin" = Some "https://preview-7.pages.dev"
  ∧ setCorsHeaders false (Some "https://preview-7.pages.dev") ∅
      !! "Access-Control-Allow-Origin" = Some "*"
  ∧ setCorsHeaders true (Some "https://example.com") ∅
      !! "Access-Control-Allow-Origin" = None.
Proof.
  split; [|split].
  - apply (cors_policy true (Some "https://preview-7.pages.dev") ∅).
    exists "https://preview-7.pages.dev". split; [reflexivity|].
    split; [discriminate|]. right. right. split; [reflexivity|].
    by exists "https://preview-7".
  - apply (cors_policy false (Some "https://preview-7.pages.dev") ∅).
    intros (o & [= <-] & _ & [Hin|[[pre Hpre]|[[=] _]]]).
    + by vm_compute in Hin; repeat (apply elem_of_cons in Hin as [[=]|Hin]);
        apply elem_of_nil in Hin.
    + apply (f_equal (λ s, endsWith s ".vercel.app")) in Hpre.
      rewrite (proj2 (endsWith_spec (pre +:+ ".vercel.app") ".vercel.app")) in Hpre
        by (by exists pre).
      discriminate Hpre.
  - destruct (cors_policy true (Some "https://example.com") ∅) as (_ & _ & _ & Hother).
    apply Hother.
    intros (o & [= <-] & Hacc). apply accepted_spec in Hacc. discriminate Hacc.
Defined.

(** X16 (no wildcard with credentials). On a response without the
    credentials header, the handler's CORS step sets that header only
    together with the echo of the request's own origin, which is then not
    the wildcard. *)
Theorem credentials_never_with_wildcard (isProduction : bool) (origin : option string)
    (headers : gmap string string) :
  headers !! "Access-Control-Allow-Credentials" = None →
  let out := setCorsHeaders isProduction origin headers in
  out !! "Access-Control-Allow-Credentials" = Some "true" →
  out !! "Access-Control-Allow-Origin" = origin
  ∧ out !! "Access-Control-Allow-Origin" ≠ Some "*".
Proof.
  intros Hnone. cbv zeta. unfold setCorsHeaders.
  destruct isProduction, origin as [o|];
    try rewrite condition_production; try rewrite condition_development;
    try destruct (negb _ && _) eqn:Hcond;
    header_lookup; try (rewrite Hnone; discriminate).
  all: intros _; split; [reflexivity|]; intros [= ->]; discriminate Hcond.
Qed.

Lemma credentials_never_with_wildcard_witness :
  setCorsHeaders false (Some "https://orzion.pages.dev") ∅
    !! "Access-Control-Allow-Origin" = Some "https://orzion.pages.dev"
  ∧ setCorsHeaders false (Some "https://orzion.pages.dev") ∅
      !! "Access-Control-Allow-Origin" ≠ Some "*".
Proof.
  apply (credentials_never_with_wildcard false (Some "https://orzion.pages.dev") ∅);
    reflexivity.
Defined.

(** X17 (one policy in two places). [corsMiddleware] sets exactly the headers
    of [setCorsHeaders]; it ends an OPTIONS request with status 200 and
    passes every other request on. *)
Theorem corsMiddleware_headers (isProduction : bool) (method : string)
    (origin : option string) (headers : gmap string string) :
  (corsMiddleware isProduction method origin headers).1
  = setCorsHeaders isProduction origin headers
  ∧ ((corsMiddleware isProduction method origin headers).2 = EndedWith 200
     ↔ method = "OPTIONS")
  ∧ ((corsMiddleware isProduction method origin headers).2 = Next
     ↔ method ≠ "OPTIONS").
Proof.
  unfold corsMiddleware, setCorsHeaders. cbv zeta.
  destruct (bool_decide (method = "OPTIONS")) eqn:Hm.
  - apply bool_decide_eq_true in Hm. by repeat split.
  - apply bool_decide_eq_false in Hm. by repeat split.
Qed.

End MiddlewareFacts.

(** ** The chat handler *)

Module HandlerFacts.
Import ErrorHandler Handler Scenario.

Lemma messagesError_code (i : nat) (msgs : list Chat.Message) :
  code <$> messagesError i msgs = Chat.checkMessages msgs.
Proof.
  revert i. induction msgs as [|msg msgs IH]; intros i; [reflexivity|].
  cbn [messagesError Chat.checkMessages].
  destruct (bool_decide (Chat.role msg = "") || bool_decide (Chat.content msg = ""));
    [reflexivity|].
  destruct (negb (bool_decide (Chat.role msg ∈ ["system"; "user"; "assistant"])));
    [reflexivity|].
  apply IH.
Qed.

(** The handler's checks are the checks of [validateRequest]. *)
Lemma validateRequest_errors (queryModel : option string) (b : Chat.ChatBody) :
  Chat.validateRequest queryModel b
  = code <$> match modelError queryModel with
             | Some e => Some e
             | None => bodyError b
             end.
Proof.
  unfold Chat.validateRequest, modelError, bodyError.
  destruct queryModel as [m|]; [|reflexivity].
  destruct (bool_decide (m = "")); [reflexivity|].
  destruct (negb (bool_decide (m ∈ Chat.VALID_MODELS))); [reflexivity|].
  destruct (Nat.eqb (length (Chat.messages b)) 0); [reflexivity|].
  rewrite <- messagesError_code with (i := 0%nat).
  destruct (messagesError 0 (Chat.messages b)); [reflexivity|]. simpl.
  repeat (match goal with |- context [if ?c then _ else _] => destruct c end;
          try reflexivity).
Qed.

Lemma dispatch_returns upstream m cfg :
  ∃ res cfg' trace, Chat.makeApiCallWithRetry upstream m cfg = Some (res, cfg', trace).
Proof.
  destruct (ChatFacts.retryLoop_returns (S Chat.MAX_RETRIES) upstream m cfg 0 None [])
    as [[[res cfg'] trace] H]; [unfold Chat.MAX_RETRIES; lia|]. eauto.
Qed.

Ltac innermost_case :=
  match goal with
  | |- context [Chat.makeApiCallWithRetry ?u ?m ?c] =>
      let H := fresh "Hcall" in
      destruct (dispatch_returns u m c) as (? & ? & ? & H); rewrite H
  | |- context [Supabase.checkRateLimits ?a ?b ?c ?d] =>
      let H := fresh "Hgate" in
      destruct (Supabase.checkRateLimits a b c d) as [? ?] eqn:H
  | |- context [match ?x with _ => _ end] =>
      lazymatch x with
      | context [match _ with _ => _ end] => fail
      | _ => let H := fresh "Hcase" in destruct x eqn:H
      end
  end.

Ltac handler_split :=
  repeat (innermost_case;
          cbn [status responseBody headers fst snd pgClient pool usageCalls
               updateApiUsage statusCode message code details nonEmpty userApiKey
               model inputTokens MethodNotAllowed BadRequest Unauthorized
               TooManyRequests ServiceUnavailable negb orb andb]).

Ltac handler_cases :=
  unfold chatHandler, tryBlock, recordFailure;
  repeat (innermost_case;
          cbn [status responseBody headers fst snd pgClient pool usageCalls
               updateApiUsage statusCode message code details nonEmpty userApiKey
               model inputTokens MethodNotAllowed BadRequest Unauthorized
               TooManyRequests ServiceUnavailable negb orb andb]).

Lemma modelError_400 q e : modelError q = Some e → statusCode e = 400.
Proof.
  unfold modelError. repeat case_match; intros [= <-]; reflexivity.
Qed.

Lemma messagesError_400 i msgs e : messagesError i msgs = Some e → statusCode e = 400.
Proof.
  revert i. induction msgs as [|msg msgs IH]; intros i; [discriminate|].
  cbn [messagesError]. repeat case_match; try (intros [= <-]; reflexivity). apply IH.
Qed.

Lemma bodyError_400 b e : bodyError b = Some e → statusCode e = 400.
Proof.
  unfold bodyError. repeat case_match; try (intros [= <-]; reflexivity); try discriminate.
  intros [= <-]. by eapply messagesError_400.
Qed.

Ltac known_status :=
  repeat match goal with
         | H : modelError _ = Some ?e |- _ =>
             rewrite (modelError_400 _ _ H) in *; clear H
         | H : bodyError _ = Some ?e |- _ =>
             rewrite (bodyError_400 _ _ H) in *; clear H
         end.

Ltac not_listed H :=
  exfalso; repeat (apply elem_of_cons in H as [H|H]; [discriminate H|]);
  by apply elem_of_nil in H.

Lemma modelError_None q :
  modelError q = None → ∃ m, q = Some m ∧ m ≠ "" ∧ m ∈ Chat.VALID_MODELS.
Proof.
  unfold modelError. destruct q as [m|]; [|discriminate].
  destruct (bool_decide (m = "")) eqn:Hempty; [discriminate|].
  destruct (bool_decide (m ∈ Chat.VALID_MODELS)) eqn:Hvalid; [|discriminate].
  intros _. exists m. split; [reflexivity|].
  split; [by apply bool_decide_eq_false in Hempty|by apply bool_decide_eq_true in Hvalid].
Qed.

Ltac dispatch_case :=
  match goal with
  | |- context [Chat.makeApiCallWithRetry ?u ?m ?c] =>
      let H := fresh "Hcall" in
      let Hmore := fresh "Hmore" in
      destruct (ChatDispatchFacts.dispatch_cases u m c)
        as [(? & ? & ? & ? & ? & H & Hmore)|(? & ? & ? & ? & ? & H & Hmore)];
      rewrite H
  end.

Ltac handler_cases' :=
  unfold chatHandler, tryBlock, recordFailure;
  repeat (first [dispatch_case | innermost_case];
          cbn [status responseBody headers fst snd pgClient pool usageCalls
               updateApiUsage statusCode message code details nonEmpty userApiKey
               model inputTokens MethodNotAllowed BadRequest Unauthorized
               TooManyRequests ServiceUnavailable negb orb andb]).

(** Past the checks the key and the model are not empty, so the condition
    of the usage call in the [catch] block holds. *)
Ltac absurd_condition :=
  match goal with
  | H : negb (bool_decide (?k = "")) && negb (bool_decide (?m = "")) = false,
    Hk : bool_decide (?k = "") || _ = false,
    Hm : modelError (Some ?m) = None |- _ =>
      exfalso; apply orb_false_iff in Hk as [Hk _]; rewrite Hk in H;
      apply modelError_None in Hm as (? & Hm & Hne & _);
      injection Hm as <-;
      rewrite (bool_decide_eq_false_2 _ Hne) in H; discriminate H
  end.

Lemma outputTokensOf_inl usage content msg :
  outputTokensOf usage content = inl msg →
  content = None ∧ ∀ n, usage = Some n → n = 0.
Proof.
  unfold outputTokensOf, estimateContent, RateLimit.truthy.
  destruct usage as [n|].
  - destruct (Z.eqb_spec n 0) as [->|_]; simpl; [|discriminate].
    destruct content; [discriminate|]. intros _. split; [reflexivity|]. by intros ? [= <-].
  - destruct content; [discriminate|]. intros _. split; [reflexivity|]. discriminate.
Qed.

(** X18 (rejections cost nothing). A response with status 400 or 405 leaves
    the world as it was: no statement is sent to the store, the pool is not
    touched and no usage is recorded. A response with status 401 leaves the
    store and the pool as they were. A response with status 500 either
    leaves the world as it was, or comes after the gate and a dispatch that
    succeeded with a content of [null] and no completion tokens: then the
    failure count of the model has been reset and one usage call with
    status 500 and no output token is recorded. *)
Theorem rejected_requests_change_nothing (isProduction : bool) (rpc : string → RpcOutcome)
    (upstream : Chat.Upstream) (prompts : Chat.Prompts) (now : Z) (req : Request)
    (w : World) :
  let out := chatHandler isProduction rpc upstream prompts now req w in
  (status out.1 ∈ [400; 405] → out.2 = w)
  ∧ (status out.1 = 401 → pgClient out.2 = pgClient w ∧ pool out.2 = pool w)
  ∧ (status out.1 = 500 →
     out.2 = w
     ∨ ∃ m usage used pool' trace call,
         queryModel req = Some m
         ∧ Chat.makeApiCallWithRetry upstream m (pool w)
           = Some (Chat.Success None usage used, pool', trace)
         ∧ (∀ n, usage = Some n → n = 0)
         ∧ pool out.2 = KeyRotation.resetFailureCount pool' m
         ∧ usageCalls out.2 = usageCalls w ++ [call]
         ∧ usageStatus call = 500 ∧ tokensOutput call = 0).
Proof.
  cbv zeta. handler_cases'; known_status.
  all: split; [intros Hin; first [reflexivity | not_listed Hin]|].
  all: split; [intros Hst; first [discriminate Hst | by split]|].
  all: intros Hst; try discriminate Hst.
  all: try by absurd_condition.
  all: try (left; reflexivity).
  all: right.
  all: match goal with
       | H : outputTokensOf _ _ = inl _ |- _ =>
           apply outputTokensOf_inl in H as [-> Hfalsy]
       end.
  all: eexists _, _, _, _, _, _; split; [reflexivity|]; split; [eassumption|];
       split; [exact Hfalsy|]; split; [reflexivity|]; split; [reflexivity|]; by split.
Qed.

Lemma rejected_requests_change_nothing_witness :
  (chatHandler true (oneKey (RateLimit.mkLimits 10 1000 5)) answering samplePrompts
     300000 (mkRequest "GET" (Some "orzion-pro") None None None) freshWorld).2
  = freshWorld.
Proof.
  apply (rejected_requests_change_nothing true (oneKey (RateLimit.mkLimits 10 1000 5))
           answering samplePrompts 300000
           (mkRequest "GET" (Some "orzion-pro") None None None) freshWorld).
  vm_compute. repeat constructor.
Defined.

(** A content of [null] without completion tokens: the request has passed
    the gate and reset the failure count when the handler fails. *)
Example null_content_is_a_late_500 :
  let out := chatHandler true (oneKey (RateLimit.mkLimits 10 1000 100000))
               (λ _ _, Chat.Resolved (Chat.mkCompletion None None)) samplePrompts
               300000 chatRequest
               (mkWorld (Some (emptyStore []))
                  (KeyRotation.rotateApiKey someKeys "orzion-pro" "timeout") []) in
  status out.1 = 500
  ∧ (RateLimit.log <$> pgClient out.2) ≠ Some []
  ∧ KeyRotation.failureCount <$> (pool out.2 !! "orzion-pro") = Some 0%nat
  ∧ usageStatus <$> usageCalls out.2 = [500].
Proof. vm_compute. by repeat split. Qed.

(** X19 (a bad request is decided by the request alone). Whether a request
    is answered with 400 or 405, and with which body, depends only on its
    method, its model parameter and its body (and its origin, for the
    headers): the checks on them come before the Authorization header is
    read and before the key service, the rate limiter and the upstream are
    asked. The same request with any other header, against any other key
    service, store, pool, clock or upstream gets the same response, and
    nothing shared changes. *)
Theorem bad_requests_decided_first (isProduction : bool)
    (rpc rpc' : string → RpcOutcome) (upstream upstream' : Chat.Upstream)
    (prompts prompts' : Chat.Prompts) (now now' : Z) (req req' : Request)
    (w w' : World) :
  method req' = method req → queryModel req' = queryModel req →
  body req' = body req → origin req' = origin req →
  status (chatHandler isProduction rpc upstream prompts now req w).1 ∈ [400; 405] →
  (chatHandler isProduction rpc' upstream' prompts' now' req' w').1
  = (chatHandler isProduction rpc upstream prompts now req w).1
  ∧ (chatHandler isProduction rpc' upstream' prompts' now' req' w').2 = w'.
Proof.
  intros Hmethod Hmodel Hbody Horigin.
  unfold chatHandler, tryBlock, recordFailure.
  rewrite Hmethod, Hmodel, Hbody, Horigin.
  destruct (bool_decide (method req = "OPTIONS")); [intros Hin; not_listed Hin|].
  destruct (negb (bool_decide (method req = "POST"))); [intros _; by split|].
  destruct (modelError (queryModel req)) as [e|]; [intros _; by split|].
  destruct (queryModel req) as [m|]; [|intros _; by split].
  destruct (body req) as [b|]; [|intros Hin; not_listed Hin].
  destruct (bodyError b) as [e|] eqn:Hb; [intros _; by split|].
  intros Hin. exfalso. revert Hin. clear.
  handler_split; intros Hin; not_listed Hin.
Qed.

Lemma bad_requests_decided_first_witness :
  (chatHandler true (λ _, RpcThrew) overloaded samplePrompts 0
     (mkRequest "POST" (Some "gpt-4") (Some sampleBody) None None) freshWorld).1
  = (chatHandler true (oneKey (RateLimit.mkLimits 10 1000 5)) answering samplePrompts
       300000
       (mkRequest "POST" (Some "gpt-4") (Some sampleBody) (Some "Bearer orz_live_1")
          None)
       freshWorld).1
  ∧ (chatHandler true (λ _, RpcThrew) overloaded samplePrompts 0
       (mkRequest "POST" (Some "gpt-4") (Some sampleBody) None None) freshWorld).2
    = freshWorld.
Proof.
  apply (bad_requests_decided_first true (oneKey (RateLimit.mkLimits 10 1000 5))
           (λ _, RpcThrew) answering overloaded samplePrompts samplePrompts 300000 0
           (mkRequest "POST" (Some "gpt-4") (Some sampleBody) (Some "Bearer orz_live_1")
              None)
           (mkRequest "POST" (Some "gpt-4") (Some sampleBody) None None)
           freshWorld freshWorld); try reflexivity.
  vm_compute. repeat constructor.
Defined.

(** X20 (the statuses of the endpoint). The handler answers with one of seven
    statuses, records at most two usage calls and removes none, and in
    production a 500 carries the fixed message and code and no details. *)
Theorem handler_statuses (isProduction : bool) (rpc : string → RpcOutcome)
    (upstream : Chat.Upstream) (prompts : Chat.Prompts) (now : Z) (req : Request)
    (w : World) :
  let out := chatHandler isProduction rpc upstream prompts now req w in
  status out.1 ∈ [200; 400; 401; 405; 429; 500; 503]
  ∧ (∃ calls, usageCalls out.2 = usageCalls w ++ calls ∧ (length calls ≤ 2)%nat)
  ∧ (status out.1 = 500 →
     errorCodeOf out.1 = Some "INTERNAL_SERVER_ERROR"
     ∧ (isProduction = true →
        responseBody out.1
        = ErrorBody "An unexpected error occurred" "INTERNAL_SERVER_ERROR" None)).
Proof.
  cbv zeta. unfold errorCodeOf. handler_cases; known_status;
    (split; [repeat constructor|]);
    (split; [first [by exists []; rewrite app_nil_r; split; [|simpl; lia]
                   | by rewrite <- ?app_assoc; eexists; split; [reflexivity|simpl; lia]]|]);
    intros Hst; try discriminate Hst; (split; [reflexivity|]); intros Hprod;
    first [reflexivity | discriminate Hprod].
Qed.

Lemma handler_statuses_witness :
  responseBody
    (chatHandler true (oneKey (RateLimit.mkLimits 10 1000 5)) answering samplePrompts
       300000 (mkRequest "POST" (Some "orzion-pro") None None None) freshWorld).1
  = ErrorBody "An unexpected error occurred" "INTERNAL_SERVER_ERROR" None.
Proof.
  apply (handler_statuses true (oneKey (RateLimit.mkLimits 10 1000 5)) answering
           samplePrompts 300000
           (mkRequest "POST" (Some "orzion-pro") None None None) freshWorld);
    reflexivity.
Defined.

(** X21 (a completion and its accounting). When a request other than OPTIONS
    is answered with 200, the body reports the prompt tokens estimated from
    the messages and the system prompt, and a total that is their sum with
    the completion tokens; exactly one usage call is recorded, with the same
    two counts and status 200; and the failure count of the model is 0
    afterwards. *)
Theorem completion_accounting (isProduction : bool) (rpc : string → RpcOutcome)
    (upstream : Chat.Upstream) (prompts : Chat.Prompts) (now : Z) (req : Request)
    (w : World) :
  method req ≠ "OPTIONS" →
  let out := chatHandler isProduction rpc upstream prompts now req w in
  status out.1 = 200 →
  ∃ m b text completion,
    queryModel req = Some m ∧ body req = Some b
    ∧ responseBody out.1
      = CompletionBody m text (Chat.inputTokens prompts m (Chat.messages b)) completion
          (Chat.inputTokens prompts m (Chat.messages b) + completion)
    ∧ usageCalls out.2
      = usageCalls w
        ++ [mkUsageCall (substringFrom 7 (default "" (authorization req)))
              ("/api/v1/chat/" +:+ m) m (Chat.inputTokens prompts m (Chat.messages b))
              completion 200 None]
    ∧ KeyRotation.failureCount <$> (pool out.2 !! m) = Some 0%nat.
Proof.
  intros Hmethod. cbv zeta. handler_cases'; known_status; intros Hst;
    try discriminate Hst.
  - by apply bool_decide_eq_true in Hcase.
  - destruct Hmore as [config Hconfig].
    eexists _, _, _, _. split; [reflexivity|]. split; [reflexivity|].
    split; [reflexivity|]. split; [reflexivity|].
    by rewrite (KeyRotationFacts.reset_lookup _ _ _ Hconfig).
Qed.

Lemma completion_accounting_witness :
  ∃ m b text completion,
    queryModel chatRequest = Some m ∧ body chatRequest = Some b
    ∧ responseBody
        (chatHandler false (oneKey (RateLimit.mkLimits 10 1000 100000)) answering
           samplePrompts 300000 chatRequest freshWorld).1
      = CompletionBody m text (Chat.inputTokens samplePrompts m (Chat.messages b))
          completion (Chat.inputTokens samplePrompts m (Chat.messages b) + completion)
    ∧ usageCalls
        (chatHandler false (oneKey (RateLimit.mkLimits 10 1000 100000)) answering
           samplePrompts 300000 chatRequest freshWorld).2
      = usageCalls freshWorld
        ++ [mkUsageCall (substringFrom 7 (default "" (authorization chatRequest)))
              ("/api/v1/chat/" +:+ m) m
              (Chat.inputTokens samplePrompts m (Chat.messages b)) completion 200 None]
    ∧ KeyRotation.failureCount
        <$> (pool (chatHandler false (oneKey (RateLimit.mkLimits 10 1000 100000))
                     answering samplePrompts 300000 chatRequest freshWorld).2 !! m)
      = Some 0%nat.
Proof.
  apply (completion_accounting false (oneKey (RateLimit.mkLimits 10 1000 100000))
           answering samplePrompts 300000 chatRequest freshWorld);
    [discriminate|reflexivity].
Defined.

(** X22 (an upstream failure is recorded twice). A 503 is the answer to a
    request whose dispatch failed: its code is API_CALL_FAILED, its message
    is the text of the dispatcher (the fallback text is never used), and the
    same failure is recorded by two usage calls, the first with the status
    of the dispatcher, which is never 0 (so the fallback 500 is never
    used), the second with 503; both count no output token. *)
Theorem upstream_failure_recorded_twice (isProduction : bool)
    (rpc : string → RpcOutcome) (upstream : Chat.Upstream) (prompts : Chat.Prompts)
    (now : Z) (req : Request) (w : World) :
  let out := chatHandler isProduction rpc upstream prompts now req w in
  status out.1 = 503 →
  ∃ m b n d sc,
    queryModel req = Some m ∧ body req = Some b ∧ (1 ≤ n ≤ 3)%nat ∧ sc ≠ 0
    ∧ let text := "Failed to process request for " +:+ m +:+ " after "
                  +:+ pretty n +:+ " attempts" in
      let call := λ st,
        mkUsageCall (substringFrom 7 (default "" (authorization req)))
          ("/api/v1/chat/" +:+ m) m (Chat.inputTokens prompts m (Chat.messages b))
          0 st (Some text) in
      responseBody out.1 = ErrorBody text "API_CALL_FAILED" (Some (UpstreamDetails d))
      ∧ usageCalls out.2 = usageCalls w ++ [call sc; call 503].
Proof.
  cbv zeta. handler_cases'; known_status; intros Hst; try discriminate Hst.
  all: destruct Hmore as [Hn Hsc].
  all: try match goal with
           | H : RateLimit.truthy _ = false |- _ =>
               apply negb_false_iff, Z.eqb_eq in H; contradiction
           end.
  all: try by absurd_condition.
  all: eexists _, _, _, _, _.
  all: split; [reflexivity|]; split; [reflexivity|]; split; [exact Hn|];
       split; [exact Hsc|].
  all: unfold orElse; cbn [String.append].
  all: rewrite bool_decide_eq_false_2 by discriminate.
  all: split; [reflexivity|by rewrite <- app_assoc].
Qed.

Lemma upstream_failure_recorded_twice_witness :
  ∃ first second,
    usageCalls
      (chatHandler false (oneKey (RateLimit.mkLimits 10 1000 100000)) overloaded
         samplePrompts 300000 chatRequest freshWorld).2
    = [first; second]
    ∧ usageStatus first ≠ 0 ∧ usageStatus second = 503.
Proof.
  destruct (upstream_failure_recorded_twice false
              (oneKey (RateLimit.mkLimits 10 1000 100000)) overloaded samplePrompts
              300000 chatRequest freshWorld eq_refl)
    as (m & b & n & d & sc & _ & _ & _ & Hsc & _ & Hcalls).
  eexists _, _. split; [exact Hcalls|]. by split.
Defined.

(** X23 (a rate-limited request stops at the gate). A 429 has the code
    RATE_LIMIT_EXCEEDED, leaves the pool as it was, records one usage call
    with status 429 and no output token, and is the same whatever the
    upstream would have answered: no call upstream is made. *)
Theorem rate_limited_before_dispatch (isProduction : bool)
    (rpc : string → RpcOutcome) (upstream : Chat.Upstream) (prompts : Chat.Prompts)
    (now : Z) (req : Request) (w : World) :
  let out := chatHandler isProduction rpc upstream prompts now req w in
  status out.1 = 429 →
  errorCodeOf out.1 = Some "RATE_LIMIT_EXCEEDED"
  ∧ pool out.2 = pool w
  ∧ (∃ call, usageCalls out.2 = usageCalls w ++ [call]
             ∧ usageStatus call = 429 ∧ tokensOutput call = 0)
  ∧ ∀ upstream', chatHandler isProduction rpc upstream' prompts now req w = out.
Proof.
  cbv zeta. unfold errorCodeOf. handler_cases'; known_status; intros Hst;
    try discriminate Hst.
  all: try by absurd_condition.
  all: split; [reflexivity|]; split; [reflexivity|]; split;
    [eexists; split; [reflexivity|by split]|reflexivity].
Qed.

Lemma rate_limited_before_dispatch_witness :
  chatHandler false (oneKey (RateLimit.mkLimits 10 1000 5)) answering samplePrompts
    300000 chatRequest freshWorld
  = chatHandler false (oneKey (RateLimit.mkLimits 10 1000 5)) overloaded samplePrompts
      300000 chatRequest freshWorld.
Proof.
  apply (rate_limited_before_dispatch false (oneKey (RateLimit.mkLimits 10 1000 5))
           overloaded samplePrompts 300000 chatRequest freshWorld).
  reflexivity.
Defined.

(** X24 (the three ways to a 401). A 401 comes from the Authorization
    header alone or from the key service, before the rate limiter and the
    upstream are asked. Without a bearer header, or with an empty key,
    nothing is recorded. A key of white space only is refused as empty and
    the refusal is still recorded under that key, with no input token. A
    key the service does not accept is recorded with the input tokens of
    the request. *)
Theorem unauthorized_requests (isProduction : bool) (rpc : string → RpcOutcome)
    (upstream : Chat.Upstream) (prompts : Chat.Prompts) (now : Z) (req : Request)
    (w : World) :
  let out := chatHandler isProduction rpc upstream prompts now req w in
  let key := substringFrom 7 (default "" (authorization req)) in
  status out.1 = 401 →
  (errorCodeOf out.1 = Some "MISSING_AUTH_TOKEN" ∧ out.2 = w)
  ∨ (errorCodeOf out.1 = Some "EMPTY_API_KEY" ∧ key = "" ∧ out.2 = w)
  ∨ (errorCodeOf out.1 = Some "EMPTY_API_KEY" ∧ key ≠ "" ∧ isBlank key = true
     ∧ ∃ m, queryModel req = Some m
        ∧ usageCalls out.2
          = usageCalls w
            ++ [mkUsageCall key ("/api/v1/chat/" +:+ m) m 0 0 401
                  (Some "API key cannot be empty")])
  ∨ (errorCodeOf out.1 = Some "INVALID_API_KEY"
     ∧ (∀ v, validateApiKey rpc key = inr v → Supabase.isValid v = false)
     ∧ ∃ m b text, queryModel req = Some m ∧ body req = Some b
        ∧ usageCalls out.2
          = usageCalls w
            ++ [mkUsageCall key ("/api/v1/chat/" +:+ m) m
                  (Chat.inputTokens prompts m (Chat.messages b)) 0 401 (Some text)]).
Proof.
  cbv zeta. unfold errorCodeOf. handler_cases'; known_status; intros Hst;
    try discriminate Hst.
  all: try by absurd_condition.
  all: try (left; by split).
  all: try (right; right; right; split; [reflexivity|];
            split;
            [intros v' Hv';
             first [discriminate Hv' | injection Hv' as <-; by apply negb_true_iff]
            |eexists _, _, _; by repeat split]).
  all: match goal with
       | Hk : bool_decide (?k = "") || isBlank ?k = true,
         Hc : negb (bool_decide (?k = "")) && negb (bool_decide (?m = "")) = _,
         Hm : modelError (Some ?m) = None |- _ =>
           apply modelError_None in Hm as (? & Hm & Hne & _); injection Hm as <-;
           rewrite (bool_decide_eq_false_2 _ Hne), andb_true_r in Hc;
           destruct (bool_decide (k = "")) eqn:Hempty; cbn [negb orb] in Hc, Hk;
           try discriminate Hc;
           first [apply bool_decide_eq_true in Hempty; right; left; by repeat split
                 |apply bool_decide_eq_false in Hempty; right; right; left;
                  split; [reflexivity|]; split; [exact Hempty|]; split; [exact Hk|];
                  eexists; by split]
       end.
Qed.

Lemma unauthorized_requests_witness :
  ∃ call,
    usageCalls
      (chatHandler true (oneKey (RateLimit.mkLimits 10 1000 5)) answering samplePrompts
         300000
         (mkRequest "POST" (Some "orzion-mini") (Some sampleBody) (Some "Bearer   ") None)
         freshWorld).2
    = [call]
    ∧ usageApiKey call = "  " ∧ tokensInput call = 0.
Proof.
  destruct (unauthorized_requests true (oneKey (RateLimit.mkLimits 10 1000 5)) answering
              samplePrompts 300000
              (mkRequest "POST" (Some "orzion-mini") (Some sampleBody)
                 (Some "Bearer   ") None)
              freshWorld eq_refl)
    as [[Hcode _]|[(_ & Hkey & _)|[(_ & _ & _ & m & Hm & Hcalls)|(Hcode & _)]]];
    try discriminate Hcode; try discriminate Hkey.
  eexists. split; [exact Hcalls|]. by split.
Defined.

End HandlerFacts.
